(** * Monitor evaluation and alarm lifecycle engine of media-net

    A shallow embedding of [src/services/anomaly.ts] together with the parts
    of [utils/helpers], [utils/storage] and [services/simulation] it calls.

    Conventions of the embedding:
    - a JavaScript [number] is a rational ([Q]); rounding, NaN and the
      infinities of IEEE doubles are outside the model.  The only divisions
      of the engine are by [100], by a sensitivity threshold and by an
      [expected] value already tested against [0].  The one NaN the code
      can compute from well-typed input, the expected value of a metric
      named like a member of [Object.prototype], is written [0]: see
      [Simulation.NaN];
    - window sizes and breach counts are integers ([Z]);
    - strings are [string]; ISO timestamps are kept as the strings the code
      stores;
    - the cookie jar behind [utils/storage] is a record of three arrays, and
      [JSON.stringify]/[JSON.parse] are taken to round-trip;
    - [Math.random], [new Date()], [uuidv4()] and the insight call are read
      from oracle streams held in a [World], one reading per call. *)

From Stdlib Require Import List String Ascii ZArith QArith Qabs Bool Lia.
Import ListNotations.

Local Open Scope string_scope.

(** ** types/index.ts *)

Inductive CampaignVertical :=
  Ecommerce | Finance | SaaS | Travel | B2B | Healthcare | Education.

Inductive CampaignObjective :=
  Performance | BrandAwareness | Video | AppInstall.

Inductive MonitorType := SIMPLE | COMPOSITE | GRANULAR.

Inductive MonitorState := OK | IN_ALARM.

Inductive AlarmSeverity := CRITICAL | HIGH | MEDIUM | LOW.

Inductive AlarmState := ACTIVE | RESOLVED | DISMISSED.

Inductive ResolutionMethod := USER_ACTION | AUTO_RESOLVED | BY_DISMISSAL.

Inductive Sensitivity := Strict | Balanced | Loose.

Inductive DeviceType := Desktop | Mobile | Tablet.

Definition DeviceType_name (d : DeviceType) : string :=
  match d with Desktop => "Desktop" | Mobile => "Mobile" | Tablet => "Tablet" end.

Record Targeting := {
  geos : list string;
  devices : list DeviceType
}.

(** The fields of a campaign the engine reads. *)
Record Campaign := {
  campaign_id : string;
  campaign_name : string;
  vertical : CampaignVertical;
  objective : CampaignObjective;
  dailyBudget : Q;
  targeting : Targeting;
  campaign_sensitivity : Sensitivity
}.

Record CompositeConfig := {
  cfg_n : Z;   (* N of M data points must breach *)
  cfg_m : Z
}.

Record Monitor := {
  monitor_id : string;
  monitor_campaignId : string;
  metricId : string;
  metricName : string;
  monitorType : MonitorType;
  enabled : bool;
  sensitivity : Sensitivity;
  compositeConfig : option CompositeConfig;
  granularDimensions : option (list string)
}.

Record DimensionResult := {
  dim_value : Q;
  dim_inAlarm : bool
}.

(** A [Record<string, any>] filled by assignment: keys in insertion order. *)
Definition Dimensions := list (string * DimensionResult).

Record MonitorStateData := {
  ms_monitorId : string;
  ms_state : MonitorState;
  ms_currentValue : Q;
  ms_expectedValue : Q;
  anomalyScore : Q;
  enteredStateAt : string;
  dataPointsBreached : option Z;
  dimensions : option Dimensions;
  updatedAt : string
}.

(** The enrichment payload is opaque to the engine. *)
Definition AlarmInsights := string.

Record Alarm := {
  alarm_id : string;
  alarm_monitorId : string;
  alarm_campaignId : string;
  alarm_campaignName : string;
  alarm_metricName : string;
  severity : AlarmSeverity;
  alarm_state : AlarmState;
  triggeredAt : string;
  resolvedAt : option string;
  resolutionMethod : option ResolutionMethod;
  estimatedImpactUSD : option Q;
  alarm_currentValue : Q;
  alarm_expectedValue : Q;
  deviationPercent : Q;
  dimensionalBreakdown : option Dimensions;
  insights : option AlarmInsights
}.

(** A time-series sample; [mv_timestamp] is [new Date(timestamp).getTime()]. *)
Record MetricValue := {
  mv_campaignId : string;
  mv_metricId : string;
  mv_timestamp : Z;
  mv_value : Q
}.

Definition MonitorState_eqb (a b : MonitorState) : bool :=
  match a, b with OK, OK | IN_ALARM, IN_ALARM => true | _, _ => false end.

Definition AlarmState_eqb (a b : AlarmState) : bool :=
  match a, b with
  | ACTIVE, ACTIVE | RESOLVED, RESOLVED | DISMISSED, DISMISSED => true
  | _, _ => false
  end.

Definition MonitorType_eqb (a b : MonitorType) : bool :=
  match a, b with
  | SIMPLE, SIMPLE | COMPOSITE, COMPOSITE | GRANULAR, GRANULAR => true
  | _, _ => false
  end.

(** ** Numbers *)

(** [x > y] and [x >= y] on numbers. *)
Definition Qgtb (x y : Q) : bool := negb (Qle_bool x y).
Definition Qgeb (x y : Q) : bool := Qle_bool y x.
Definition Qltb (x y : Q) : bool := negb (Qle_bool y x).

Definition Math_max (x y : Q) : Q := if Qle_bool x y then y else x.

(** ** utils/helpers.ts *)

Definition getSensitivityThreshold (s : Sensitivity) : Q :=
  match s with
  | Strict => 0.15
  | Balanced => 0.25
  | Loose => 0.40
  end.

Definition calculateDeviation (current expected : Q) : Q :=
  if Qeq_bool expected 0 then 0
  else ((current - expected) / expected) * 100.

Definition isInAlarm (current expected : Q) (s : Sensitivity) : bool :=
  let threshold := getSensitivityThreshold s in
  let deviation := Qabs (calculateDeviation current expected) / 100 in
  Qgtb deviation threshold.

Definition calculateSeverity (deviation : Q) : AlarmSeverity :=
  let absDeviation := Qabs deviation in
  if Qgeb absDeviation 60 then CRITICAL
  else if Qgeb absDeviation 40 then HIGH
  else if Qgeb absDeviation 25 then MEDIUM
  else LOW.

(** ** The environment: clock, random source, id generator, insight service *)

(** What one [new Date()] yields: the ISO string, the epoch milliseconds and
    the local hour and week day. *)
Record Instant := {
  iso : string;
  epochMs : Z;
  hours : Z;
  day : Z
}.

(** Oracle streams with a cursor each; a call reads at the cursor and moves
    it by one.  [gemini] holds [None] where the insight call rejects. *)
Record World := {
  random : nat -> Q;
  randomPos : nat;
  clock : nat -> Instant;
  clockPos : nat;
  uuids : nat -> string;
  uuidPos : nat;
  gemini : nat -> option AlarmInsights;
  geminiPos : nat
}.

(** The cookie jar of utils/storage.ts, restricted to the engine's keys. *)
Record Store := {
  monitorStates : list MonitorStateData;
  alarms : list Alarm;
  metricValues : list MetricValue
}.

Inductive Outcome (A : Type) :=
| Ok (a : A)
| Throw (e : string).
Arguments Ok {A} a.
Arguments Throw {A} e.

(** Computations that only touch the environment, and computations that
    also read and write the store.  A thrown exception keeps whatever was
    written before it. *)
Definition Ext (A : Type) := World -> Outcome A * World.
Definition M (A : Type) := World -> Store -> Outcome A * World * Store.

Class Monad (m : Type -> Type) := {
  ret : forall {A}, A -> m A;
  bind : forall {A B}, m A -> (A -> m B) -> m B
}.

#[export] Instance Ext_Monad : Monad Ext := {
  ret := fun A a w => (Ok a, w);
  bind := fun A B c k w =>
    match c w with
    | (Ok a, w') => k a w'
    | (Throw e, w') => (Throw e, w')
    end
}.

#[export] Instance M_Monad : Monad M := {
  ret := fun A a w s => (Ok a, w, s);
  bind := fun A B c k w s =>
    match c w s with
    | (Ok a, w', s') => k a w' s'
    | (Throw e, w', s') => (Throw e, w', s')
    end
}.

Notation "x <- c ;; k" := (bind c (fun x => k))
  (at level 61, c at next level, right associativity).
Notation "c ;;; k" := (bind c (fun _ => k))
  (at level 61, right associativity).

Definition lift {A} (c : Ext A) : M A :=
  fun w s => let (r, w') := c w in (r, w', s).

Definition throw {A} (e : string) : Ext A := fun w => (Throw e, w).

(** [try { c } catch (error) { h error }] *)
Definition tryCatch {A} (c : M A) (h : string -> M A) : M A :=
  fun w s =>
    match c w s with
    | (Ok a, w', s') => (Ok a, w', s')
    | (Throw e, w', s') => h e w' s'
    end.

Definition Math_random : Ext Q :=
  fun w => (Ok (random w (randomPos w)),
            {| random := random w; randomPos := S (randomPos w);
               clock := clock w; clockPos := clockPos w;
               uuids := uuids w; uuidPos := uuidPos w;
               gemini := gemini w; geminiPos := geminiPos w |}).

Definition new_Date : Ext Instant :=
  fun w => (Ok (clock w (clockPos w)),
            {| random := random w; randomPos := randomPos w;
               clock := clock w; clockPos := S (clockPos w);
               uuids := uuids w; uuidPos := uuidPos w;
               gemini := gemini w; geminiPos := geminiPos w |}).

Definition Date_now : Ext Z :=
  now <- new_Date ;; ret (epochMs now).

Definition uuidv4 : Ext string :=
  fun w => (Ok (uuids w (uuidPos w)),
            {| random := random w; randomPos := randomPos w;
               clock := clock w; clockPos := clockPos w;
               uuids := uuids w; uuidPos := S (uuidPos w);
               gemini := gemini w; geminiPos := geminiPos w |}).

(** ** Arrays *)

Fixpoint findIndex {A} (p : A -> bool) (l : list A) : Z :=
  match l with
  | [] => -1
  | x :: t =>
      if p x then 0
      else let i := findIndex p t in if (i <? 0)%Z then -1 else (i + 1)%Z
  end.

(** [l[i] = x] for an index inside the array (the engine only assigns at an
    index returned by [findIndex]). *)
Fixpoint array_set {A} (l : list A) (i : nat) (x : A) : list A :=
  match l, i with
  | [], _ => []
  | _ :: t, O => x :: t
  | h :: t, S i' => h :: array_set t i' x
  end.

Definition push {A} (l : list A) (x : A) : list A := (l ++ [x])%list.

(** [l.slice(start)] with JavaScript's relative indices. *)
Definition slice_from {A} (start : Z) (l : list A) : list A :=
  let len := Z.of_nat (List.length l) in
  let k := if (start <? 0)%Z then Z.max (len + start) 0 else Z.min start len in
  skipn (Z.to_nat k) l.

(** [l.sort((a, b) => key(a) - key(b))]: stable, ascending on [key]. *)
Fixpoint insert_by {A} (key : A -> Z) (x : A) (l : list A) : list A :=
  match l with
  | [] => [x]
  | y :: t => if (key x <=? key y)%Z then x :: y :: t
              else y :: insert_by key x t
  end.

Fixpoint sort_by {A} (key : A -> Z) (l : list A) : list A :=
  match l with
  | [] => []
  | x :: t => insert_by key x (sort_by key t)
  end.

(** ** utils/storage.ts *)

Definition getCookie {A} (key : Store -> A) : M A :=
  fun w s => (Ok (key s), w, s).

Definition getMonitorStates : M (list MonitorStateData) :=
  getCookie monitorStates.

Definition saveMonitorStates (states : list MonitorStateData) : M unit :=
  fun w s => (Ok tt, w,
              {| monitorStates := states; alarms := alarms s;
                 metricValues := metricValues s |}).

Definition getMonitorState (monitorId : string) : M (option MonitorStateData) :=
  states <- getMonitorStates ;;
  ret (find (fun s => ms_monitorId s =? monitorId) states).

Definition set_updatedAt (state : MonitorStateData) (t : string) : MonitorStateData :=
  {| ms_monitorId := ms_monitorId state; ms_state := ms_state state;
     ms_currentValue := ms_currentValue state;
     ms_expectedValue := ms_expectedValue state;
     anomalyScore := anomalyScore state;
     enteredStateAt := enteredStateAt state;
     dataPointsBreached := dataPointsBreached state;
     dimensions := dimensions state;
     updatedAt := t |}.

(** [saveMonitorState] stamps [updatedAt] on the object it is given; the
    caller keeps that object, so the stamped record is returned. *)
Definition saveMonitorState (state : MonitorStateData) : M MonitorStateData :=
  states <- getMonitorStates ;;
  let index := findIndex (fun s => ms_monitorId s =? ms_monitorId state) states in
  now <- lift new_Date ;;
  let state := set_updatedAt state (iso now) in
  saveMonitorStates
    (if (index >=? 0)%Z then array_set states (Z.to_nat index) state
     else push states state) ;;;
  ret state.

Definition getAlarms : M (list Alarm) := getCookie alarms.

Definition saveAlarms (l : list Alarm) : M unit :=
  fun w s => (Ok tt, w,
              {| monitorStates := monitorStates s; alarms := l;
                 metricValues := metricValues s |}).

Definition saveAlarm (alarm : Alarm) : M unit :=
  l <- getAlarms ;;
  let index := findIndex (fun a => alarm_id a =? alarm_id alarm) l in
  saveAlarms
    (if (index >=? 0)%Z then array_set l (Z.to_nat index) alarm
     else push l alarm).

Definition getMetricValues : M (list MetricValue) := getCookie metricValues.

Definition getMetricValuesByCampaignAndMetric (campaignId metric : string)
  : M (list MetricValue) :=
  values <- getMetricValues ;;
  ret (sort_by mv_timestamp
         (filter (fun v => (mv_campaignId v =? campaignId) && (mv_metricId v =? metric))
                 values)).

(** ** The metric source

    anomaly.ts reads current and expected values through two functions it
    imports from services/simulation.  The engine below is written over any
    implementation of that pair; [Simulation.source] is the one the
    repository ships.  A source has no access to the record store. *)
Record MetricSource := {
  generateCurrentMetricValue : Campaign -> string -> Q -> Ext Q;
  generateExpectedValue : Campaign -> string -> Ext Q
}.

(** ** services/simulation.ts *)

Module Simulation.

(** Baseline values by vertical and objective.  Every pair has an entry, so
    the [|| BASELINE_VALUES['E-commerce']['Performance']] default of
    [generateExpectedValue] is never taken. *)
Definition BASELINE_VALUES (v : CampaignVertical) (o : CampaignObjective)
  : list (string * Q) :=
  match v, o with
  | Ecommerce, Performance =>
      [("impressions", 100000); ("clicks", 2500); ("conversions", 100);
       ("ctr", 2.5); ("cvr", 4.0); ("cpa", 30); ("cpm", 5); ("cpc", 0.5);
       ("viewability", 75); ("invalid_traffic", 2); ("spend", 1250)]
  | Ecommerce, BrandAwareness =>
      [("impressions", 500000); ("clicks", 5000); ("conversions", 50);
       ("ctr", 1.0); ("cvr", 1.0); ("cpm", 10); ("viewability", 80)]
  | Ecommerce, Video =>
      [("impressions", 200000); ("clicks", 4000); ("ctr", 2.0); ("cpm", 15);
       ("viewability", 70)]
  | Ecommerce, AppInstall =>
      [("impressions", 150000); ("clicks", 3000); ("conversions", 150);
       ("ctr", 2.0); ("cvr", 5.0); ("cpa", 25)]
  | Finance, Performance =>
      [("impressions", 50000); ("clicks", 250); ("conversions", 5);
       ("ctr", 0.5); ("cvr", 2.0); ("cpa", 100); ("cpm", 12); ("cpc", 2.0);
       ("viewability", 80); ("invalid_traffic", 1)]
  | Finance, BrandAwareness =>
      [("impressions", 300000); ("clicks", 1500); ("ctr", 0.5); ("cpm", 15);
       ("viewability", 85)]
  | Finance, Video =>
      [("impressions", 100000); ("clicks", 700); ("ctr", 0.7); ("cpm", 20)]
  | Finance, AppInstall =>
      [("impressions", 80000); ("clicks", 600); ("conversions", 30);
       ("ctr", 0.75); ("cvr", 5.0); ("cpa", 80)]
  | SaaS, Performance =>
      [("impressions", 75000); ("clicks", 1200); ("conversions", 36);
       ("ctr", 1.6); ("cvr", 3.0); ("cpa", 50); ("cpm", 8); ("cpc", 1.5);
       ("viewability", 78)]
  | SaaS, BrandAwareness =>
      [("impressions", 250000); ("clicks", 2500); ("ctr", 1.0); ("cpm", 12)]
  | SaaS, Video =>
      [("impressions", 150000); ("clicks", 2000); ("ctr", 1.3); ("cpm", 18)]
  | SaaS, AppInstall =>
      [("impressions", 100000); ("clicks", 1500); ("conversions", 60);
       ("ctr", 1.5); ("cvr", 4.0); ("cpa", 40)]
  | Travel, Performance =>
      [("impressions", 120000); ("clicks", 2400); ("conversions", 60);
       ("ctr", 2.0); ("cvr", 2.5); ("cpa", 40); ("cpm", 6)]
  | Travel, BrandAwareness =>
      [("impressions", 400000); ("clicks", 4000); ("ctr", 1.0); ("cpm", 10)]
  | Travel, Video =>
      [("impressions", 200000); ("clicks", 3000); ("ctr", 1.5); ("cpm", 14)]
  | Travel, AppInstall =>
      [("impressions", 150000); ("clicks", 2250); ("conversions", 90);
       ("ctr", 1.5); ("cvr", 4.0); ("cpa", 35)]
  | B2B, Performance =>
      [("impressions", 30000); ("clicks", 450); ("conversions", 15);
       ("ctr", 1.5); ("cvr", 3.3); ("cpa", 120); ("cpm", 15); ("cpc", 4.0)]
  | B2B, BrandAwareness =>
      [("impressions", 150000); ("clicks", 1500); ("ctr", 1.0); ("cpm", 18)]
  | B2B, Video =>
      [("impressions", 80000); ("clicks", 1000); ("ctr", 1.25); ("cpm", 22)]
  | B2B, AppInstall =>
      [("impressions", 50000); ("clicks", 750); ("conversions", 25);
       ("ctr", 1.5); ("cvr", 3.3); ("cpa", 100)]
  | Healthcare, Performance =>
      [("impressions", 60000); ("clicks", 900); ("conversions", 30);
       ("ctr", 1.5); ("cvr", 3.3); ("cpa", 60); ("cpm", 10)]
  | Healthcare, BrandAwareness =>
      [("impressions", 200000); ("clicks", 2000); ("ctr", 1.0); ("cpm", 14)]
  | Healthcare, Video =>
      [("impressions", 120000); ("clicks", 1500); ("ctr", 1.25); ("cpm", 18)]
  | Healthcare, AppInstall =>
      [("impressions", 80000); ("clicks", 1200); ("conversions", 48);
       ("ctr", 1.5); ("cvr", 4.0); ("cpa", 50)]
  | Education, Performance =>
      [("impressions", 80000); ("clicks", 1400); ("conversions", 56);
       ("ctr", 1.75); ("cvr", 4.0); ("cpa", 35); ("cpm", 7)]
  | Education, BrandAwareness =>
      [("impressions", 300000); ("clicks", 3000); ("ctr", 1.0); ("cpm", 11)]
  | Education, Video =>
      [("impressions", 180000); ("clicks", 2500); ("ctr", 1.4); ("cpm", 16)]
  | Education, AppInstall =>
      [("impressions", 120000); ("clicks", 1800); ("conversions", 72);
       ("ctr", 1.5); ("cvr", 4.0); ("cpa", 42)]
  end%Q.

(** The own properties of an object literal. *)
Fixpoint lookup (key : string) (o : list (string * Q)) : option Q :=
  match o with
  | [] => None
  | (k, v) :: t => if k =? key then Some v else lookup key t
  end.

(** The members every object literal inherits from [Object.prototype]. *)
Definition Object_prototype : list string :=
  ["constructor"; "__defineGetter__"; "__defineSetter__"; "hasOwnProperty";
   "__lookupGetter__"; "__lookupSetter__"; "isPrototypeOf";
   "propertyIsEnumerable"; "toString"; "valueOf"; "__proto__";
   "toLocaleString"].

Definition inherited (key : string) : bool :=
  existsb (String.eqb key) Object_prototype.

(** What [o[key]] yields on an object literal of numbers: an own number, an
    inherited member (a function, or the prototype itself for [__proto__]),
    or [undefined]. *)
Inductive Property :=
| OwnNumber (v : Q)
| InheritedMember
| Undefined.

Definition getProperty (o : list (string * Q)) (key : string) : Property :=
  match lookup key o with
  | Some v => OwnNumber v
  | None => if inherited key then InheritedMember else Undefined
  end.

(** [p || d]: an own number other than 0 and an inherited member are truthy,
    [0] and [undefined] are not. *)
Definition orElse (p : Property) (d : Q) : Property :=
  match p with
  | OwnNumber v => if Qeq_bool v 0 then OwnNumber d else OwnNumber v
  | InheritedMember => InheritedMember
  | Undefined => OwnNumber d
  end.

(** The rationals have no NaN.  Where the code computes NaN the model has
    [0].  The engine uses an expected value in [calculateDeviation] and
    stores it.  On NaN the deviation is NaN, and every comparison made on
    it is false: the breach test, the severity bands, the sign tests of the
    impact.  On [0] the deviation is [0] by the guard of
    [calculateDeviation], and the same comparisons are false.  So the
    state, the breach count, the severity and the decision to raise an alarm
    are the code's, and every number that is NaN in the code (the expected
    value, the deviation, the score, an impact, a dimension value) is [0]
    here. *)
Definition NaN : Q := 0.

(** [p * x]: a function or an object converts to NaN. *)
Definition times (p : Property) (x : Q) : Q :=
  match p with
  | OwnNumber v => (v * x)%Q
  | InheritedMember | Undefined => NaN
  end.

Definition getHourMultiplier (hour : Z) (isB2B : bool) : Q :=
  if isB2B then
    if ((hour >=? 9) && (hour <=? 17))%Z then 1.2
    else if ((hour >=? 0) && (hour <? 6))%Z then 0.3
    else 0.7
  else
    if ((hour >=? 19) && (hour <=? 22))%Z then 1.3
    else if ((hour >=? 0) && (hour <? 6))%Z then 0.4
    else 1.0.

Definition getDayMultiplier (dayOfWeek : Z) (isB2B : bool) : Q :=
  if isB2B then
    if ((dayOfWeek =? 0) || (dayOfWeek =? 6))%Z then 0.2 else 1.0
  else
    if ((dayOfWeek =? 0) || (dayOfWeek =? 6))%Z then 1.1 else 1.0.

Definition generateValue (baseValue : Q) (hour dayOfWeek : Z) (isB2B : bool)
  (noiseLevel : Q) : Ext Q :=
  let hourMult := getHourMultiplier hour isB2B in
  let dayMult := getDayMultiplier dayOfWeek isB2B in
  r <- Math_random ;;
  let noise := (1 + (r - 0.5) * 2 * noiseLevel)%Q in
  ret (baseValue * hourMult * dayMult * noise)%Q.

(** [s.split('').reduce((acc, char) => acc + char.charCodeAt(0), 0)] on
    ASCII text. *)
Definition charCodeSum (s : string) : Z :=
  fold_left (fun acc char => (acc + Z.of_nat (nat_of_ascii char))%Z)
            (list_ascii_of_string s) 0%Z.

Definition shouldGenerateAnomaly (metric : string) (timestamp : Instant)
  : Ext bool :=
  let seed := charCodeSum metric in
  let random := (inject_Z (seed mod 100) / 100)%Q in
  if Qgtb random 0.2 then ret false
  else
    now <- Date_now ;;
    let hoursAgo := (inject_Z (now - epochMs timestamp) / (1000 * 60 * 60))%Q in
    ret (Qle_bool hoursAgo 12).

Definition applyAnomaly (value : Q) (metric : string) : Ext Q :=
  let seed := charCodeSum metric in
  let anomalyType := (seed mod 3)%Z in
  if (anomalyType =? 0)%Z then
    r <- Math_random ;; ret (value * (0.4 + r * 0.2))%Q
  else if (anomalyType =? 1)%Z then
    r <- Math_random ;; ret (value * (1.5 + r * 0.5))%Q
  else if (anomalyType =? 2)%Z then
    ret (value * 0.95)%Q
  else ret value.

Definition generateExpectedValue (campaign : Campaign) (metric : string)
  : Ext Q :=
  let baseline := BASELINE_VALUES (vertical campaign) (objective campaign) in
  let baseValue := orElse (getProperty baseline metric) 100 in
  r <- Math_random ;;
  let adjustment := (0.9 + r * 0.2)%Q in
  ret (times baseValue adjustment).

Definition generateCurrentMetricValue (campaign : Campaign) (metric : string)
  (expectedValue : Q) : Ext Q :=
  now <- new_Date ;;
  let hour := hours now in
  let dayOfWeek := day now in
  let isB2B :=
    match vertical campaign with B2B | Healthcare => true | _ => false end in
  value <- generateValue expectedValue hour dayOfWeek isB2B 0.15 ;;
  b <- shouldGenerateAnomaly (metric ++ campaign_id campaign) now ;;
  value <- (if b then applyAnomaly value (metric ++ campaign_id campaign)
            else ret value) ;;
  ret (Math_max 0 value).

Definition source : MetricSource :=
  Build_MetricSource generateCurrentMetricValue generateExpectedValue.

End Simulation.

(** ** services/gemini.ts

    The insight text is assembled from templates (or by a remote model); the
    engine stores whatever comes back, so the call is one oracle reading, and
    a rejected call is a [Throw]. *)
Definition generateAlarmInsights (alarm : Alarm) (campaign : Campaign)
  (monitor : Monitor) : Ext AlarmInsights :=
  fun w => (match gemini w (geminiPos w) with
            | Some i => Ok i
            | None => Throw "Error generating insights"
            end,
            {| random := random w; randomPos := randomPos w;
               clock := clock w; clockPos := clockPos w;
               uuids := uuids w; uuidPos := uuidPos w;
               gemini := gemini w; geminiPos := S (geminiPos w) |}).

(** ** services/anomaly.ts *)

Record CompositeResult := {
  breached : bool;
  count : Z
}.

Record EvalResult := {
  er_state : MonitorStateData;
  er_alarm : option Alarm
}.

Record BatchResult := {
  states : list MonitorStateData;
  newAlarms : list Alarm
}.

(** [l.forEach(f)] where [f] updates a local accumulator. *)
Fixpoint forEach {A S} (l : list A) (f : A -> S -> M S) (acc : S) : M S :=
  match l with
  | [] => ret acc
  | x :: t => acc' <- f x acc ;; forEach t f acc'
  end.

(** [o[key] = v] on an object literal. *)
Fixpoint assign (o : Dimensions) (key : string) (v : DimensionResult)
  : Dimensions :=
  match o with
  | [] => [(key, v)]
  | (k, v') :: t => if k =? key then (key, v) :: t else (k, v') :: assign t key v
  end.

Definition set_composite (state : MonitorStateData) (r : CompositeResult)
  : MonitorStateData :=
  {| ms_monitorId := ms_monitorId state;
     ms_state := if breached r then IN_ALARM else OK;
     ms_currentValue := ms_currentValue state;
     ms_expectedValue := ms_expectedValue state;
     anomalyScore := anomalyScore state;
     enteredStateAt := enteredStateAt state;
     dataPointsBreached := Some (count r);
     dimensions := dimensions state;
     updatedAt := updatedAt state |}.

Definition set_dimensions (state : MonitorStateData) (d : Dimensions)
  : MonitorStateData :=
  {| ms_monitorId := ms_monitorId state; ms_state := ms_state state;
     ms_currentValue := ms_currentValue state;
     ms_expectedValue := ms_expectedValue state;
     anomalyScore := anomalyScore state;
     enteredStateAt := enteredStateAt state;
     dataPointsBreached := dataPointsBreached state;
     dimensions := Some d;
     updatedAt := updatedAt state |}.

Definition set_insights (alarm : Alarm) (i : AlarmInsights) : Alarm :=
  {| alarm_id := alarm_id alarm; alarm_monitorId := alarm_monitorId alarm;
     alarm_campaignId := alarm_campaignId alarm;
     alarm_campaignName := alarm_campaignName alarm;
     alarm_metricName := alarm_metricName alarm;
     severity := severity alarm; alarm_state := alarm_state alarm;
     triggeredAt := triggeredAt alarm; resolvedAt := resolvedAt alarm;
     resolutionMethod := resolutionMethod alarm;
     estimatedImpactUSD := estimatedImpactUSD alarm;
     alarm_currentValue := alarm_currentValue alarm;
     alarm_expectedValue := alarm_expectedValue alarm;
     deviationPercent := deviationPercent alarm;
     dimensionalBreakdown := dimensionalBreakdown alarm;
     insights := Some i |}.

(** [alarm.state = st; alarm.resolvedAt = t; alarm.resolutionMethod = meth] *)
Definition set_resolution (alarm : Alarm) (st : AlarmState) (t : string)
  (meth : ResolutionMethod) : Alarm :=
  {| alarm_id := alarm_id alarm; alarm_monitorId := alarm_monitorId alarm;
     alarm_campaignId := alarm_campaignId alarm;
     alarm_campaignName := alarm_campaignName alarm;
     alarm_metricName := alarm_metricName alarm;
     severity := severity alarm; alarm_state := st;
     triggeredAt := triggeredAt alarm; resolvedAt := Some t;
     resolutionMethod := Some meth;
     estimatedImpactUSD := estimatedImpactUSD alarm;
     alarm_currentValue := alarm_currentValue alarm;
     alarm_expectedValue := alarm_expectedValue alarm;
     deviationPercent := deviationPercent alarm;
     dimensionalBreakdown := dimensionalBreakdown alarm;
     insights := insights alarm |}.

Definition calculateEstimatedImpact (campaign : Campaign) (monitor : Monitor)
  (deviationPercent : Q) : Q :=
  let dailyBudget := dailyBudget campaign in
  let metric := metricId monitor in
  if metric =? "cpa" then
    if Qgtb deviationPercent 0 then (dailyBudget * Qabs deviationPercent) / 100
    else 0
  else if (metric =? "ctr") || (metric =? "cvr") then
    if Qltb deviationPercent 0
    then (dailyBudget * Qabs deviationPercent * 0.5) / 100
    else 0
  else if (metric =? "impressions") || (metric =? "clicks") then
    if Qltb deviationPercent 0
    then (dailyBudget * Qabs deviationPercent * 0.3) / 100
    else 0
  else if metric =? "spend" then
    (dailyBudget * Qabs deviationPercent) / 100
  else if metric =? "invalid_traffic" then
    if Qgtb deviationPercent 0 then (dailyBudget * Qabs deviationPercent) / 100
    else 0
  else (dailyBudget * Qabs deviationPercent * 0.2) / 100.

Definition resolveAlarm (alarmId : string) (method : ResolutionMethod)
  : M unit :=
  l <- getAlarms ;;
  match find (fun a => alarm_id a =? alarmId) l with
  | Some alarm =>
      if AlarmState_eqb (alarm_state alarm) ACTIVE then
        now <- lift new_Date ;;
        saveAlarm (set_resolution alarm RESOLVED (iso now) method)
      else ret tt
  | None => ret tt
  end.

Definition dismissAlarm (alarmId : string) : M unit :=
  l <- getAlarms ;;
  match find (fun a => alarm_id a =? alarmId) l with
  | Some alarm =>
      if AlarmState_eqb (alarm_state alarm) ACTIVE then
        now <- lift new_Date ;;
        saveAlarm (set_resolution alarm DISMISSED (iso now) BY_DISMISSAL)
      else ret tt
  | None => ret tt
  end.

Definition autoResolveAlarms (monitor : Monitor) (state : MonitorStateData)
  : M unit :=
  if MonitorState_eqb (ms_state state) OK then
    l <- getAlarms ;;
    let activeAlarms :=
      filter (fun a => (alarm_monitorId a =? monitor_id monitor)
                       && AlarmState_eqb (alarm_state a) ACTIVE) l in
    forEach activeAlarms
      (fun alarm _ => resolveAlarm (alarm_id alarm) AUTO_RESOLVED) tt
  else ret tt.

Definition evaluateCompositeCondition (monitor : Monitor) (campaign : Campaign)
  (currentValue expectedValue : Q) : M CompositeResult :=
  match compositeConfig monitor with
  | None => ret {| breached := false; count := 0 |}
  | Some cfg =>
      let n := cfg_n cfg in
      let m := cfg_m cfg in
      values <- getMetricValuesByCampaignAndMetric
                  (campaign_id campaign) (metricId monitor) ;;
      let historicalValues := slice_from (- m + 1) values in
      let allValues := (map mv_value historicalValues ++ [currentValue])%list in
      let breachCount :=
        fold_left
          (fun breachCount value =>
             if isInAlarm value expectedValue (sensitivity monitor)
             then (breachCount + 1)%Z else breachCount)
          (slice_from (- m) allValues) 0%Z in
      ret {| breached := (breachCount >=? n)%Z; count := breachCount |}
  end.

Section Engine.

Variable src : MetricSource.

Definition evaluateGranularDimensions (monitor : Monitor) (campaign : Campaign)
  : M Dimensions :=
  match granularDimensions monitor with
  | None => ret []
  | Some dims =>
      forEach dims
        (fun dimension dimensionalData =>
           dimensionalData <-
             (if dimension =? "device" then
                forEach (devices (targeting campaign))
                  (fun device dimensionalData =>
                     baseValue <- lift (generateExpectedValue src campaign
                                          (metricId monitor)) ;;
                     r <- lift Math_random ;;
                     let value := (baseValue * (0.8 + r * 0.4))%Q in
                     r' <- lift Math_random ;;
                     ret (assign dimensionalData
                            ("device_" ++ DeviceType_name device)
                            {| dim_value := value;
                               dim_inAlarm := Qgtb r' 0.7 |}))
                  dimensionalData
              else ret dimensionalData) ;;
           if dimension =? "geo" then
             forEach (geos (targeting campaign))
               (fun geo dimensionalData =>
                  baseValue <- lift (generateExpectedValue src campaign
                                       (metricId monitor)) ;;
                  r <- lift Math_random ;;
                  let value := (baseValue * (0.8 + r * 0.4))%Q in
                  r' <- lift Math_random ;;
                  ret (assign dimensionalData ("geo_" ++ geo)
                         {| dim_value := value;
                            dim_inAlarm := Qgtb r' 0.7 |}))
               dimensionalData
           else ret dimensionalData)
        []
  end.

Definition createAlarmFromMonitor (monitor : Monitor) (campaign : Campaign)
  (state : MonitorStateData) : M Alarm :=
  let deviation :=
    calculateDeviation (ms_currentValue state) (ms_expectedValue state) in
  let severity := calculateSeverity deviation in
  id <- lift uuidv4 ;;
  let alarm :=
    {| alarm_id := id;
       alarm_monitorId := monitor_id monitor;
       alarm_campaignId := campaign_id campaign;
       alarm_campaignName := campaign_name campaign;
       alarm_metricName := metricName monitor;
       severity := severity;
       alarm_state := ACTIVE;
       triggeredAt := enteredStateAt state;
       resolvedAt := None;
       resolutionMethod := None;
       estimatedImpactUSD :=
         Some (calculateEstimatedImpact campaign monitor deviation);
       alarm_currentValue := ms_currentValue state;
       alarm_expectedValue := ms_expectedValue state;
       deviationPercent := deviation;
       dimensionalBreakdown := dimensions state;
       insights := None |} in
  alarm <- tryCatch
             (i <- lift (generateAlarmInsights alarm campaign monitor) ;;
              ret (set_insights alarm i))
             (fun _ => ret alarm) ;;
  saveAlarm alarm ;;;
  ret alarm.

Definition evaluateMonitor (monitor : Monitor) (campaign : Campaign)
  : M EvalResult :=
  currentValue <- lift (generateCurrentMetricValue src campaign
                          (metricId monitor) 0) ;;
  expectedValue <- lift (generateExpectedValue src campaign
                           (metricId monitor)) ;;
  let deviation := calculateDeviation currentValue expectedValue in
  let inAlarm := isInAlarm currentValue expectedValue (sensitivity monitor) in
  let score :=
    (Qabs deviation / 100 / getSensitivityThreshold (sensitivity monitor))%Q in
  now <- lift new_Date ;;
  let timestamp := iso now in
  previousState <- getMonitorState (monitor_id monitor) ;;
  let wasInAlarm :=
    match previousState with
    | Some p => MonitorState_eqb (ms_state p) IN_ALARM
    | None => false
    end in
  let newState :=
    {| ms_monitorId := monitor_id monitor;
       ms_state := if inAlarm then IN_ALARM else OK;
       ms_currentValue := currentValue;
       ms_expectedValue := expectedValue;
       anomalyScore := score;
       enteredStateAt :=
         if inAlarm && negb wasInAlarm then timestamp
         else match previousState with
              | Some p => if enteredStateAt p =? "" then timestamp
                          else enteredStateAt p
              | None => timestamp
              end;
       dataPointsBreached := None;
       dimensions := None;
       updatedAt := timestamp |} in
  newState <-
    (match monitorType monitor, compositeConfig monitor with
     | COMPOSITE, Some _ =>
         r <- evaluateCompositeCondition monitor campaign
                currentValue expectedValue ;;
         ret (set_composite newState r)
     | _, _ => ret newState
     end) ;;
  newState <-
    (match monitorType monitor, granularDimensions monitor with
     | GRANULAR, Some _ =>
         dimensionalData <- evaluateGranularDimensions monitor campaign ;;
         ret (set_dimensions newState dimensionalData)
     | _, _ => ret newState
     end) ;;
  newState <- saveMonitorState newState ;;
  alarm <-
    (if MonitorState_eqb (ms_state newState) IN_ALARM && negb wasInAlarm then
       a <- createAlarmFromMonitor monitor campaign newState ;; ret (Some a)
     else ret None) ;;
  ret {| er_state := newState; er_alarm := alarm |}.

(** The [for (const monitor of monitors)] loop with its two result arrays. *)
Fixpoint evaluateAllMonitors_loop (campaign : Campaign) (monitors : list Monitor)
  (states : list MonitorStateData) (newAlarms : list Alarm) : M BatchResult :=
  match monitors with
  | [] => ret {| states := states; newAlarms := newAlarms |}
  | monitor :: rest =>
      if negb (enabled monitor) then
        evaluateAllMonitors_loop campaign rest states newAlarms
      else
        result <- evaluateMonitor monitor campaign ;;
        let states := push states (er_state result) in
        let newAlarms :=
          match er_alarm result with
          | Some a => push newAlarms a
          | None => newAlarms
          end in
        autoResolveAlarms monitor (er_state result) ;;;
        evaluateAllMonitors_loop campaign rest states newAlarms
  end.

Definition evaluateAllMonitors (campaign : Campaign) (monitors : list Monitor)
  : M BatchResult :=
  evaluateAllMonitors_loop campaign monitors [] [].

End Engine.

(** ** Sequences of engine operations *)

(** One call into the engine, with the environment it runs in.  The metric
    history is written by the application, between engine calls. *)
Inductive Operation :=
| OpEvaluateMonitor (monitor : Monitor) (campaign : Campaign) (w : World)
| OpEvaluateAllMonitors (campaign : Campaign) (monitors : list Monitor) (w : World)
| OpResolveAlarm (alarmId : string) (method : ResolutionMethod) (w : World)
| OpDismissAlarm (alarmId : string) (w : World)
| OpSaveMetricValues (values : list MetricValue).

Definition emptyStore : Store :=
  {| monitorStates := []; alarms := []; metricValues := [] |}.

Definition saveMetricValues (values : list MetricValue) (s : Store) : Store :=
  {| monitorStates := monitorStates s; alarms := alarms s;
     metricValues := values |}.

Definition storeAfter {A} (r : Outcome A * World * Store) : Store := snd r.
Definition outcomeOf {A} (r : Outcome A * World * Store) : Outcome A :=
  fst (fst r).
Definition worldAfter {A} (r : Outcome A * World * Store) : World :=
  snd (fst r).

Definition applyOperation (src : MetricSource) (s : Store) (op : Operation)
  : Store :=
  match op with
  | OpEvaluateMonitor monitor campaign w =>
      storeAfter (evaluateMonitor src monitor campaign w s)
  | OpEvaluateAllMonitors campaign monitors w =>
      storeAfter (evaluateAllMonitors src campaign monitors w s)
  | OpResolveAlarm alarmId method w => storeAfter (resolveAlarm alarmId method w s)
  | OpDismissAlarm alarmId w => storeAfter (dismissAlarm alarmId w s)
  | OpSaveMetricValues values => saveMetricValues values s
  end.

Definition run (src : MetricSource) (ops : list Operation) (s : Store) : Store :=
  fold_left (applyOperation src) ops s.

(** Monitors are evaluated through [evaluateAllMonitors] only. *)
Definition viaBatch (op : Operation) : bool :=
  match op with
  | OpEvaluateMonitor _ _ _ => false
  | _ => true
  end.

(** ** Observations on the record store *)

Definition isActiveFor (monitorId : string) (a : Alarm) : bool :=
  (alarm_monitorId a =? monitorId) && AlarmState_eqb (alarm_state a) ACTIVE.

Definition countActive (monitorId : string) (l : list Alarm) : nat :=
  List.length (filter (isActiveFor monitorId) l).

Definition storedState (monitorId : string) (s : Store) : option MonitorState :=
  option_map ms_state
    (find (fun st => ms_monitorId st =? monitorId) (monitorStates s)).

(** The array after [saveAlarm]/[saveMonitorState]: the first record with the
    key is replaced in place, or the record is appended. *)
Fixpoint upsert {A} (key : A -> string) (x : A) (l : list A) : list A :=
  match l with
  | [] => [x]
  | y :: t => if key y =? key x then x :: t else y :: upsert key x t
  end.

(** What [resolveAlarm]/[dismissAlarm] with id [alarmId] do to one record of
    an array whose ids are distinct. *)
Definition settle (alarmId : string) (st : AlarmState) (t : string)
  (meth : ResolutionMethod) (a : Alarm) : Alarm :=
  if (alarm_id a =? alarmId) && AlarmState_eqb (alarm_state a) ACTIVE
  then set_resolution a st t meth else a.

(** The last [k] elements. *)
Definition lastn {A} (k : nat) (l : list A) : list A :=
  skipn (List.length l - k) l.

(** How many of [values] breach against [expected]. *)
Definition breaches (values : list Q) (expected : Q) (s : Sensitivity) : Z :=
  Z.of_nat (List.length (filter (fun v => isInAlarm v expected s) values)).

(** The samples of a metric, oldest first, as the composite rule reads them. *)
Definition history (campaign : Campaign) (monitor : Monitor) (s : Store)
  : list Q :=
  map mv_value
    (sort_by mv_timestamp
       (filter (fun v => (mv_campaignId v =? campaign_id campaign)
                         && (mv_metricId v =? metricId monitor))
               (metricValues s))).

(** Updates of the store and of the clock cursor. *)
Definition withAlarms (s : Store) (l : list Alarm) : Store :=
  {| monitorStates := monitorStates s; alarms := l;
     metricValues := metricValues s |}.

Definition withMonitorStates (s : Store) (l : list MonitorStateData) : Store :=
  {| monitorStates := l; alarms := alarms s; metricValues := metricValues s |}.

Definition tickClock (w : World) : World :=
  {| random := random w; randomPos := randomPos w;
     clock := clock w; clockPos := S (clockPos w);
     uuids := uuids w; uuidPos := uuidPos w;
     gemini := gemini w; geminiPos := geminiPos w |}.

(** What auto-resolution does to one alarm of the array. *)
Definition autoResolved (monitorId : string) (a a' : Alarm) : Prop :=
  (isActiveFor monitorId a = true ->
   exists t, a' = set_resolution a RESOLVED t AUTO_RESOLVED)
  /\ (isActiveFor monitorId a = false -> a' = a).


(** [previousState?.state === 'IN_ALARM'] *)
Definition wasInAlarm (monitorId : string) (s : Store) : bool :=
  match storedState monitorId s with
  | Some IN_ALARM => true
  | _ => false
  end.

(** [previousState?.enteredStateAt || timestamp] *)
Definition previousEnteredOr (monitorId : string) (s : Store)
  (timestamp : string) : string :=
  match find (fun st => ms_monitorId st =? monitorId) (monitorStates s) with
  | Some p => if enteredStateAt p =? "" then timestamp else enteredStateAt p
  | None => timestamp
  end.

(** What a completed [evaluateMonitor] leaves behind: the returned state
    [er_state res], the returned alarm [er_alarm res] and the store [s'],
    for a store [s] before the call. *)
Definition Evaluated (monitor : Monitor) (campaign : Campaign) (s : Store)
  (res : EvalResult) (s' : Store) : Prop :=
  let st := er_state res in
  let current := ms_currentValue st in
  let expected := ms_expectedValue st in
  let was := wasInAlarm (monitor_id monitor) s in
  let s1 := withMonitorStates s (upsert ms_monitorId st (monitorStates s)) in
  ms_monitorId st = monitor_id monitor
  /\ anomalyScore st
     = (Qabs (calculateDeviation current expected) / 100
        / getSensitivityThreshold (sensitivity monitor))%Q
  /\ (exists timestamp,
         enteredStateAt st
         = if isInAlarm current expected (sensitivity monitor) && negb was
           then timestamp
           else previousEnteredOr (monitor_id monitor) s timestamp)
  /\ match monitorType monitor, compositeConfig monitor with
     | COMPOSITE, Some _ =>
         exists r,
           (forall w0, evaluateCompositeCondition monitor campaign
                         current expected w0 s = (Ok r, w0, s))
           /\ dataPointsBreached st = Some (count r)
           /\ ms_state st = (if breached r then IN_ALARM else OK)
     | _, _ =>
         dataPointsBreached st = None
         /\ ms_state st
            = (if isInAlarm current expected (sensitivity monitor)
               then IN_ALARM else OK)
     end
  /\ match er_alarm res with
     | Some a =>
         ms_state st = IN_ALARM /\ was = false
         /\ alarm_state a = ACTIVE
         /\ alarm_monitorId a = monitor_id monitor
         /\ triggeredAt a = enteredStateAt st
         /\ severity a = calculateSeverity (calculateDeviation current expected)
         /\ s' = withAlarms s1 (upsert alarm_id a (alarms s))
     | None =>
         (ms_state st = OK \/ was = true) /\ s' = s1
     end.

(** The alarm array has distinct ids, a monitor whose stored state is not
    IN_ALARM has no Active alarm, and no monitor has two. *)
Definition Consistent (s : Store) : Prop :=
  NoDup (map alarm_id (alarms s))
  /\ forall monitorId,
      (wasInAlarm monitorId s = false
       -> countActive monitorId (alarms s) = 0%nat)
      /\ (countActive monitorId (alarms s) <= 1)%nat.

(** The alarm a call returned, if it returned. *)
Definition er_alarm_of (r : Outcome EvalResult * World * Store) : option Alarm :=
  match outcomeOf r with
  | Ok res => er_alarm res
  | Throw _ => None
  end.

(** ** Environments that give the same readings

    Two worlds whose cursors agree and whose streams agree from the cursors
    on: every call yet to come reads the same value in both. *)
Definition sameReadings (w1 w2 : World) : Prop :=
  randomPos w1 = randomPos w2
  /\ clockPos w1 = clockPos w2
  /\ uuidPos w1 = uuidPos w2
  /\ geminiPos w1 = geminiPos w2
  /\ (forall i, (randomPos w1 <= i)%nat -> random w1 i = random w2 i)
  /\ (forall i, (clockPos w1 <= i)%nat -> clock w1 i = clock w2 i)
  /\ (forall i, (uuidPos w1 <= i)%nat -> uuids w1 i = uuids w2 i)
  /\ (forall i, (geminiPos w1 <= i)%nat -> gemini w1 i = gemini w2 i).

(** A computation whose result and writes depend on the world only through
    the readings still to come. *)
Definition respectsE {A} (c : Ext A) : Prop :=
  forall w1 w2,
    sameReadings w1 w2 ->
    fst (c w1) = fst (c w2) /\ sameReadings (snd (c w1)) (snd (c w2)).

Definition respects {A} (c : M A) : Prop :=
  forall w1 w2 s,
    sameReadings w1 w2 ->
    outcomeOf (c w1 s) = outcomeOf (c w2 s)
    /\ storeAfter (c w1 s) = storeAfter (c w2 s)
    /\ sameReadings (worldAfter (c w1 s)) (worldAfter (c w2 s)).

Definition sourceRespects (src : MetricSource) : Prop :=
  (forall campaign metric expected,
      respectsE (generateCurrentMetricValue src campaign metric expected))
  /\ (forall campaign metric,
         respectsE (generateExpectedValue src campaign metric)).

(** A computation that leaves the store as it found it. *)
Definition readonly {A} (c : M A) : Prop :=
  forall w s, storeAfter (c w s) = s.


(** ** The draws of an evaluation *)

(** A computation that returns, having taken exactly [n] draws from
    [Math.random]. *)
Definition drawsE {A} (n : nat) (c : Ext A) : Prop :=
  forall w, exists a w',
    c w = (Ok a, w') /\ randomPos w' = (randomPos w + n)%nat.

Definition draws {A} (n : nat) (c : M A) : Prop :=
  forall w s, exists a w' s',
    c w s = (Ok a, w', s') /\ randomPos w' = (randomPos w + n)%nat.

(** The dimension values [evaluateGranularDimensions] goes through: the
    targeted devices for each [device] in the monitor's list, the targeted
    countries for each [geo]. *)
Definition granularValues (monitor : Monitor) (campaign : Campaign) : nat :=
  match granularDimensions monitor with
  | None => 0
  | Some dims =>
      list_sum
        (map (fun dimension =>
                Nat.add
                  (if dimension =? "device"
                   then List.length (devices (targeting campaign)) else 0%nat)
                  (if dimension =? "geo"
                   then List.length (geos (targeting campaign)) else 0%nat))
             dims)
  end.

(** The dimension values of one evaluation: [evaluateMonitor] goes through
    them for a granular monitor only. *)
Definition dimensionValues (monitor : Monitor) (campaign : Campaign) : nat :=
  match monitorType monitor with
  | GRANULAR => granularValues monitor campaign
  | _ => 0
  end.

(** ** Sample data *)

Module Sample.

Definition digit (i : nat) : string := String (ascii_of_nat (48 + i)) "".

(** A world whose random source always yields [r]; [tick] and [uid] are the
    positions of the clock and of the id generator. *)
Definition world (r : Q) (tick uid : nat) : World :=
  {| random := fun _ => r; randomPos := 0;
     clock := fun i => {| iso := "2024-03-0" ++ digit i;
                          epochMs := 86400000 * Z.of_nat i;
                          hours := 12; day := Z.of_nat i mod 7 |};
     clockPos := tick;
     uuids := fun i => "alarm-" ++ digit i; uuidPos := uid;
     gemini := fun _ => Some "summary"; geminiPos := 0 |}.

Definition shoes : Campaign :=
  {| campaign_id := "c1"; campaign_name := "Shoes"; vertical := Ecommerce;
     objective := Performance; dailyBudget := 1000;
     targeting := {| geos := ["US"]; devices := [Desktop; Mobile] |};
     campaign_sensitivity := Balanced |}.

Definition cpa : Monitor :=
  {| monitor_id := "m-cpa"; monitor_campaignId := "c1"; metricId := "cpa";
     metricName := "CPA"; monitorType := SIMPLE; enabled := true;
     sensitivity := Balanced; compositeConfig := None;
     granularDimensions := None |}.

(** The composite monitor [createDefaultMonitors] sets up: 2 of 3. *)
Definition ctr : Monitor :=
  {| monitor_id := "m-ctr"; monitor_campaignId := "c1"; metricId := "ctr";
     metricName := "CTR (Composite)"; monitorType := COMPOSITE;
     enabled := true; sensitivity := Strict;
     compositeConfig := Some {| cfg_n := 2; cfg_m := 3 |};
     granularDimensions := None |}.

Definition impressions : Monitor :=
  {| monitor_id := "m-imp"; monitor_campaignId := "c1";
     metricId := "impressions"; metricName := "Impressions by Device";
     monitorType := GRANULAR; enabled := true; sensitivity := Balanced;
     compositeConfig := None; granularDimensions := Some ["device"] |}.

(** One stored click-through sample of 2.7 (the baseline is 2.5). *)
Definition ctrSample : MetricValue :=
  {| mv_campaignId := "c1"; mv_metricId := "ctr"; mv_timestamp := 1000;
     mv_value := 2.7 |}.

(** Three direct evaluations of the composite monitor over the same history:
    the expected value is drawn at 2.25, at 2.7 and at 2.25 again. *)
Definition directEvaluations : list Operation :=
  [ OpSaveMetricValues [ctrSample];
    OpEvaluateMonitor ctr shoes (world 0 0 0);
    OpEvaluateMonitor ctr shoes (world 0.9 3 1);
    OpEvaluateMonitor ctr shoes (world 0 6 1) ].

(** The same three evaluations through [evaluateAllMonitors], then a
    dismissal. *)
Definition batchEvaluations : list Operation :=
  [ OpSaveMetricValues [ctrSample];
    OpEvaluateAllMonitors shoes [ctr; cpa] (world 0 0 0);
    OpEvaluateAllMonitors shoes [ctr; cpa] (world 0.9 3 2);
    OpEvaluateAllMonitors shoes [ctr; cpa] (world 0 6 2);
    OpDismissAlarm "alarm-1" (world 0 9 3) ].


(** Two more samples: 3.5 and then 2.25. *)
Definition ctrHistory : list MetricValue :=
  [ {| mv_campaignId := "c1"; mv_metricId := "ctr"; mv_timestamp := 2000;
       mv_value := 2.25 |};
    {| mv_campaignId := "c1"; mv_metricId := "ctr"; mv_timestamp := 1000;
       mv_value := 3.5 |};
    {| mv_campaignId := "c1"; mv_metricId := "cpa"; mv_timestamp := 1500;
       mv_value := 30 |} ].

(** A metric source that returns the same two readings at every call. *)
Definition fixedSource (current expected : Q) : MetricSource :=
  {| generateCurrentMetricValue := fun _ _ _ => ret current;
     generateExpectedValue := fun _ _ => ret expected |}.


(** A world one draw into its random stream: the draw already consumed is
    [past], the ones to come are all 0.5. *)
Definition replayed (past : Q) : World :=
  {| random := fun i => match i with O => past | S _ => 0.5 end;
     randomPos := 1;
     clock := clock (world 0 0 0); clockPos := 0;
     uuids := uuids (world 0 0 0); uuidPos := 0;
     gemini := gemini (world 0 0 0); geminiPos := 0 |}.

End Sample.
(** ** More of the library and of the store *)

From Stdlib Require Import Sorted Permutation.

Definition AlarmSeverity_eqb (a b : AlarmSeverity) : bool :=
  match a, b with
  | CRITICAL, CRITICAL | HIGH, HIGH | MEDIUM, MEDIUM | LOW, LOW => true
  | _, _ => false
  end.

(** The order of urgency of the four severities. *)
Definition severityRank (sev : AlarmSeverity) : nat :=
  match sev with
  | LOW => 0
  | MEDIUM => 1
  | HIGH => 2
  | CRITICAL => 3
  end.

(** *** services/anomaly.ts: the dashboard summary *)

Record DashboardSummary := {
  critical : Z;
  high : Z;
  medium : Z;
  low : Z;
  healthy : Z
}.

Definition getAlarmSummary (l : list Alarm) : DashboardSummary :=
  let activeAlarms :=
    filter (fun a => AlarmState_eqb (alarm_state a) ACTIVE) l in
  let count sev :=
    Z.of_nat (List.length
                (filter (fun a => AlarmSeverity_eqb (severity a) sev)
                        activeAlarms)) in
  {| critical := count CRITICAL;
     high := count HIGH;
     medium := count MEDIUM;
     low := count LOW;
     healthy := (Z.of_nat (List.length l)
                 - Z.of_nat (List.length activeAlarms))%Z |}.

(** *** utils/storage.ts: reading one alarm *)

Definition getAlarm (id : string) : M (option Alarm) :=
  l <- getAlarms ;;
  ret (find (fun a => alarm_id a =? id) l).

(** *** types/index.ts: the metric catalogue *)

Inductive MetricCategory := Volume | Efficiency | Quality | Financial.

(** [description], [dependsOn] and [formula] are display text. *)
Record MetricDefinition := {
  md_id : string;
  md_name : string;
  md_category : MetricCategory;
  md_unit : string;
  md_isRatio : bool
}.

Definition DEFAULT_METRICS : list MetricDefinition :=
  [ {| md_id := "impressions"; md_name := "Impressions";
       md_category := Volume; md_unit := "#"; md_isRatio := false |};
    {| md_id := "clicks"; md_name := "Clicks";
       md_category := Volume; md_unit := "#"; md_isRatio := false |};
    {| md_id := "conversions"; md_name := "Conversions";
       md_category := Volume; md_unit := "#"; md_isRatio := false |};
    {| md_id := "impression_share"; md_name := "Impression Share";
       md_category := Volume; md_unit := "%"; md_isRatio := true |};
    {| md_id := "ctr"; md_name := "CTR";
       md_category := Efficiency; md_unit := "%"; md_isRatio := true |};
    {| md_id := "cvr"; md_name := "CVR";
       md_category := Efficiency; md_unit := "%"; md_isRatio := true |};
    {| md_id := "cpa"; md_name := "CPA";
       md_category := Efficiency; md_unit := "$"; md_isRatio := true |};
    {| md_id := "cpm"; md_name := "CPM";
       md_category := Efficiency; md_unit := "$"; md_isRatio := true |};
    {| md_id := "cpc"; md_name := "CPC";
       md_category := Efficiency; md_unit := "$"; md_isRatio := true |};
    {| md_id := "roas"; md_name := "ROAS";
       md_category := Efficiency; md_unit := "x"; md_isRatio := true |};
    {| md_id := "viewability"; md_name := "Viewability";
       md_category := Quality; md_unit := "%"; md_isRatio := true |};
    {| md_id := "invalid_traffic"; md_name := "Invalid Traffic";
       md_category := Quality; md_unit := "%"; md_isRatio := true |};
    {| md_id := "ad_load_time"; md_name := "Ad Load Time";
       md_category := Quality; md_unit := "ms"; md_isRatio := false |};
    {| md_id := "spend"; md_name := "Spend";
       md_category := Financial; md_unit := "$"; md_isRatio := false |};
    {| md_id := "budget_utilization"; md_name := "Budget Utilization";
       md_category := Financial; md_unit := "%"; md_isRatio := true |};
    {| md_id := "pacing"; md_name := "Pacing";
       md_category := Financial; md_unit := "status"; md_isRatio := false |} ].

(** *** services/anomaly.ts: the monitors of a campaign *)

(** A monitor as it is created and stored: the fields the engine reads,
    with the category of its metric and its creation time. *)
Record StoredMonitor := {
  sm_monitor : Monitor;
  sm_metricCategory : MetricCategory;
  sm_createdAt : string
}.

(** [l.forEach] with the array it fills, outside the record store. *)
Fixpoint forEachE {A S} (l : list A) (f : A -> S -> Ext S) (acc : S) : Ext S :=
  match l with
  | [] => ret acc
  | x :: t => acc' <- f x acc ;; forEachE t f acc'
  end.

Definition createDefaultMonitors (campaign : Campaign)
  : Ext (list StoredMonitor) :=
  let monitors := [] in
  now <- new_Date ;;
  let timestamp := iso now in
  let keyMetrics :=
    ["impressions"; "clicks"; "conversions"; "ctr"; "cvr"; "cpa"; "spend"] in
  monitors <-
    forEachE keyMetrics
      (fun metricId monitors =>
         match find (fun m => md_id m =? metricId) DEFAULT_METRICS with
         | None => ret monitors
         | Some metricDef =>
             id <- uuidv4 ;;
             ret (push monitors
                    {| sm_monitor :=
                         {| monitor_id := id;
                            monitor_campaignId := campaign_id campaign;
                            metricId := metricId;
                            metricName := md_name metricDef;
                            monitorType := SIMPLE;
                            enabled := true;
                            sensitivity := campaign_sensitivity campaign;
                            compositeConfig := None;
                            granularDimensions := None |};
                       sm_metricCategory := md_category metricDef;
                       sm_createdAt := timestamp |})
         end)
      monitors ;;
  monitors <-
    match find (fun m => md_id m =? "ctr") DEFAULT_METRICS with
    | Some ctrMetric =>
        id <- uuidv4 ;;
        ret (push monitors
               {| sm_monitor :=
                    {| monitor_id := id;
                       monitor_campaignId := campaign_id campaign;
                       metricId := "ctr";
                       metricName := md_name ctrMetric ++ " (Composite)";
                       monitorType := COMPOSITE;
                       enabled := true;
                       sensitivity := campaign_sensitivity campaign;
                       compositeConfig := Some {| cfg_n := 2; cfg_m := 3 |};
                       granularDimensions := None |};
                  sm_metricCategory := md_category ctrMetric;
                  sm_createdAt := timestamp |})
    | None => ret monitors
    end ;;
  monitors <-
    match find (fun m => md_id m =? "impressions") DEFAULT_METRICS with
    | Some impMetric =>
        if (Z.of_nat (List.length (devices (targeting campaign))) >? 1)%Z then
          id <- uuidv4 ;;
          ret (push monitors
                 {| sm_monitor :=
                      {| monitor_id := id;
                         monitor_campaignId := campaign_id campaign;
                         metricId := "impressions";
                         metricName := md_name impMetric ++ " by Device";
                         monitorType := GRANULAR;
                         enabled := true;
                         sensitivity := campaign_sensitivity campaign;
                         compositeConfig := None;
                         granularDimensions := Some ["device"] |};
                    sm_metricCategory := md_category impMetric;
                    sm_createdAt := timestamp |})
        else ret monitors
    | None => ret monitors
    end ;;
  ret monitors.

(** *** utils/storage.ts: the monitors cookie

    The engine's store does not hold the monitors; these functions are
    written over the value of their cookie, passed explicitly. *)

Definition saveMonitor (monitor : StoredMonitor)
  (monitors : list StoredMonitor) : list StoredMonitor :=
  let index :=
    findIndex (fun m => monitor_id (sm_monitor m)
                        =? monitor_id (sm_monitor monitor)) monitors in
  if (index >=? 0)%Z then array_set monitors (Z.to_nat index) monitor
  else push monitors monitor.

Definition getMonitorsByCampaign (campaignId : string)
  (monitors : list StoredMonitor) : list StoredMonitor :=
  filter (fun m => monitor_campaignId (sm_monitor m) =? campaignId) monitors.

Definition getMonitor (id : string) (monitors : list StoredMonitor)
  : option StoredMonitor :=
  find (fun m => monitor_id (sm_monitor m) =? id) monitors.

(** *** utils/helpers.ts: text *)

(** [text.slice(0, end)] with JavaScript's relative end index. *)
Definition slice_to (text : string) (end_ : Z) : string :=
  let len := Z.of_nat (String.length text) in
  let k := if (end_ <? 0)%Z then Z.max (len + end_) 0 else Z.min end_ len in
  substring 0 (Z.to_nat k) text.

(** [length] is a whole number of characters. *)
Definition truncate (text : string) (length : Z) : string :=
  if (Z.of_nat (String.length text) <=? length)%Z then text
  else slice_to text length ++ "...".

(** *** utils/storage.ts: the onboarding state *)

Record OnboardingState := {
  hasSeenWelcome : bool;
  hasCreatedFirstCampaign : bool;
  hasEnabledMonitoring : bool;
  hasViewedFirstAlarm : bool;
  hasAppliedRecommendation : bool;
  completedAt : option string
}.

(** [Partial<OnboardingState>]: [None] for a key the object does not have. *)
Record OnboardingUpdates := {
  upd_hasSeenWelcome : option bool;
  upd_hasCreatedFirstCampaign : option bool;
  upd_hasEnabledMonitoring : option bool;
  upd_hasViewedFirstAlarm : option bool;
  upd_hasAppliedRecommendation : option bool;
  upd_completedAt : option string
}.

(** [x] where the key is present, [d] otherwise, as the spread
    [{ ...current, ...updates }] picks it. *)
Definition spread {A} (d : A) (x : option A) : A :=
  match x with Some v => v | None => d end.

(** The onboarding cookie is passed explicitly: [current] is what
    [getOnboardingState] reads, the result is what [saveOnboardingState]
    writes. *)
Definition updateOnboardingState (updates : OnboardingUpdates)
  (current : OnboardingState) : Ext OnboardingState :=
  let updated :=
    {| hasSeenWelcome :=
         spread (hasSeenWelcome current) (upd_hasSeenWelcome updates);
       hasCreatedFirstCampaign :=
         spread (hasCreatedFirstCampaign current)
                (upd_hasCreatedFirstCampaign updates);
       hasEnabledMonitoring :=
         spread (hasEnabledMonitoring current)
                (upd_hasEnabledMonitoring updates);
       hasViewedFirstAlarm :=
         spread (hasViewedFirstAlarm current)
                (upd_hasViewedFirstAlarm updates);
       hasAppliedRecommendation :=
         spread (hasAppliedRecommendation current)
                (upd_hasAppliedRecommendation updates);
       completedAt :=
         match upd_completedAt updates with
         | Some t => Some t
         | None => completedAt current
         end |} in
  if hasSeenWelcome updated
     && hasCreatedFirstCampaign updated
     && hasEnabledMonitoring updated
     && hasViewedFirstAlarm updated
     && hasAppliedRecommendation updated
     && negb (match completedAt updated with
              | Some t => negb (t =? "")
              | None => false
              end)
  then
    now <- new_Date ;;
    ret {| hasSeenWelcome := hasSeenWelcome updated;
           hasCreatedFirstCampaign := hasCreatedFirstCampaign updated;
           hasEnabledMonitoring := hasEnabledMonitoring updated;
           hasViewedFirstAlarm := hasViewedFirstAlarm updated;
           hasAppliedRecommendation := hasAppliedRecommendation updated;
           completedAt := Some (iso now) |}
  else ret updated.

(** All five onboarding steps are done. *)
Definition allStepsDone (o : OnboardingState) : bool :=
  hasSeenWelcome o && hasCreatedFirstCampaign o && hasEnabledMonitoring o
  && hasViewedFirstAlarm o && hasAppliedRecommendation o.

(** [completedAt] holds a time. *)
Definition isCompleted (o : OnboardingState) : bool :=
  match completedAt o with
  | Some t => negb (t =? "")
  | None => false
  end.

(** An update of one flag, as the application sends them. *)
Definition flagsOnly (u : OnboardingUpdates) : bool :=
  match upd_completedAt u with Some _ => false | None => true end.

(** The state after a sequence of updates, each made at its own time. *)
Definition onboardingAfter (l : list (OnboardingUpdates * World))
  (o : OnboardingState) : OnboardingState :=
  fold_left
    (fun o uw =>
       match updateOnboardingState (fst uw) o (snd uw) with
       | (Ok o', _) => o'
       | (Throw _, _) => o
       end) l o.

(** ** Observations used by the further properties *)

(** Every monitor has one state record at most, and alarm ids are distinct. *)
Definition WellKeyed (s : Store) : Prop :=
  NoDup (map ms_monitorId (monitorStates s))
  /\ NoDup (map alarm_id (alarms s)).

(** A computation that writes the alarm array at most. *)
Definition alarmsOnly {A} (c : M A) : Prop :=
  forall w s,
    monitorStates (storeAfter (c w s)) = monitorStates s
    /\ metricValues (storeAfter (c w s)) = metricValues s.

(** Engine calls, as opposed to writes of the metric history. *)
Definition engineCall (op : Operation) : bool :=
  match op with
  | OpSaveMetricValues _ => false
  | _ => true
  end.

(** A computation that moves the cursor of the random source at most: the
    draws still to come are the same afterwards. *)
Definition keepsDrawsE {A} (c : Ext A) : Prop :=
  forall w, random (snd (c w)) = random w.

Definition keepsDraws {A} (c : M A) : Prop :=
  forall w s, random (worldAfter (c w s)) = random w.

(** Whether [evaluateMonitor] applies the composite rule to a monitor. *)
Definition usesCompositeRule (m : Monitor) : bool :=
  match monitorType m, compositeConfig m with
  | COMPOSITE, Some _ => true
  | _, _ => false
  end.

(** A computation that never throws. *)
Definition succeedsE {A} (c : Ext A) : Prop :=
  forall w, exists a w', c w = (Ok a, w').

Definition succeeds {A} (c : M A) : Prop :=
  forall w s, exists a w' s', c w s = (Ok a, w', s').

(** ** More sample data *)

Module More.

Definition alarm : Alarm :=
  {| alarm_id := "alarm-7"; alarm_monitorId := "m-cpa";
     alarm_campaignId := "c1"; alarm_campaignName := "Shoes";
     alarm_metricName := "CPA"; severity := HIGH; alarm_state := ACTIVE;
     triggeredAt := "2024-03-02"; resolvedAt := None;
     resolutionMethod := None; estimatedImpactUSD := Some 400;
     alarm_currentValue := 42; alarm_expectedValue := 30;
     deviationPercent := 40; dimensionalBreakdown := None;
     insights := None |}.

Definition settled : Alarm :=
  set_resolution
    {| alarm_id := "alarm-8"; alarm_monitorId := "m-ctr";
       alarm_campaignId := "c1"; alarm_campaignName := "Shoes";
       alarm_metricName := "CTR"; severity := MEDIUM; alarm_state := ACTIVE;
       triggeredAt := "2024-03-02"; resolvedAt := None;
       resolutionMethod := None; estimatedImpactUSD := Some 150;
       alarm_currentValue := 1.75; alarm_expectedValue := 2.5;
       deviationPercent := -30; dimensionalBreakdown := None;
       insights := None |}
    RESOLVED "2024-03-03" USER_ACTION.

(** The monitors created for the sample campaign. *)
Definition defaultMonitors : list StoredMonitor :=
  match createDefaultMonitors Sample.shoes (Sample.world 0 0 0) with
  | (Ok l, _) => l
  | (Throw _, _) => []
  end.


(** The cpa monitor of the samples, switched off. *)
Definition pausedCpa : Monitor :=
  {| monitor_id := "m-cpa"; monitor_campaignId := "c1"; metricId := "cpa";
     metricName := "CPA"; monitorType := SIMPLE; enabled := false;
     sensitivity := Balanced; compositeConfig := None;
     granularDimensions := None |}.

End More.

(** * Properties *)

Close Scope Q_scope.

(** ** Comparisons on numbers *)

Lemma Qgtb_true x y : Qgtb x y = true <-> (y < x)%Q.
Proof.
  unfold Qgtb. rewrite negb_true_iff. split.
  - intros H. apply Qnot_le_lt. intros Hle.
    apply Qle_bool_iff in Hle. congruence.
  - intros H. destruct (Qle_bool x y) eqn:E; [|reflexivity].
    apply Qle_bool_iff in E. exfalso. exact (Qlt_not_le _ _ H E).
Qed.

Lemma Qgtb_false x y : Qgtb x y = false <-> (x <= y)%Q.
Proof.
  unfold Qgtb. rewrite negb_false_iff. apply Qle_bool_iff.
Qed.

Lemma Qltb_true x y : Qltb x y = true <-> (x < y)%Q.
Proof. exact (Qgtb_true y x). Qed.

Lemma Qgeb_true x y : Qgeb x y = true <-> (y <= x)%Q.
Proof. apply Qle_bool_iff. Qed.

Lemma Qgeb_false x y : Qgeb x y = false <-> (x < y)%Q.
Proof.
  unfold Qgeb. split.
  - intros H. apply Qnot_le_lt. intros Hle.
    apply Qle_bool_iff in Hle. congruence.
  - intros H. destruct (Qle_bool y x) eqn:E; [|reflexivity].
    apply Qle_bool_iff in E. exfalso. exact (Qlt_not_le _ _ H E).
Qed.

(** ** Threshold and severity library *)

Lemma calculateDeviation_zero current expected :
  (expected == 0)%Q -> calculateDeviation current expected = 0%Q.
Proof.
  intros H. unfold calculateDeviation.
  apply Qeq_bool_iff in H. now rewrite H.
Qed.

Lemma calculateDeviation_nonzero current expected :
  ~ (expected == 0)%Q ->
  calculateDeviation current expected
  = ((current - expected) / expected * 100)%Q.
Proof.
  intros H. unfold calculateDeviation.
  destruct (Qeq_bool expected 0) eqn:E; [|reflexivity].
  apply Qeq_bool_iff in E. contradiction.
Qed.

(** C7: [isInAlarm] is true exactly when [|d|/100] exceeds the tolerance of
    the sensitivity, where [d] is [0] for a zero baseline and the percent
    deviation otherwise; the tolerances are 0.15, 0.25 and 0.40; against a
    baseline of 100 under Balanced, 126 breaches and 124 does not. *)
Theorem isInAlarm_threshold :
  (forall current expected s d,
      ((expected == 0)%Q -> (d == 0)%Q) ->
      (~ (expected == 0)%Q -> (d == (current - expected) / expected * 100)%Q) ->
      (isInAlarm current expected s = true
       <-> (getSensitivityThreshold s < Qabs d / 100)%Q))
  /\ getSensitivityThreshold Strict = 0.15%Q
  /\ getSensitivityThreshold Balanced = 0.25%Q
  /\ getSensitivityThreshold Loose = 0.40%Q
  /\ isInAlarm 126 100 Balanced = true
  /\ isInAlarm 124 100 Balanced = false.
Proof.
  split; [|repeat split; reflexivity].
  intros current expected s d Hz Hnz.
  unfold isInAlarm. cbv zeta. rewrite Qgtb_true.
  assert (Hd : (calculateDeviation current expected == d)%Q).
  { destruct (Qeq_dec expected 0) as [E|E].
    - rewrite (calculateDeviation_zero _ _ E). symmetry. exact (Hz E).
    - rewrite (calculateDeviation_nonzero _ _ E). symmetry. exact (Hnz E). }
  rewrite Hd. reflexivity.
Qed.

Lemma isInAlarm_threshold_witness :
  isInAlarm 126 100 Balanced = true
  <-> (getSensitivityThreshold Balanced < Qabs 26 / 100)%Q.
Proof.
  apply (proj1 isInAlarm_threshold 126 100 Balanced 26)%Q.
  - intros H. vm_compute in H. discriminate.
  - intros _. reflexivity.
Defined.

(** C8: severity bands with inclusive lower bounds: Critical from 60, High
    on [40, 60), Medium on [25, 40), Low below 25. *)
Theorem calculateSeverity_bands :
  (forall d,
      ((60 <= Qabs d)%Q -> calculateSeverity d = CRITICAL)
      /\ ((40 <= Qabs d)%Q -> (Qabs d < 60)%Q -> calculateSeverity d = HIGH)
      /\ ((25 <= Qabs d)%Q -> (Qabs d < 40)%Q -> calculateSeverity d = MEDIUM)
      /\ ((Qabs d < 25)%Q -> calculateSeverity d = LOW))
  /\ calculateSeverity 60 = CRITICAL
  /\ calculateSeverity 59.9 = HIGH
  /\ calculateSeverity 39.9 = MEDIUM
  /\ calculateSeverity 25 = MEDIUM
  /\ calculateSeverity 24.9 = LOW.
Proof.
  split; [|repeat split; reflexivity].
  intros d. unfold calculateSeverity. cbv zeta.
  repeat split.
  - intros H. apply Qgeb_true in H. now rewrite H.
  - intros H1 H2. apply Qgeb_true in H1. apply Qgeb_false in H2.
    now rewrite H2, H1.
  - intros H1 H2. apply Qgeb_true in H1. apply Qgeb_false in H2.
    assert (H3 : Qgeb (Qabs d) 60 = false).
    { apply Qgeb_false. eapply Qlt_trans; [exact (proj1 (Qgeb_false _ _) H2)|].
      reflexivity. }
    now rewrite H3, H2, H1.
  - intros H.
    assert (H1 : Qgeb (Qabs d) 25 = false) by now apply Qgeb_false.
    assert (H2 : Qgeb (Qabs d) 40 = false).
    { apply Qgeb_false. eapply Qlt_trans; [exact H|]. reflexivity. }
    assert (H3 : Qgeb (Qabs d) 60 = false).
    { apply Qgeb_false. eapply Qlt_trans; [exact H|]. reflexivity. }
    now rewrite H3, H2, H1.
Qed.

Lemma calculateSeverity_bands_witness :
  calculateSeverity (-45) = HIGH.
Proof.
  apply (proj1 (proj2 (proj1 calculateSeverity_bands (-45)%Q))).
  - vm_compute. discriminate.
  - reflexivity.
Defined.

(** ** Estimated impact *)

Lemma impact_term_nonneg (B d : Q) :
  (0 <= B)%Q -> (0 <= B * Qabs d / 100)%Q.
Proof.
  intros HB. unfold Qdiv.
  apply Qmult_le_0_compat; [|discriminate].
  apply Qmult_le_0_compat; [exact HB | apply Qabs_nonneg].
Qed.

Lemma impact_scaled_nonneg (B d k : Q) :
  (0 <= B)%Q -> (0 <= k)%Q -> (0 <= B * Qabs d * k / 100)%Q.
Proof.
  intros HB Hk. unfold Qdiv.
  apply Qmult_le_0_compat; [|discriminate].
  apply Qmult_le_0_compat; [|exact Hk].
  apply Qmult_le_0_compat; [exact HB | apply Qabs_nonneg].
Qed.

Lemma calculateEstimatedImpact_nonneg campaign monitor d :
  (0 <= dailyBudget campaign)%Q ->
  (0 <= calculateEstimatedImpact campaign monitor d)%Q.
Proof.
  intros HB. unfold calculateEstimatedImpact. cbv zeta.
  repeat match goal with
         | |- context [if ?b then _ else _] => destruct b
         end;
    first [ apply Qle_refl
          | apply impact_term_nonneg; exact HB
          | apply impact_scaled_nonneg; [exact HB | discriminate] ].
Qed.

(** C9: the impact estimate per metric family, for a daily budget [B] and a
    percent deviation [d]; it is never negative when [B] is not; a budget of
    1000 on cpa with d = +40 gives 400. *)
Theorem calculateEstimatedImpact_rules :
  forall campaign monitor d,
    let B := dailyBudget campaign in
    let metric := metricId monitor in
    let impact := calculateEstimatedImpact campaign monitor d in
    (metric = "cpa" ->
       ((0 < d)%Q -> impact = (B * Qabs d / 100)%Q)
       /\ ((d <= 0)%Q -> impact = 0%Q))
    /\ (metric = "ctr" \/ metric = "cvr" ->
       ((d < 0)%Q -> impact = (B * Qabs d * 0.5 / 100)%Q)
       /\ ((0 <= d)%Q -> impact = 0%Q))
    /\ (metric = "impressions" \/ metric = "clicks" ->
       ((d < 0)%Q -> impact = (B * Qabs d * 0.3 / 100)%Q)
       /\ ((0 <= d)%Q -> impact = 0%Q))
    /\ (metric = "spend" -> impact = (B * Qabs d / 100)%Q)
    /\ (metric = "invalid_traffic" ->
       ((0 < d)%Q -> impact = (B * Qabs d / 100)%Q)
       /\ ((d <= 0)%Q -> impact = 0%Q))
    /\ (metric <> "cpa" -> metric <> "ctr" -> metric <> "cvr" ->
        metric <> "impressions" -> metric <> "clicks" ->
        metric <> "spend" -> metric <> "invalid_traffic" ->
        impact = (B * Qabs d * 0.2 / 100)%Q)
    /\ ((0 <= B)%Q -> (0 <= impact)%Q)
    /\ ((B == 1000)%Q -> metric = "cpa" -> (d == 40)%Q -> (impact == 400)%Q).
Proof.
  intros campaign monitor d B metric impact.
  assert (Hpos : forall x, (0 < x)%Q -> Qgtb x 0 = true)
    by (intros; now apply Qgtb_true).
  assert (Hnpos : forall x, (x <= 0)%Q -> Qgtb x 0 = false)
    by (intros; now apply Qgtb_false).
  assert (Hneg : forall x, (x < 0)%Q -> Qltb x 0 = true)
    by (intros; now apply Qltb_true).
  assert (Hnneg : forall x, (0 <= x)%Q -> Qltb x 0 = false)
    by (intros x Hx; unfold Qltb; apply negb_false_iff; now apply Qle_bool_iff).
  subst impact. unfold calculateEstimatedImpact. fold B. fold metric. cbv zeta.
  repeat apply conj.
  - intros ->. cbn [String.eqb Ascii.eqb Bool.eqb].
    split; intros H; [rewrite (Hpos _ H) | rewrite (Hnpos _ H)]; reflexivity.
  - intros [-> | ->]; cbn [String.eqb Ascii.eqb Bool.eqb orb];
      (split; intros H; [rewrite (Hneg _ H) | rewrite (Hnneg _ H)]; reflexivity).
  - intros [-> | ->]; cbn [String.eqb Ascii.eqb Bool.eqb orb];
      (split; intros H; [rewrite (Hneg _ H) | rewrite (Hnneg _ H)]; reflexivity).
  - intros ->. reflexivity.
  - intros ->. cbn [String.eqb Ascii.eqb Bool.eqb orb].
    split; intros H; [rewrite (Hpos _ H) | rewrite (Hnpos _ H)]; reflexivity.
  - intros H1 H2 H3 H4 H5 H6 H7.
    apply String.eqb_neq in H1, H2, H3, H4, H5, H6, H7.
    now rewrite H1, H2, H3, H4, H5, H6, H7.
  - intros HB. apply calculateEstimatedImpact_nonneg. exact HB.
  - intros HB -> Hd. cbn [String.eqb Ascii.eqb Bool.eqb].
    assert (H : (0 < d)%Q) by (rewrite Hd; reflexivity).
    rewrite (Hpos _ H), HB, Hd. reflexivity.
Qed.

Lemma calculateEstimatedImpact_rules_witness :
  (0 <= calculateEstimatedImpact Sample.shoes Sample.cpa (-40))%Q
  /\ (calculateEstimatedImpact Sample.shoes Sample.cpa 40 == 400)%Q.
Proof.
  pose proof (calculateEstimatedImpact_rules Sample.shoes Sample.cpa (-40)%Q)
    as Hneg.
  pose proof (calculateEstimatedImpact_rules Sample.shoes Sample.cpa 40%Q)
    as Hpos.
  cbv zeta in Hneg, Hpos. split.
  - apply Hneg. discriminate.
  - apply Hpos; reflexivity.
Defined.

(** ** Arrays and the record store *)

Lemma withAlarms_same s : withAlarms s (alarms s) = s.
Proof. now destruct s. Qed.

Lemma findIndex_lower {A} (p : A -> bool) l : (-1 <= findIndex p l)%Z.
Proof.
  induction l as [|x t IH]; simpl; [lia|].
  destruct (p x); [lia|].
  destruct (findIndex p t <? 0)%Z eqn:E; lia.
Qed.

Lemma save_is_upsert {A} (key : A -> string) (x : A) (l : list A) :
  let index := findIndex (fun a => key a =? key x) l in
  (if (index >=? 0)%Z then array_set l (Z.to_nat index) x else push l x)
  = upsert key x l.
Proof.
  cbv zeta. induction l as [|y t IH]; [reflexivity|].
  simpl. destruct (key y =? key x); [reflexivity|].
  pose proof (findIndex_lower (fun a => key a =? key x) t) as Hlow.
  set (i := findIndex (fun a => key a =? key x) t) in *.
  destruct (i <? 0)%Z eqn:E.
  - apply Z.ltb_lt in E.
    replace (i >=? 0)%Z with false in IH
      by (symmetry; rewrite Z.geb_leb; apply Z.leb_gt; lia).
    simpl. unfold push in *. simpl. now rewrite IH.
  - apply Z.ltb_ge in E.
    replace (i >=? 0)%Z with true in IH
      by (symmetry; rewrite Z.geb_leb; apply Z.leb_le; lia).
    replace (i + 1 >=? 0)%Z with true
      by (symmetry; rewrite Z.geb_leb; apply Z.leb_le; lia).
    rewrite Z2Nat.inj_add by lia. rewrite Nat.add_comm. simpl.
    now rewrite IH.
Qed.

Lemma upsert_keys {A} (key : A -> string) x l :
  map key (upsert key x l)
  = if existsb (fun y => key y =? key x) l then map key l
    else (map key l ++ [key x])%list.
Proof.
  induction l as [|y t IH]; [reflexivity|].
  simpl. destruct (key y =? key x) eqn:E.
  - simpl. apply String.eqb_eq in E. now rewrite E.
  - simpl. rewrite IH. now destruct (existsb _ t).
Qed.

Lemma upsert_NoDup {A} (key : A -> string) x l :
  NoDup (map key l) -> NoDup (map key (upsert key x l)).
Proof.
  intros H. rewrite upsert_keys.
  destruct (existsb (fun y => key y =? key x) l) eqn:E; [exact H|].
  apply NoDup_app; [exact H | repeat constructor; intros [] | ].
  intros k Hk [<-|[]].
  apply in_map_iff in Hk. destruct Hk as [y [Hy Hin]].
  assert (Hex : existsb (fun y => key y =? key x) l = true).
  { apply existsb_exists. exists y. split; [exact Hin|].
    now apply String.eqb_eq. }
  congruence.
Qed.

Lemma upsert_In {A} (key : A -> string) x l y :
  In y (upsert key x l) -> y = x \/ In y l.
Proof.
  induction l as [|z t IH]; simpl.
  - intros [H|[]]; auto.
  - destruct (key z =? key x); simpl; intros [H|H]; auto.
    destruct (IH H); auto.
Qed.

Lemma upsert_In_new {A} (key : A -> string) x l : In x (upsert key x l).
Proof.
  induction l as [|z t IH]; simpl; [auto|].
  destruct (key z =? key x); simpl; auto.
Qed.

Lemma upsert_In_other {A} (key : A -> string) x l y :
  In y l -> key y <> key x -> In y (upsert key x l).
Proof.
  induction l as [|z t IH]; simpl; [tauto|].
  intros [->|H] Hne.
  - apply String.eqb_neq in Hne. rewrite Hne. now left.
  - destruct (key z =? key x); simpl; auto.
Qed.

Lemma find_upsert_same {A} (key : A -> string) x l :
  find (fun y => key y =? key x) (upsert key x l) = Some x.
Proof.
  induction l as [|z t IH]; simpl.
  - now rewrite String.eqb_refl.
  - destruct (key z =? key x) eqn:E; simpl.
    + now rewrite String.eqb_refl.
    + now rewrite E.
Qed.

Lemma find_upsert_other {A} (key : A -> string) x l k :
  key x <> k ->
  find (fun y => key y =? k) (upsert key x l) = find (fun y => key y =? k) l.
Proof.
  intros Hne. induction l as [|z t IH]; simpl.
  - apply String.eqb_neq in Hne. now rewrite Hne.
  - destruct (key z =? key x) eqn:E; simpl.
    + apply String.eqb_eq in E.
      assert (Hz : (key z =? k) = false) by (apply String.eqb_neq; congruence).
      apply String.eqb_neq in Hne. now rewrite Hz, Hne.
    + destruct (key z =? k); [reflexivity | exact IH].
Qed.

(** ** What each storage call does *)

Lemma saveAlarm_run a w s :
  saveAlarm a w s = (Ok tt, w, withAlarms s (upsert alarm_id a (alarms s))).
Proof.
  unfold saveAlarm, getAlarms, getCookie, saveAlarms, withAlarms. cbn.
  now rewrite (save_is_upsert alarm_id a (alarms s)).
Qed.

Lemma saveMonitorState_run st w s :
  saveMonitorState st w s
  = (Ok (set_updatedAt st (iso (clock w (clockPos w)))), tickClock w,
     withMonitorStates s
       (upsert ms_monitorId (set_updatedAt st (iso (clock w (clockPos w))))
          (monitorStates s))).
Proof.
  unfold saveMonitorState, getMonitorStates, getCookie, saveMonitorStates,
    withMonitorStates, lift, new_Date. cbn.
  now rewrite <- (save_is_upsert ms_monitorId
                    (set_updatedAt st (iso (clock w (clockPos w))))
                    (monitorStates s)).
Qed.

Lemma resolveAlarm_run alarmId method w s :
  resolveAlarm alarmId method w s
  = match find (fun a => alarm_id a =? alarmId) (alarms s) with
    | Some alarm =>
        if AlarmState_eqb (alarm_state alarm) ACTIVE then
          (Ok tt, tickClock w,
           withAlarms s
             (upsert alarm_id
                (set_resolution alarm RESOLVED (iso (clock w (clockPos w))) method)
                (alarms s)))
        else (Ok tt, w, s)
    | None => (Ok tt, w, s)
    end.
Proof.
  unfold resolveAlarm, getAlarms, getCookie. cbn.
  destruct (find (fun a => alarm_id a =? alarmId) (alarms s)) as [a|];
    [|reflexivity].
  destruct (AlarmState_eqb (alarm_state a) ACTIVE); [|reflexivity].
  unfold lift, new_Date. cbn.
  match goal with
  | |- context [upsert alarm_id ?x _] =>
      now rewrite <- (save_is_upsert alarm_id x (alarms s))
  end.
Qed.

Lemma dismissAlarm_run alarmId w s :
  dismissAlarm alarmId w s
  = match find (fun a => alarm_id a =? alarmId) (alarms s) with
    | Some alarm =>
        if AlarmState_eqb (alarm_state alarm) ACTIVE then
          (Ok tt, tickClock w,
           withAlarms s
             (upsert alarm_id
                (set_resolution alarm DISMISSED (iso (clock w (clockPos w)))
                   BY_DISMISSAL)
                (alarms s)))
        else (Ok tt, w, s)
    | None => (Ok tt, w, s)
    end.
Proof.
  unfold dismissAlarm, getAlarms, getCookie. cbn.
  destruct (find (fun a => alarm_id a =? alarmId) (alarms s)) as [a|];
    [|reflexivity].
  destruct (AlarmState_eqb (alarm_state a) ACTIVE); [|reflexivity].
  unfold lift, new_Date. cbn.
  match goal with
  | |- context [upsert alarm_id ?x _] =>
      now rewrite <- (save_is_upsert alarm_id x (alarms s))
  end.
Qed.

Lemma AlarmState_eqb_eq a b : AlarmState_eqb a b = true <-> a = b.
Proof. destruct a, b; simpl; split; congruence. Qed.

Lemma MonitorState_eqb_eq a b : MonitorState_eqb a b = true <-> a = b.
Proof. destruct a, b; simpl; split; congruence. Qed.

(** ** Resolve and dismiss on a settled alarm *)

(** C10: when the alarm found under the id is not Active, or no alarm has
    the id, [resolveAlarm] and [dismissAlarm] return without writing: the
    store (and the clock) are as before, so a repeated dismiss leaves the
    alarm Dismissed with the [resolvedAt] it had. *)
Theorem settled_alarm_noop :
  forall alarmId method w s,
    (forall a, find (fun a => alarm_id a =? alarmId) (alarms s) = Some a ->
               alarm_state a <> ACTIVE) ->
    resolveAlarm alarmId method w s = (Ok tt, w, s)
    /\ dismissAlarm alarmId w s = (Ok tt, w, s)
    /\ (forall w', storeAfter (dismissAlarm alarmId w'
                                 (storeAfter (dismissAlarm alarmId w s))) = s).
Proof.
  intros alarmId method w s H.
  assert (Hd : forall w0, dismissAlarm alarmId w0 s = (Ok tt, w0, s)).
  { intros w0. rewrite dismissAlarm_run.
    destruct (find (fun a => alarm_id a =? alarmId) (alarms s)) as [a|] eqn:E;
      [|reflexivity].
    destruct (AlarmState_eqb (alarm_state a) ACTIVE) eqn:Ea; [|reflexivity].
    apply AlarmState_eqb_eq in Ea. now destruct (H a eq_refl). }
  repeat split.
  - rewrite resolveAlarm_run.
    destruct (find (fun a => alarm_id a =? alarmId) (alarms s)) as [a|] eqn:E;
      [|reflexivity].
    destruct (AlarmState_eqb (alarm_state a) ACTIVE) eqn:Ea; [|reflexivity].
    apply AlarmState_eqb_eq in Ea. now destruct (H a eq_refl).
  - apply Hd.
  - intros w'. rewrite (Hd w). unfold storeAfter at 2. simpl.
    now rewrite (Hd w').
Qed.

Lemma settled_alarm_noop_witness :
  let s := run Simulation.source Sample.batchEvaluations emptyStore in
  dismissAlarm "alarm-1" (Sample.world 0 10 3) s
  = (Ok tt, Sample.world 0 10 3, s)
  /\ map (fun a => (alarm_id a, alarm_state a, resolvedAt a)) (alarms s)
     = [("alarm-0", RESOLVED, Some "2024-03-06");
        ("alarm-1", DISMISSED, Some "2024-03-09");
        ("alarm-2", ACTIVE, None)].
Proof.
  cbv zeta. split; [|vm_compute; reflexivity].
  apply (settled_alarm_noop "alarm-1" USER_ACTION (Sample.world 0 10 3)
           (run Simulation.source Sample.batchEvaluations emptyStore)).
  intros a Ha. vm_compute in Ha. injection Ha as <-. discriminate.
Defined.

(** ** Alarm arrays with distinct ids *)

Lemma NoDup_key_inj {A} (key : A -> string) l x y :
  NoDup (map key l) -> In x l -> In y l -> key x = key y -> x = y.
Proof.
  induction l as [|z t IH]; simpl; [tauto|].
  intros Hnd Hx Hy Hk. inversion Hnd as [|? ? Hnot Hnd']; subst.
  destruct Hx as [->|Hx], Hy as [->|Hy]; auto.
  - exfalso. apply Hnot. rewrite Hk. now apply in_map.
  - exfalso. apply Hnot. rewrite <- Hk. now apply in_map.
Qed.

Lemma settle_id alarmId st t meth a :
  alarm_id (settle alarmId st t meth a) = alarm_id a.
Proof. unfold settle. now destruct (_ && _). Qed.

Lemma settle_monitorId alarmId st t meth a :
  alarm_monitorId (settle alarmId st t meth a) = alarm_monitorId a.
Proof. unfold settle. now destruct (_ && _). Qed.

Lemma settle_ids alarmId st t meth l :
  map alarm_id (map (settle alarmId st t meth) l) = map alarm_id l.
Proof.
  rewrite map_map. apply map_ext. intros a. apply settle_id.
Qed.

Lemma settle_absent alarmId st t meth l :
  (forall x, In x l -> alarm_id x <> alarmId) ->
  map (settle alarmId st t meth) l = l.
Proof.
  induction l as [|z r IH]; intros H; [reflexivity|].
  simpl. rewrite IH by (intros x Hx; apply H; now right).
  unfold settle.
  assert (Hz : (alarm_id z =? alarmId) = false)
    by (apply String.eqb_neq, H; now left).
  now rewrite Hz.
Qed.

Lemma upsert_settle alarmId st t meth l a :
  NoDup (map alarm_id l) ->
  find (fun x => alarm_id x =? alarmId) l = Some a ->
  alarm_state a = ACTIVE ->
  upsert alarm_id (set_resolution a st t meth) l
  = map (settle alarmId st t meth) l.
Proof.
  induction l as [|z r IH]; simpl; [discriminate|].
  intros Hnd Hfind Hact. inversion Hnd as [|? ? Hnot Hnd']; subst.
  destruct (alarm_id z =? alarmId) eqn:E.
  - injection Hfind as ->. rewrite String.eqb_refl.
    apply String.eqb_eq in E.
    rewrite settle_absent.
    + unfold settle. rewrite E, String.eqb_refl, Hact. reflexivity.
    + intros x Hx Hid. apply Hnot. rewrite E, <- Hid. now apply in_map.
  - pose proof (find_some _ _ Hfind) as [Hin Hid].
    apply String.eqb_eq in Hid.
    assert (Hz : (alarm_id z =? alarm_id a) = false)
      by (rewrite Hid; exact E).
    rewrite Hz. unfold settle at 1. rewrite E. simpl.
    f_equal. now apply IH.
Qed.

Lemma settle_inactive alarmId st t meth l a :
  NoDup (map alarm_id l) ->
  find (fun x => alarm_id x =? alarmId) l = Some a ->
  alarm_state a <> ACTIVE ->
  map (settle alarmId st t meth) l = l.
Proof.
  induction l as [|z r IH]; simpl; [discriminate|].
  intros Hnd Hfind Hact. inversion Hnd as [|? ? Hnot Hnd']; subst.
  destruct (alarm_id z =? alarmId) eqn:E.
  - injection Hfind as ->. apply String.eqb_eq in E.
    rewrite settle_absent.
    + unfold settle.
      destruct (AlarmState_eqb (alarm_state a) ACTIVE) eqn:Ea.
      * apply AlarmState_eqb_eq in Ea. contradiction.
      * now rewrite andb_false_r.
    + intros x Hx Hid. apply Hnot. rewrite E, <- Hid. now apply in_map.
  - unfold settle at 1. rewrite E. simpl. f_equal. now apply IH.
Qed.

(** With distinct ids, [resolveAlarm] and [dismissAlarm] act on each record
    of the array separately. *)
Lemma resolveAlarm_spec alarmId method w s :
  NoDup (map alarm_id (alarms s)) ->
  exists w',
    resolveAlarm alarmId method w s
    = (Ok tt, w',
       withAlarms s
         (map (settle alarmId RESOLVED (iso (clock w (clockPos w))) method)
              (alarms s))).
Proof.
  intros Hnd. rewrite resolveAlarm_run.
  destruct (find (fun a => alarm_id a =? alarmId) (alarms s)) as [a|] eqn:E.
  - destruct (AlarmState_eqb (alarm_state a) ACTIVE) eqn:Ea.
    + apply AlarmState_eqb_eq in Ea. exists (tickClock w).
      now rewrite (upsert_settle alarmId _ _ _ _ a Hnd E Ea).
    + exists w. rewrite (settle_inactive alarmId _ _ _ _ a Hnd E).
      * now rewrite withAlarms_same.
      * intros Hc. apply AlarmState_eqb_eq in Hc. congruence.
  - exists w. rewrite settle_absent.
    + now rewrite withAlarms_same.
    + intros x Hx Hid. apply (find_none _ _ E) in Hx.
      apply String.eqb_neq in Hx. contradiction.
Qed.

Lemma dismissAlarm_spec alarmId w s :
  NoDup (map alarm_id (alarms s)) ->
  exists w',
    dismissAlarm alarmId w s
    = (Ok tt, w',
       withAlarms s
         (map (settle alarmId DISMISSED (iso (clock w (clockPos w))) BY_DISMISSAL)
              (alarms s))).
Proof.
  intros Hnd. rewrite dismissAlarm_run.
  destruct (find (fun a => alarm_id a =? alarmId) (alarms s)) as [a|] eqn:E.
  - destruct (AlarmState_eqb (alarm_state a) ACTIVE) eqn:Ea.
    + apply AlarmState_eqb_eq in Ea. exists (tickClock w).
      now rewrite (upsert_settle alarmId _ _ _ _ a Hnd E Ea).
    + exists w. rewrite (settle_inactive alarmId _ _ _ _ a Hnd E).
      * now rewrite withAlarms_same.
      * intros Hc. apply AlarmState_eqb_eq in Hc. congruence.
  - exists w. rewrite settle_absent.
    + now rewrite withAlarms_same.
    + intros x Hx Hid. apply (find_none _ _ E) in Hx.
      apply String.eqb_neq in Hx. contradiction.
Qed.

(** ** Counting Active alarms *)

Lemma count_map_le {A} (p : A -> bool) (f : A -> A) l :
  (forall a, In a l -> p (f a) = true -> p a = true) ->
  List.length (filter p (map f l)) <= List.length (filter p l).
Proof.
  induction l as [|z r IH]; intros H; [simpl; lia|].
  simpl. assert (IH' := IH (fun a Ha => H a (or_intror Ha))).
  destruct (p (f z)) eqn:E.
  - rewrite (H z (or_introl eq_refl) E). simpl. lia.
  - destruct (p z); simpl; lia.
Qed.

Lemma count_map_eq {A} (p : A -> bool) (f : A -> A) l :
  (forall a, In a l -> p (f a) = p a) ->
  List.length (filter p (map f l)) = List.length (filter p l).
Proof.
  induction l as [|z r IH]; intros H; [reflexivity|].
  simpl. rewrite (H z (or_introl eq_refl)).
  assert (IH' := IH (fun a Ha => H a (or_intror Ha))).
  destruct (p z); simpl; lia.
Qed.

Lemma count_map_zero {A} (p : A -> bool) (f : A -> A) l :
  (forall a, In a l -> p (f a) = false) ->
  List.length (filter p (map f l)) = 0.
Proof.
  induction l as [|z r IH]; intros H; [reflexivity|].
  simpl. rewrite (H z (or_introl eq_refl)).
  apply IH. intros a Ha. apply H. now right.
Qed.

Lemma countActive_upsert monitorId a l :
  countActive monitorId (upsert alarm_id a l)
  <= countActive monitorId l + (if isActiveFor monitorId a then 1 else 0).
Proof.
  unfold countActive. induction l as [|z r IH]; simpl.
  - destruct (isActiveFor monitorId a); simpl; lia.
  - destruct (alarm_id z =? alarm_id a); simpl.
    + destruct (isActiveFor monitorId a), (isActiveFor monitorId z); simpl; lia.
    + destruct (isActiveFor monitorId z); simpl; lia.
Qed.

Lemma settle_not_activating monitorId alarmId st t meth a :
  st <> ACTIVE ->
  isActiveFor monitorId (settle alarmId st t meth a) = true ->
  isActiveFor monitorId a = true.
Proof.
  intros Hst. unfold settle.
  destruct ((alarm_id a =? alarmId) && AlarmState_eqb (alarm_state a) ACTIVE);
    [|auto].
  unfold isActiveFor. simpl. intros H. apply andb_true_iff in H.
  destruct H as [_ H]. apply AlarmState_eqb_eq in H. contradiction.
Qed.

Lemma countActive_settle monitorId alarmId st t meth l :
  st <> ACTIVE ->
  countActive monitorId (map (settle alarmId st t meth) l)
  <= countActive monitorId l.
Proof.
  intros Hst. apply count_map_le. intros a _.
  now apply settle_not_activating.
Qed.

(** ** Running the monad *)

Lemma bind_run {A B} (c : M A) (k : A -> M B) w s :
  bind c k w s
  = match c w s with
    | (Ok a, w', s') => k a w' s'
    | (Throw e, w', s') => (Throw e, w', s')
    end.
Proof. reflexivity. Qed.

Lemma bind_ok {A B} (c : M A) (k : A -> M B) w s a w' s' :
  c w s = (Ok a, w', s') -> bind c k w s = k a w' s'.
Proof. intros H. now rewrite bind_run, H. Qed.

Lemma bind_throw {A B} (c : M A) (k : A -> M B) w s e w' s' :
  c w s = (Throw e, w', s') -> bind c k w s = (Throw e, w', s').
Proof. intros H. now rewrite bind_run, H. Qed.

Lemma lift_run {A} (c : Ext A) w s :
  lift c w s = (fst (c w), snd (c w), s).
Proof. unfold lift. now destruct (c w). Qed.

(** ** Auto-resolution *)

Lemma forEach_resolveAlarm (todo : list Alarm) :
  forall w s,
    NoDup (map alarm_id (alarms s)) ->
    exists w' f,
      forEach todo (fun alarm _ => resolveAlarm (alarm_id alarm) AUTO_RESOLVED)
        tt w s
      = (Ok tt, w', withAlarms s (map f (alarms s)))
      /\ forall a,
          (alarm_state a = ACTIVE -> In (alarm_id a) (map alarm_id todo) ->
           exists t, f a = set_resolution a RESOLVED t AUTO_RESOLVED)
          /\ (~ (alarm_state a = ACTIVE /\ In (alarm_id a) (map alarm_id todo)) ->
              f a = a).
Proof.
  induction todo as [|x rest IH]; intros w s Hnd.
  - exists w, (fun a => a). split.
    + simpl. now rewrite map_id, withAlarms_same.
    + intros a. split; [intros _ []|reflexivity].
  - destruct (resolveAlarm_spec (alarm_id x) AUTO_RESOLVED w s Hnd) as [w1 E1].
    set (g := settle (alarm_id x) RESOLVED (iso (clock w (clockPos w)))
                AUTO_RESOLVED) in *.
    assert (Hnd1 : NoDup (map alarm_id (alarms (withAlarms s (map g (alarms s)))))).
    { simpl. unfold g. now rewrite settle_ids. }
    destruct (IH w1 _ Hnd1) as [w' [f1 [E2 Hf1]]].
    exists w', (fun a => f1 (g a)). split.
    + cbn [forEach]. rewrite (bind_ok _ _ _ _ _ _ _ E1), E2.
      simpl. unfold withAlarms. simpl. now rewrite map_map.
    + intros a. split.
      * intros Hact Hin. simpl in Hin.
        destruct (String.eqb_spec (alarm_id a) (alarm_id x)) as [Heq|Hne].
        -- assert (Hg : g a = set_resolution a RESOLVED
                                (iso (clock w (clockPos w))) AUTO_RESOLVED).
           { unfold g, settle. rewrite Heq, String.eqb_refl, Hact. reflexivity. }
           exists (iso (clock w (clockPos w))). rewrite Hg.
           apply (proj2 (Hf1 _)). simpl. intros [Hc _]. discriminate.
        -- assert (Hg : g a = a).
           { unfold g, settle. apply String.eqb_neq in Hne. now rewrite Hne. }
           rewrite Hg. apply (proj1 (Hf1 a) Hact).
           destruct Hin as [Hin|Hin]; [congruence | exact Hin].
      * intros Hno.
        assert (Hg : g a = a).
        { unfold g, settle.
          destruct (String.eqb_spec (alarm_id a) (alarm_id x)) as [Heq|Hne];
            [|reflexivity].
          destruct (AlarmState_eqb (alarm_state a) ACTIVE) eqn:Ea;
            [|reflexivity].
          apply AlarmState_eqb_eq in Ea. exfalso. apply Hno. split; [exact Ea|].
          simpl. now left. }
        rewrite Hg. apply (proj2 (Hf1 a)).
        intros [Hact Hin]. apply Hno. split; [exact Hact|]. simpl. now right.
Qed.

Lemma isActiveFor_true monitorId a :
  isActiveFor monitorId a = true
  <-> alarm_monitorId a = monitorId /\ alarm_state a = ACTIVE.
Proof.
  unfold isActiveFor. rewrite andb_true_iff, String.eqb_eq, AlarmState_eqb_eq.
  reflexivity.
Qed.

Lemma autoResolveAlarms_OK monitor state w s :
  NoDup (map alarm_id (alarms s)) ->
  ms_state state = OK ->
  exists w' f,
    autoResolveAlarms monitor state w s
    = (Ok tt, w', withAlarms s (map f (alarms s)))
    /\ forall a, In a (alarms s) -> autoResolved (monitor_id monitor) a (f a).
Proof.
  intros Hnd Hok.
  set (todo := filter (fun a => (alarm_monitorId a =? monitor_id monitor)
                                && AlarmState_eqb (alarm_state a) ACTIVE)
                      (alarms s)).
  destruct (forEach_resolveAlarm todo w s Hnd) as [w' [f [E Hf]]].
  exists w', f. split.
  { unfold autoResolveAlarms. rewrite Hok.
    change (MonitorState_eqb OK OK) with true. cbv iota.
    unfold getAlarms, getCookie. rewrite bind_run. exact E. }
  intros a Hin. split.
  - intros Hact. apply (proj1 (Hf a)).
    + now apply isActiveFor_true in Hact.
    + apply in_map. unfold todo. apply filter_In. split; [exact Hin|exact Hact].
  - intros Hina. apply (proj2 (Hf a)). intros [Hact Hid].
    apply in_map_iff in Hid. destruct Hid as [b [Hb Hbin]].
    unfold todo in Hbin. apply filter_In in Hbin. destruct Hbin as [Hbin Hbact].
    assert (b = a) by (eapply NoDup_key_inj; eauto). subst b.
    fold (isActiveFor (monitor_id monitor) a) in Hbact. congruence.
Qed.

Lemma autoResolveAlarms_IN_ALARM monitor state w s :
  ms_state state = IN_ALARM ->
  autoResolveAlarms monitor state w s = (Ok tt, w, s).
Proof. intros H. unfold autoResolveAlarms. now rewrite H. Qed.

Lemma autoResolved_id monitorId a a' :
  autoResolved monitorId a a' -> alarm_id a' = alarm_id a.
Proof.
  intros [H1 H2]. destruct (isActiveFor monitorId a) eqn:E.
  - destruct (H1 eq_refl) as [t ->]. reflexivity.
  - now rewrite (H2 eq_refl).
Qed.

Lemma autoResolved_self monitorId a a' :
  autoResolved monitorId a a' -> isActiveFor monitorId a' = false.
Proof.
  intros [H1 H2]. destruct (isActiveFor monitorId a) eqn:E.
  - destruct (H1 eq_refl) as [t ->]. unfold isActiveFor. simpl.
    apply andb_false_r.
  - now rewrite (H2 eq_refl).
Qed.

Lemma autoResolved_other monitorId other a a' :
  other <> monitorId ->
  autoResolved monitorId a a' -> isActiveFor other a' = isActiveFor other a.
Proof.
  intros Hne [H1 H2]. destruct (isActiveFor monitorId a) eqn:E.
  - destruct (H1 eq_refl) as [t ->]. apply isActiveFor_true in E.
    destruct E as [Em Ea]. unfold isActiveFor. simpl.
    assert (Hm : (alarm_monitorId a =? other) = false)
      by (apply String.eqb_neq; congruence).
    now rewrite Hm.
  - now rewrite (H2 eq_refl).
Qed.

(** ** Computations that leave the store alone *)

Lemma readonly_ret {A} (a : A) : readonly (ret a).
Proof. intros w s. reflexivity. Qed.

Lemma readonly_lift {A} (c : Ext A) : readonly (lift c).
Proof. intros w s. now rewrite lift_run. Qed.

Lemma readonly_bind {A B} (c : M A) (k : A -> M B) :
  readonly c -> (forall a, readonly (k a)) -> readonly (bind c k).
Proof.
  intros Hc Hk w s. rewrite bind_run. specialize (Hc w s).
  destruct (c w s) as [[[a|e] w'] s']; unfold storeAfter in *; simpl in *;
    subst s'; [apply Hk | reflexivity].
Qed.

Lemma readonly_forEach {A S} (l : list A) (f : A -> S -> M S) :
  (forall x acc, readonly (f x acc)) -> forall acc, readonly (forEach l f acc).
Proof.
  intros Hf. induction l as [|x t IH]; intros acc; cbn [forEach].
  - apply readonly_ret.
  - apply readonly_bind; [apply Hf | exact IH].
Qed.

Lemma readonly_if {A} (b : bool) (c1 c2 : M A) :
  readonly c1 -> readonly c2 -> readonly (if b then c1 else c2).
Proof. now destruct b. Qed.

Lemma evaluateGranularDimensions_readonly src monitor campaign :
  readonly (evaluateGranularDimensions src monitor campaign).
Proof.
  unfold evaluateGranularDimensions.
  destruct (granularDimensions monitor) as [dims|]; [|apply readonly_ret].
  apply readonly_forEach. intros dimension acc.
  apply readonly_bind.
  - apply readonly_if; [|apply readonly_ret].
    apply readonly_forEach. intros device acc'.
    repeat (apply readonly_bind; [apply readonly_lift | intros ?]).
    apply readonly_ret.
  - intros acc'. apply readonly_if; [|apply readonly_ret].
    apply readonly_forEach. intros geo acc''.
    repeat (apply readonly_bind; [apply readonly_lift | intros ?]).
    apply readonly_ret.
Qed.

(** ** The composite rule *)

Lemma count_breaches (p : Q -> bool) (l : list Q) (acc : Z) :
  fold_left (fun breachCount value =>
               if p value then (breachCount + 1)%Z else breachCount) l acc
  = (acc + Z.of_nat (List.length (filter p l)))%Z.
Proof.
  revert acc. induction l as [|v t IH]; intros acc; simpl; [lia|].
  rewrite IH. destruct (p v); simpl List.length; lia.
Qed.

Lemma slice_from_all {A} (start : Z) (l : list A) :
  (start < 0)%Z -> (Z.of_nat (List.length l) <= - start)%Z ->
  slice_from start l = l.
Proof.
  intros Hs Hl. unfold slice_from.
  apply Z.ltb_lt in Hs. rewrite Hs.
  replace (Z.max (Z.of_nat (List.length l) + start) 0) with 0%Z by lia.
  reflexivity.
Qed.

Lemma slice_from_lastn {A} (k : Z) (l : list A) :
  (0 < k)%Z -> slice_from (- k) l = lastn (Z.to_nat k) l.
Proof.
  intros Hk. unfold slice_from, lastn.
  assert (H : (- k <? 0)%Z = true) by (apply Z.ltb_lt; lia).
  rewrite H. f_equal. lia.
Qed.

Lemma lastn_length {A} (k : nat) (l : list A) :
  (List.length (lastn k l) <= k)%nat.
Proof. unfold lastn. rewrite length_skipn. lia. Qed.

Lemma lastn_map {A B} (f : A -> B) (k : nat) (l : list A) :
  map f (lastn k l) = lastn k (map f l).
Proof. unfold lastn. now rewrite length_map, skipn_map. Qed.

Lemma lastn_none {A} (l : list A) : lastn 0 l = [].
Proof. unfold lastn. rewrite Nat.sub_0_r. apply skipn_all. Qed.

Lemma lastn_last {A} (l : list A) (x : A) : lastn 1 (l ++ [x]) = [x].
Proof.
  unfold lastn. rewrite length_app. simpl List.length.
  replace (List.length l + 1 - 1)%nat with (List.length l) by lia.
  rewrite skipn_app, skipn_all, Nat.sub_diag. reflexivity.
Qed.

(** For a window of at least one sample, the two slices of
    [evaluateCompositeCondition] select the last [m - 1] stored samples
    followed by the current one. *)
Lemma composite_window (m : Z) (values : list MetricValue) (currentValue : Q) :
  (1 <= m)%Z ->
  slice_from (- m)
    (map mv_value (slice_from (- m + 1) values) ++ [currentValue])
  = (lastn (Z.to_nat (m - 1)) (map mv_value values) ++ [currentValue])%list.
Proof.
  intros Hm. destruct (Z.eq_dec m 1) as [->|Hne].
  - change (- (1) + 1)%Z with 0%Z. change (1 - 1)%Z with 0%Z.
    assert (H0 : slice_from 0 values = values).
    { unfold slice_from. simpl Z.ltb. cbv iota.
      rewrite Z.min_l by lia. reflexivity. }
    rewrite H0, slice_from_lastn by lia.
    change (Z.to_nat 1) with 1%nat. change (Z.to_nat 0) with 0%nat.
    now rewrite lastn_last, lastn_none.
  - replace (- m + 1)%Z with (- (m - 1))%Z by lia.
    rewrite (slice_from_lastn (m - 1) values) by lia.
    rewrite lastn_map. apply slice_from_all; [lia|].
    rewrite length_app. simpl List.length.
    pose proof (lastn_length (Z.to_nat (m - 1)) (map mv_value values)). lia.
Qed.

Lemma evaluateCompositeCondition_run monitor campaign cfg currentValue
  expectedValue w s :
  compositeConfig monitor = Some cfg ->
  (1 <= cfg_m cfg)%Z ->
  let window :=
    (lastn (Z.to_nat (cfg_m cfg - 1)) (history campaign monitor s)
       ++ [currentValue])%list in
  let breachCount := breaches window expectedValue (sensitivity monitor) in
  evaluateCompositeCondition monitor campaign currentValue expectedValue w s
  = (Ok {| breached := (breachCount >=? cfg_n cfg)%Z; count := breachCount |},
     w, s).
Proof.
  intros Hcfg Hm. cbv zeta. unfold evaluateCompositeCondition. rewrite Hcfg.
  unfold getMetricValuesByCampaignAndMetric, getMetricValues, getCookie.
  rewrite !bind_run. cbn [ret M_Monad].
  rewrite composite_window by exact Hm.
  rewrite count_breaches. unfold breaches, history. reflexivity.
Qed.

Lemma evaluateCompositeCondition_readonly monitor campaign currentValue
  expectedValue w s :
  exists r, evaluateCompositeCondition monitor campaign currentValue
              expectedValue w s = (Ok r, w, s).
Proof.
  unfold evaluateCompositeCondition.
  destruct (compositeConfig monitor) as [cfg|]; eexists; reflexivity.
Qed.

(** ** Alarm creation *)

Lemma createAlarmFromMonitor_run monitor campaign state w s :
  exists a w',
    createAlarmFromMonitor monitor campaign state w s
    = (Ok a, w', withAlarms s (upsert alarm_id a (alarms s)))
    /\ alarm_id a = uuids w (uuidPos w)
    /\ alarm_monitorId a = monitor_id monitor
    /\ alarm_state a = ACTIVE
    /\ triggeredAt a = enteredStateAt state
    /\ resolvedAt a = None
    /\ deviationPercent a
       = calculateDeviation (ms_currentValue state) (ms_expectedValue state)
    /\ severity a = calculateSeverity (deviationPercent a)
    /\ estimatedImpactUSD a
       = Some (calculateEstimatedImpact campaign monitor (deviationPercent a)).
Proof.
  destruct (gemini w (geminiPos w)) as [i|] eqn:G;
    eexists _, _;
    (split;
     [ unfold createAlarmFromMonitor, tryCatch, generateAlarmInsights, uuidv4,
         lift;
       cbn [bind ret M_Monad gemini geminiPos]; rewrite G;
       cbn [bind ret M_Monad]; rewrite saveAlarm_run; reflexivity
     | repeat split ]).
Qed.

(** ** One evaluation *)

Lemma evaluateCompositeCondition_pure monitor campaign currentValue
  expectedValue s :
  exists r, forall w,
    evaluateCompositeCondition monitor campaign currentValue expectedValue w s
    = (Ok r, w, s).
Proof.
  unfold evaluateCompositeCondition.
  destruct (compositeConfig monitor) as [cfg|]; eexists; reflexivity.
Qed.

Lemma wasInAlarm_find monitorId s :
  match find (fun st => ms_monitorId st =? monitorId) (monitorStates s) with
  | Some p => MonitorState_eqb (ms_state p) IN_ALARM
  | None => false
  end = wasInAlarm monitorId s.
Proof.
  unfold wasInAlarm, storedState.
  destruct (find _ (monitorStates s)) as [p|]; [|reflexivity].
  simpl. now destruct (ms_state p).
Qed.

Lemma evaluateMonitor_cases src monitor campaign w s :
  match evaluateMonitor src monitor campaign w s with
  | (Ok res, _, s') => Evaluated monitor campaign s res s'
  | (Throw _, _, s') => s' = s
  end.
Proof.
  unfold evaluateMonitor.
  rewrite bind_run, lift_run.
  destruct (generateCurrentMetricValue src campaign (metricId monitor) 0 w)
    as [[current|e] w1]; cbn [fst snd]; [|reflexivity].
  rewrite bind_run, lift_run.
  destruct (generateExpectedValue src campaign (metricId monitor) w1)
    as [[expected|e] w2]; cbn [fst snd]; [|reflexivity].
  rewrite bind_run, lift_run. unfold new_Date. cbn [fst snd].
  unfold getMonitorState, getMonitorStates, getCookie.
  rewrite !bind_run. cbn [ret M_Monad].
  rewrite (wasInAlarm_find (monitor_id monitor) s).
  fold (previousEnteredOr (monitor_id monitor) s (iso (clock w2 (clockPos w2)))).
  set (was := wasInAlarm (monitor_id monitor) s).
  set (timestamp := iso (clock w2 (clockPos w2))).
  set (w3 := Build_World _ _ _ _ _ _ _ _).
  destruct (evaluateCompositeCondition_pure monitor campaign current expected s)
    as [r Hr].
  pose proof (evaluateGranularDimensions_readonly src monitor campaign w3 s)
    as Hg.
  destruct (evaluateGranularDimensions src monitor campaign w3 s)
    as [[[d|e] w4] s4] eqn:Eg; unfold storeAfter in Hg; simpl in Hg; subst s4.
  all: destruct (monitorType monitor) eqn:Ety;
    destruct (compositeConfig monitor) as [cfg|] eqn:Ecfg;
    destruct (granularDimensions monitor) as [dims|] eqn:Edims;
    rewrite ?bind_run, ?Hr, ?Eg; cbn [ret M_Monad];
    rewrite ?bind_run, ?saveMonitorState_run; try reflexivity;
    cbn [ms_state set_updatedAt set_composite set_dimensions];
    match goal with
    | |- context [if ?b then bind _ _ else _] => destruct b eqn:Eb
    end;
    rewrite ?bind_run;
    try match goal with
      | |- context [createAlarmFromMonitor ?m ?c ?st ?w ?s] =>
          destruct (createAlarmFromMonitor_run m c st w s)
            as [a [w' [Ea [_ [Hmon [Hact [Htrig [_ [Hdev [Hsev _]]]]]]]]]];
          rewrite Ea
      end;
    cbn [ret M_Monad];
    unfold Evaluated; cbn [er_state er_alarm];
    rewrite ?Ety, ?Ecfg;
    cbn [ms_monitorId ms_state ms_currentValue ms_expectedValue anomalyScore
           enteredStateAt dataPointsBreached set_updatedAt set_composite
           set_dimensions];
    fold was; apply andb_true_iff in Eb || apply andb_false_iff in Eb.
  all: repeat apply conj; try reflexivity; try (now exists timestamp);
    try (exists r; repeat apply conj; [exact Hr | reflexivity | reflexivity]).
  all: try (apply MonitorState_eqb_eq; tauto).
  all: try (destruct Eb as [_ Eb]; now apply negb_true_iff in Eb).
  all: try exact Hact; try exact Hmon; try exact Htrig.
  all: try (rewrite Hsev, Hdev; reflexivity).
  all: try (destruct Eb as [Eb|Eb];
            [ left; match type of Eb with
                    | MonitorState_eqb ?x IN_ALARM = false =>
                        destruct x eqn:Ex; [reflexivity | discriminate]
                    end
            | right; now apply negb_false_iff in Eb ]).
Qed.

(** ** The shipped metric source *)

Lemma Math_max_zero x : (x == 0)%Q -> (Math_max 0 x == 0)%Q.
Proof.
  intros H. unfold Math_max. destruct (Qle_bool 0 x); [exact H | reflexivity].
Qed.

(** [evaluateMonitor] asks for the current value with an expected value of
    [0], and the generator scales that argument: whatever the clock and the
    draws, the current value it returns is [0].  With a positive baseline a
    simple monitor is therefore always IN_ALARM, and only composite monitors
    change state from one evaluation to the next. *)
Lemma shipped_current_value_is_zero campaign metric w :
  exists v w',
    Simulation.generateCurrentMetricValue campaign metric 0 w = (Ok v, w')
    /\ (v == 0)%Q.
Proof.
  unfold Simulation.generateCurrentMetricValue, Simulation.generateValue,
    Simulation.shouldGenerateAnomaly, Simulation.applyAnomaly, Date_now,
    new_Date, Math_random.
  cbn [bind ret Ext_Monad].
  destruct (Qgtb _ 0.2); cbn [bind ret Ext_Monad].
  - eexists _, _. split; [reflexivity|]. apply Math_max_zero. ring.
  - destruct (Qle_bool _ 12); cbn [bind ret Ext_Monad].
    + destruct (_ =? 0)%Z; cbn [bind ret Ext_Monad];
        [eexists _, _; split; [reflexivity|]; apply Math_max_zero; ring|].
      destruct (_ =? 1)%Z; cbn [bind ret Ext_Monad];
        [eexists _, _; split; [reflexivity|]; apply Math_max_zero; ring|].
      destruct (_ =? 2)%Z; cbn [bind ret Ext_Monad];
        eexists _, _; (split; [reflexivity|]); apply Math_max_zero; ring.
    + eexists _, _. split; [reflexivity|]. apply Math_max_zero. ring.
Qed.

Lemma evaluateMonitor_ok src monitor campaign w s res w' s' :
  evaluateMonitor src monitor campaign w s = (Ok res, w', s') ->
  Evaluated monitor campaign s res s'.
Proof.
  intros H. pose proof (evaluateMonitor_cases src monitor campaign w s) as Hc.
  now rewrite H in Hc.
Qed.

Lemma evaluateMonitor_throw src monitor campaign w s e w' s' :
  evaluateMonitor src monitor campaign w s = (Throw e, w', s') -> s' = s.
Proof.
  intros H. pose proof (evaluateMonitor_cases src monitor campaign w s) as Hc.
  now rewrite H in Hc.
Qed.

(** ** The store invariant *)

Lemma wasInAlarm_upsert_same st s :
  wasInAlarm (ms_monitorId st)
    (withMonitorStates s (upsert ms_monitorId st (monitorStates s)))
  = MonitorState_eqb (ms_state st) IN_ALARM.
Proof.
  unfold wasInAlarm, storedState. simpl.
  rewrite (find_upsert_same ms_monitorId st). simpl. now destruct (ms_state st).
Qed.

Lemma wasInAlarm_upsert_other st s monitorId :
  ms_monitorId st <> monitorId ->
  wasInAlarm monitorId
    (withMonitorStates s (upsert ms_monitorId st (monitorStates s)))
  = wasInAlarm monitorId s.
Proof.
  intros Hne. unfold wasInAlarm, storedState. simpl.
  now rewrite (find_upsert_other ms_monitorId st _ monitorId Hne).
Qed.

Lemma Consistent_empty : Consistent emptyStore.
Proof.
  split; [constructor|]. intros monitorId. split; [reflexivity|].
  unfold countActive. simpl. lia.
Qed.

Lemma Consistent_settle alarmId st t meth s :
  st <> ACTIVE ->
  Consistent s ->
  Consistent (withAlarms s (map (settle alarmId st t meth) (alarms s))).
Proof.
  intros Hst [Hnd Hc]. split.
  - simpl. now rewrite settle_ids.
  - intros monitorId. destruct (Hc monitorId) as [H0 H1].
    pose proof (countActive_settle monitorId alarmId st t meth (alarms s) Hst).
    simpl. split; [|lia].
    intros Hw. change (wasInAlarm monitorId s = false) in Hw.
    specialize (H0 Hw). lia.
Qed.

Lemma Consistent_resolveAlarm alarmId method w s :
  Consistent s -> Consistent (storeAfter (resolveAlarm alarmId method w s)).
Proof.
  intros Hc. destruct (resolveAlarm_spec alarmId method w s (proj1 Hc))
    as [w' ->].
  apply Consistent_settle; [discriminate | exact Hc].
Qed.

Lemma Consistent_dismissAlarm alarmId w s :
  Consistent s -> Consistent (storeAfter (dismissAlarm alarmId w s)).
Proof.
  intros Hc. destruct (dismissAlarm_spec alarmId w s (proj1 Hc)) as [w' ->].
  apply Consistent_settle; [discriminate | exact Hc].
Qed.

Lemma Consistent_saveMetricValues values s :
  Consistent s -> Consistent (saveMetricValues values s).
Proof. intros H. exact H. Qed.

(** One turn of the loop of [evaluateAllMonitors]: the evaluation followed
    by the auto-resolution. *)
Lemma Consistent_turn src monitor campaign w s res w1 s1 :
  Consistent s ->
  evaluateMonitor src monitor campaign w s = (Ok res, w1, s1) ->
  Consistent (storeAfter (autoResolveAlarms monitor (er_state res) w1 s1)).
Proof.
  intros [Hnd Hc] Hev. apply evaluateMonitor_ok in Hev.
  destruct Hev as [Hid [_ [_ [_ Halarm]]]].
  set (st := er_state res) in *.
  set (s0 := withMonitorStates s (upsert ms_monitorId st (monitorStates s)))
    in *.
  assert (Hself : wasInAlarm (monitor_id monitor) s0
                  = MonitorState_eqb (ms_state st) IN_ALARM).
  { rewrite <- Hid. apply wasInAlarm_upsert_same. }
  assert (Hother : forall k, k <> monitor_id monitor ->
                             wasInAlarm k s0 = wasInAlarm k s).
  { intros k Hk. apply wasInAlarm_upsert_other. congruence. }
  destruct (ms_state st) eqn:Est.
  - (* the new state is OK: nothing was created, Active alarms are resolved *)
    destruct (er_alarm res) as [a|]; [destruct Halarm; congruence|].
    destruct Halarm as [_ ->].
    destruct (autoResolveAlarms_OK monitor st w1 s0 Hnd Est)
      as [w2 [f [-> Hf]]].
    unfold storeAfter. cbn [snd]. split.
    + cbn [alarms withAlarms]. rewrite map_map.
      erewrite map_ext_in; [exact Hnd|].
      intros a Ha. cbv beta. eapply autoResolved_id, Hf, Ha.
    + intros k. cbn [alarms withAlarms].
      change (wasInAlarm k (withAlarms s0 (map f (alarms s0))))
        with (wasInAlarm k s0).
      destruct (String.eqb_spec k (monitor_id monitor)) as [->|Hk].
      * assert (H0 : countActive (monitor_id monitor) (map f (alarms s0)) = 0).
        { apply count_map_zero. intros a Ha.
          eapply autoResolved_self, Hf, Ha. }
        rewrite H0. split; [reflexivity | lia].
      * assert (Heq : countActive k (map f (alarms s0))
                      = countActive k (alarms s)).
        { apply (count_map_eq (isActiveFor k) f (alarms s)). intros a Ha.
          eapply autoResolved_other; [exact Hk | apply Hf, Ha]. }
        rewrite Heq, (Hother k Hk). apply Hc.
  - (* the new state is IN_ALARM: no auto-resolution *)
    rewrite (autoResolveAlarms_IN_ALARM monitor st w1 s1 Est).
    unfold storeAfter. cbn [snd].
    destruct (er_alarm res) as [a|].
    + destruct Halarm as [_ [Hwas [Hact [Hmon [_ [_ ->]]]]]].
      split; [apply upsert_NoDup, Hnd|].
      intros k. cbn [alarms withAlarms].
      change (wasInAlarm k (withAlarms s0 (upsert alarm_id a (alarms s))))
        with (wasInAlarm k s0).
      pose proof (countActive_upsert k a (alarms s)) as Hup.
      destruct (Hc k) as [H0 H1].
      destruct (String.eqb_spec k (monitor_id monitor)) as [->|Hk].
      * rewrite Hself. simpl. specialize (H0 Hwas).
        split; [discriminate|].
        destruct (isActiveFor (monitor_id monitor) a); lia.
      * assert (Hna : isActiveFor k a = false).
        { unfold isActiveFor. rewrite Hmon.
          assert (Hm : (monitor_id monitor =? k) = false)
            by (apply String.eqb_neq; congruence).
          now rewrite Hm. }
        rewrite Hna in Hup. rewrite (Hother k Hk).
        split; [intros Hw; specialize (H0 Hw)|]; lia.
    + destruct Halarm as [Hor ->]. split; [exact Hnd|].
      intros k. cbn [alarms withMonitorStates s0].
      destruct (Hc k) as [H0 H1]. split; [|exact H1].
      destruct (String.eqb_spec k (monitor_id monitor)) as [->|Hk].
      * rewrite Hself. simpl. discriminate.
      * rewrite (Hother k Hk). exact H0.
Qed.

Lemma Consistent_loop src campaign monitors :
  forall states newAlarms w s,
    Consistent s ->
    Consistent (storeAfter (evaluateAllMonitors_loop src campaign monitors
                              states newAlarms w s)).
Proof.
  induction monitors as [|monitor rest IH]; intros states newAlarms w s Hc.
  - exact Hc.
  - cbn [evaluateAllMonitors_loop].
    destruct (enabled monitor); cbn [negb]; [|now apply IH].
    rewrite bind_run.
    destruct (evaluateMonitor src monitor campaign w s)
      as [[[res|e] w1] s1] eqn:Ev.
    + pose proof (Consistent_turn src monitor campaign w s res w1 s1 Hc Ev)
        as Hturn.
      rewrite bind_run.
      destruct (autoResolveAlarms monitor (er_state res) w1 s1)
        as [[[[]|e] w2] s2]; unfold storeAfter in Hturn; cbn [snd] in Hturn.
      * now apply IH.
      * exact Hturn.
    + apply evaluateMonitor_throw in Ev. subst s1. exact Hc.
Qed.

Lemma Consistent_run src ops :
  forall s,
    forallb viaBatch ops = true ->
    Consistent s -> Consistent (run src ops s).
Proof.
  induction ops as [|op rest IH]; intros s Hvia Hc; [exact Hc|].
  simpl in Hvia. apply andb_true_iff in Hvia. destruct Hvia as [Hop Hrest].
  unfold run. simpl. apply IH; [exact Hrest|].
  destruct op; simpl; try discriminate.
  - apply Consistent_loop, Hc.
  - apply Consistent_resolveAlarm, Hc.
  - apply Consistent_dismissAlarm, Hc.
  - apply Consistent_saveMetricValues, Hc.
Qed.

(** ** At most one Active alarm per monitor *)

(** C1 (as the code has it): along any sequence of [evaluateAllMonitors],
    [resolveAlarm] and [dismissAlarm] calls from the empty store, no monitor
    has two Active alarms; an evaluation creates an alarm only when the
    stored state of the monitor was not IN_ALARM and the new one is, and in
    such a store the monitor then has no Active alarm. *)
Theorem at_most_one_active_via_batch :
  forall src ops,
    forallb viaBatch ops = true ->
    let s := run src ops emptyStore in
    (forall monitorId, countActive monitorId (alarms s) <= 1)
    /\ (forall monitor campaign w res w' s' a,
           evaluateMonitor src monitor campaign w s = (Ok res, w', s') ->
           er_alarm res = Some a ->
           alarm_state a = ACTIVE
           /\ alarm_monitorId a = monitor_id monitor
           /\ wasInAlarm (monitor_id monitor) s = false
           /\ ms_state (er_state res) = IN_ALARM
           /\ countActive (monitor_id monitor) (alarms s) = 0).
Proof.
  intros src ops Hvia s.
  assert (Hc : Consistent s)
    by (apply Consistent_run; [exact Hvia | apply Consistent_empty]).
  split.
  - intros monitorId. apply Hc.
  - intros monitor campaign w res w' s' a Hev Ha.
    apply evaluateMonitor_ok in Hev. destruct Hev as [_ [_ [_ [_ Halarm]]]].
    rewrite Ha in Halarm.
    destruct Halarm as [Hst [Hwas [Hact [Hmon _]]]].
    repeat split; try assumption.
    now apply Hc.
Qed.

(** C1 fails for direct calls of [evaluateMonitor], which never resolves:
    three evaluations of one composite monitor (IN_ALARM, OK, IN_ALARM) leave
    two Active alarms, the second one created while the first is Active. *)
Lemma two_active_after_direct_evaluations :
  let s2 := run Simulation.source (firstn 3 Sample.directEvaluations) emptyStore in
  let s3 := run Simulation.source Sample.directEvaluations emptyStore in
  countActive "m-ctr" (alarms s2) = 1
  /\ (exists a, er_alarm_of
                  (evaluateMonitor Simulation.source Sample.ctr Sample.shoes
                     (Sample.world 0 6 1) s2) = Some a
                /\ alarm_state a = ACTIVE)
  /\ countActive "m-ctr" (alarms s3) = 2
  /\ ~ (countActive "m-ctr" (alarms s3) <= 1).
Proof.
  cbv zeta. split; [vm_compute; reflexivity|].
  split; [eexists; split; vm_compute; reflexivity|].
  split; [vm_compute; reflexivity|].
  intros H. vm_compute in H. lia.
Qed.

Lemma at_most_one_active_via_batch_witness :
  (countActive "m-ctr"
     (alarms (run Simulation.source Sample.batchEvaluations emptyStore)) <= 1)
  /\ wasInAlarm "m-ctr"
       (run Simulation.source (firstn 3 Sample.batchEvaluations) emptyStore)
     = false.
Proof.
  split.
  - apply (proj1 (at_most_one_active_via_batch Simulation.source
                    Sample.batchEvaluations eq_refl)).
  - refine (proj1 (proj2 (proj2
              (proj2 (at_most_one_active_via_batch Simulation.source
                        (firstn 3 Sample.batchEvaluations) eq_refl)
                 Sample.ctr Sample.shoes (Sample.world 0 6 2) _ _ _ _ _ _)))).
    + vm_compute. reflexivity.
    + reflexivity.
Defined.

(** ** The time a state was entered *)

(** C2 (what the code does on a return to OK): when the stored state of the
    monitor is IN_ALARM and the evaluation yields OK, the new state keeps the
    stored [enteredStateAt]; it is not set to the time of the evaluation. *)
Theorem enteredStateAt_kept_on_return_to_OK :
  forall src monitor campaign w s res w' s' p,
    evaluateMonitor src monitor campaign w s = (Ok res, w', s') ->
    find (fun st => ms_monitorId st =? monitor_id monitor) (monitorStates s)
    = Some p ->
    ms_state p = IN_ALARM ->
    enteredStateAt p <> "" ->
    ms_state (er_state res) = OK ->
    enteredStateAt (er_state res) = enteredStateAt p.
Proof.
  intros src monitor campaign w s res w' s' p Hev Hfind Hp Hne Hok.
  apply evaluateMonitor_ok in Hev.
  destruct Hev as [_ [_ [[timestamp Hentered] _]]].
  assert (Hwas : wasInAlarm (monitor_id monitor) s = true).
  { unfold wasInAlarm, storedState. rewrite Hfind. simpl. now rewrite Hp. }
  rewrite Hwas, andb_false_r in Hentered. rewrite Hentered.
  unfold previousEnteredOr. rewrite Hfind.
  apply String.eqb_neq in Hne. now rewrite Hne.
Qed.

Lemma enteredStateAt_kept_on_return_to_OK_witness :
  let s := run Simulation.source (firstn 2 Sample.directEvaluations) emptyStore in
  let r := evaluateMonitor Simulation.source Sample.ctr Sample.shoes
             (Sample.world 0.9 3 1) s in
  exists res p,
    outcomeOf r = Ok res
    /\ find (fun st => ms_monitorId st =? "m-ctr") (monitorStates s) = Some p
    /\ ms_state p = IN_ALARM
    /\ ms_state (er_state res) = OK
    /\ updatedAt (er_state res) = "2024-03-05"
    /\ enteredStateAt p = "2024-03-01"
    /\ enteredStateAt (er_state res) = enteredStateAt p.
Proof.
  cbv zeta. eexists. eexists.
  split; [vm_compute; reflexivity|].
  split; [vm_compute; reflexivity|].
  split; [reflexivity|]. split; [reflexivity|]. split; [reflexivity|].
  split; [reflexivity|].
  eapply (enteredStateAt_kept_on_return_to_OK Simulation.source Sample.ctr
            Sample.shoes (Sample.world 0.9 3 1)
            (run Simulation.source (firstn 2 Sample.directEvaluations)
               emptyStore)).
  - vm_compute. reflexivity.
  - vm_compute. reflexivity.
  - reflexivity.
  - discriminate.
  - reflexivity.
Defined.

(** The composite rule overrides [state] after [enteredStateAt] was chosen
    by the simple rule: a composite monitor that stays OK while its current
    sample breaches gets a new [enteredStateAt] at every evaluation. *)
Lemma enteredStateAt_reset_while_OK :
  let s1 := run Simulation.source
              [OpEvaluateMonitor Sample.ctr Sample.shoes (Sample.world 0 0 0)]
              emptyStore in
  let s2 := run Simulation.source
              [OpEvaluateMonitor Sample.ctr Sample.shoes (Sample.world 0 3 0)]
              s1 in
  map (fun st => (ms_state st, enteredStateAt st)) (monitorStates s1)
  = [(OK, "2024-03-01")]
  /\ map (fun st => (ms_state st, enteredStateAt st)) (monitorStates s2)
     = [(OK, "2024-03-04")].
Proof. split; vm_compute; reflexivity. Qed.

(** ** Composite monitors *)

Lemma breaches_pattern (values : list Q) expected sens (pattern : list bool) :
  map (fun v => isInAlarm v expected sens) values = pattern ->
  breaches values expected sens
  = Z.of_nat (List.length (filter (fun b => b) pattern)).
Proof.
  intros <-. unfold breaches. f_equal.
  induction values as [|v t IH]; [reflexivity|].
  simpl. destruct (isInAlarm v expected sens); simpl; now rewrite IH.
Qed.

(** C3: for a composite monitor with window [m >= 1] and [n] required
    breaches, the samples counted are the last [m - 1] stored samples of the
    metric followed by the current one, each tested against the current
    expected value under the monitor's sensitivity; the count is stored as
    [dataPointsBreached] and the state is IN_ALARM exactly when the count
    reaches [n].  With m = 3 and n = 2 the pattern (true, false, true) gives
    IN_ALARM with count 2 and (true, false, false) gives OK with count 1. *)
Theorem composite_n_of_m :
  forall src monitor campaign cfg w s res w' s',
    monitorType monitor = COMPOSITE ->
    compositeConfig monitor = Some cfg ->
    (1 <= cfg_m cfg)%Z ->
    evaluateMonitor src monitor campaign w s = (Ok res, w', s') ->
    let st := er_state res in
    let window :=
      (lastn (Z.to_nat (cfg_m cfg - 1)) (history campaign monitor s)
         ++ [ms_currentValue st])%list in
    let breachCount :=
      breaches window (ms_expectedValue st) (sensitivity monitor) in
    let pattern :=
      map (fun v => isInAlarm v (ms_expectedValue st) (sensitivity monitor))
          window in
    dataPointsBreached st = Some breachCount
    /\ (ms_state st = IN_ALARM <-> (cfg_n cfg <= breachCount)%Z)
    /\ (ms_state st = OK <-> (breachCount < cfg_n cfg)%Z)
    /\ (cfg_m cfg = 3%Z -> cfg_n cfg = 2%Z -> pattern = [true; false; true] ->
        ms_state st = IN_ALARM /\ dataPointsBreached st = Some 2%Z)
    /\ (cfg_m cfg = 3%Z -> cfg_n cfg = 2%Z -> pattern = [true; false; false] ->
        ms_state st = OK /\ dataPointsBreached st = Some 1%Z).
Proof.
  intros src monitor campaign cfg w s res w' s' Hty Hcfg Hm Hev.
  apply evaluateMonitor_ok in Hev.
  destruct Hev as [_ [_ [_ [Hrule _]]]].
  rewrite Hty, Hcfg in Hrule. destruct Hrule as [r [Hr [Hcount Hstate]]].
  cbv zeta.
  set (st := er_state res) in *.
  specialize (Hr w).
  pose proof (evaluateCompositeCondition_run monitor campaign cfg
                (ms_currentValue st) (ms_expectedValue st) w s Hcfg Hm) as Hrun.
  cbv zeta in Hrun. rewrite Hrun in Hr.
  injection Hr as <-. cbn [count breached] in *.
  set (breachCount := breaches _ _ _) in *.
  assert (Hin : ms_state st = IN_ALARM <-> (cfg_n cfg <= breachCount)%Z).
  { rewrite Hstate. destruct (breachCount >=? cfg_n cfg)%Z eqn:E.
    - rewrite Z.geb_leb in E. apply Z.leb_le in E. tauto.
    - rewrite Z.geb_leb in E. apply Z.leb_gt in E.
      split; [discriminate | lia]. }
  assert (Hok : ms_state st = OK <-> (breachCount < cfg_n cfg)%Z).
  { rewrite Hstate. destruct (breachCount >=? cfg_n cfg)%Z eqn:E.
    - rewrite Z.geb_leb in E. apply Z.leb_le in E.
      split; [discriminate | lia].
    - rewrite Z.geb_leb in E. apply Z.leb_gt in E. tauto. }
  split; [exact Hcount|]. split; [exact Hin|]. split; [exact Hok|].
  split; intros _ Hn Hpat;
    pose proof (breaches_pattern _ _ _ _ Hpat) as Hb;
    fold breachCount in Hb; cbn in Hb; rewrite Hb in *;
    (split; [|exact Hcount]).
  - apply Hin. lia.
  - apply Hok. lia.
Qed.

Lemma composite_n_of_m_witness :
  let s := saveMetricValues Sample.ctrHistory emptyStore in
  exists res,
    outcomeOf (evaluateMonitor Simulation.source Sample.ctr Sample.shoes
                 (Sample.world 0 0 0) s) = Ok res
    /\ map (fun v => isInAlarm v (ms_expectedValue (er_state res)) Strict)
           (lastn 2 (history Sample.shoes Sample.ctr s)
              ++ [ms_currentValue (er_state res)])%list
       = [true; false; true]
    /\ ms_state (er_state res) = IN_ALARM
    /\ dataPointsBreached (er_state res) = Some 2%Z.
Proof.
  cbv zeta. eexists. split; [vm_compute; reflexivity|].
  split; [vm_compute; reflexivity|].
  refine (proj1 (proj2 (proj2 (proj2
            (composite_n_of_m Simulation.source Sample.ctr Sample.shoes
               {| cfg_n := 2; cfg_m := 3 |} (Sample.world 0 0 0)
               (saveMetricValues Sample.ctrHistory emptyStore)
               _ _ _ eq_refl eq_refl _ _)))) eq_refl eq_refl _).
  - simpl. lia.
  - vm_compute. reflexivity.
  - vm_compute. reflexivity.
Defined.

(** The second pattern of C3, on a source that reads 2.6 against 2.5: the
    stored samples 3.5 and 2.25 and the current one give (true, false,
    false). *)
Example composite_two_of_three_not_reached :
  let s := saveMetricValues Sample.ctrHistory emptyStore in
  exists res,
    outcomeOf (evaluateMonitor (Sample.fixedSource 2.6 2.5) Sample.ctr
                 Sample.shoes (Sample.world 0 0 0) s) = Ok res
    /\ map (fun v => isInAlarm v 2.5 Strict)
           (lastn 2 (history Sample.shoes Sample.ctr s) ++ [2.6%Q])%list
       = [true; false; false]
    /\ ms_state (er_state res) = OK
    /\ dataPointsBreached (er_state res) = Some 1%Z.
Proof.
  cbv zeta. eexists. repeat split; vm_compute; reflexivity.
Qed.

(** ** The loop of [evaluateAllMonitors] *)

Lemma loop_disabled src campaign monitor rest states0 alarms0 w s :
  enabled monitor = false ->
  evaluateAllMonitors_loop src campaign (monitor :: rest) states0 alarms0 w s
  = evaluateAllMonitors_loop src campaign rest states0 alarms0 w s.
Proof. intros H. cbn [evaluateAllMonitors_loop]. now rewrite H. Qed.

Lemma loop_enabled src campaign monitor rest states0 alarms0 w s :
  enabled monitor = true ->
  evaluateAllMonitors_loop src campaign (monitor :: rest) states0 alarms0 w s
  = match evaluateMonitor src monitor campaign w s with
    | (Ok res, w1, s1) =>
        match autoResolveAlarms monitor (er_state res) w1 s1 with
        | (Ok _, w2, s2) =>
            evaluateAllMonitors_loop src campaign rest
              (push states0 (er_state res))
              (match er_alarm res with
               | Some a => push alarms0 a
               | None => alarms0
               end) w2 s2
        | (Throw e, w2, s2) => (Throw e, w2, s2)
        end
    | (Throw e, w1, s1) => (Throw e, w1, s1)
    end.
Proof.
  intros H. cbn [evaluateAllMonitors_loop]. rewrite H. cbn [negb].
  rewrite bind_run.
  destruct (evaluateMonitor src monitor campaign w s) as [[[res|e] w1] s1];
    [|reflexivity].
  now rewrite bind_run.
Qed.

(** One turn of the loop, seen from the alarm array. *)
Lemma turn_spec src monitor campaign w s res w1 s1 :
  NoDup (map alarm_id (alarms s)) ->
  evaluateMonitor src monitor campaign w s = (Ok res, w1, s1) ->
  exists w2 s2,
    autoResolveAlarms monitor (er_state res) w1 s1 = (Ok tt, w2, s2)
    /\ NoDup (map alarm_id (alarms s2))
    /\ ms_monitorId (er_state res) = monitor_id monitor
    /\ (ms_state (er_state res) = OK ->
        exists f,
          alarms s2 = map f (alarms s)
          /\ forall a, In a (alarms s) ->
                       autoResolved (monitor_id monitor) a (f a))
    /\ (forall a,
           In a (alarms s) ->
           isActiveFor (monitor_id monitor) a = false
           \/ ms_state (er_state res) = IN_ALARM ->
           (forall new, er_alarm res = Some new -> alarm_id new <> alarm_id a) ->
           In a (alarms s2))
    /\ (forall a,
           alarm_monitorId a <> monitor_id monitor ->
           In a (alarms s2) -> In a (alarms s)).
Proof.
  intros Hnd Hev. apply evaluateMonitor_ok in Hev.
  destruct Hev as [Hid [_ [_ [_ Halarm]]]].
  set (st := er_state res) in *.
  set (s0 := withMonitorStates s (upsert ms_monitorId st (monitorStates s)))
    in *.
  destruct (ms_state st) eqn:Est.
  - destruct (er_alarm res) as [a|]; [destruct Halarm; congruence|].
    destruct Halarm as [_ ->].
    destruct (autoResolveAlarms_OK monitor st w1 s0 Hnd Est)
      as [w2 [f [E Hf]]].
    exists w2, (withAlarms s0 (map f (alarms s0))).
    split; [exact E|]. cbn [alarms withAlarms withMonitorStates s0].
    split.
    { rewrite map_map. erewrite map_ext_in; [exact Hnd|].
      intros a Ha. cbv beta. eapply autoResolved_id, Hf, Ha. }
    split; [exact Hid|].
    split; [intros _; exists f; split; [reflexivity | exact Hf]|].
    split.
    + intros a Hin [Hina|Hc] _; [|discriminate Hc].
      apply in_map_iff. exists a. split; [|exact Hin].
      exact (proj2 (Hf a Hin) Hina).
    + intros a Hmon Hin. apply in_map_iff in Hin.
      destruct Hin as [b [Hb Hbin]].
      destruct (Hf b Hbin) as [H1 H2].
      destruct (isActiveFor (monitor_id monitor) b) eqn:Eb.
      * destruct (H1 eq_refl) as [t Ht]. apply isActiveFor_true in Eb.
        rewrite Ht in Hb. subst a. simpl in Hmon. tauto.
      * rewrite (H2 eq_refl) in Hb. now subst a.
  - rewrite (autoResolveAlarms_IN_ALARM monitor st w1 s1 Est).
    exists w1, s1. split; [reflexivity|].
    destruct (er_alarm res) as [new|].
    + destruct Halarm as [_ [_ [_ [Hmon [_ [_ ->]]]]]].
      cbn [alarms withAlarms].
      split; [apply upsert_NoDup, Hnd|]. split; [exact Hid|].
      split; [discriminate|]. split.
      * intros a Hin _ Hfresh. apply upsert_In_other; [exact Hin|].
        intros Heq. now apply (Hfresh new eq_refl).
      * intros a Ha Hin. apply upsert_In in Hin.
        destruct Hin as [->|Hin]; tauto.
    + destruct Halarm as [_ ->]. cbn [alarms withMonitorStates s0].
      split; [exact Hnd|]. split; [exact Hid|]. split; [discriminate|].
      split; [intros a Hin _ _; exact Hin | intros a _ Hin; exact Hin].
Qed.

(** The result arrays grow by one state per enabled monitor, in order, and
    nothing is removed from them. *)
Lemma loop_results src campaign monitors :
  forall states0 alarms0 w s result w' s',
    evaluateAllMonitors_loop src campaign monitors states0 alarms0 w s
    = (Ok result, w', s') ->
    exists sts created,
      states result = (states0 ++ sts)%list
      /\ newAlarms result = (alarms0 ++ created)%list
      /\ map ms_monitorId sts = map monitor_id (filter enabled monitors).
Proof.
  induction monitors as [|monitor rest IH];
    intros states0 alarms0 w s result w' s' Hrun.
  - injection Hrun as <- _ _. exists [], []. simpl.
    now rewrite !app_nil_r.
  - destruct (enabled monitor) eqn:Een.
    + rewrite (loop_enabled _ _ _ _ _ _ _ _ Een) in Hrun.
      destruct (evaluateMonitor src monitor campaign w s)
        as [[[res|e] w1] s1] eqn:Ev; [|discriminate].
      pose proof (evaluateMonitor_ok _ _ _ _ _ _ _ _ Ev) as [Hid _].
      destruct (autoResolveAlarms monitor (er_state res) w1 s1)
        as [[[[]|e] w2] s2]; [|discriminate].
      destruct (IH _ _ _ _ _ _ _ Hrun) as [sts [created [Hs [Ha Hids]]]].
      exists (er_state res :: sts).
      exists (match er_alarm res with
              | Some a => a :: created
              | None => created
              end).
      unfold push in *. repeat split.
      * now rewrite Hs, <- app_assoc.
      * rewrite Ha. destruct (er_alarm res); [now rewrite <- app_assoc|].
        reflexivity.
      * simpl. rewrite Een. simpl. now rewrite Hid, Hids.
    + rewrite (loop_disabled _ _ _ _ _ _ _ _ Een) in Hrun.
      destruct (IH _ _ _ _ _ _ _ Hrun) as [sts [created [Hs [Ha Hids]]]].
      exists sts, created. simpl. rewrite Een. auto.
Qed.

(** An alarm created by a turn is among the alarms the batch returns. *)
Lemma loop_newAlarms src campaign rest states0 alarms0 new w s result w' s' :
  evaluateAllMonitors_loop src campaign rest states0 (push alarms0 new) w s
  = (Ok result, w', s') ->
  In new (newAlarms result).
Proof.
  intros Hrun.
  destruct (loop_results _ _ _ _ _ _ _ _ _ _ Hrun) as [_ [created [_ [-> _]]]].
  unfold push. rewrite !in_app_iff. left. right. now left.
Qed.

(** Alarms of a monitor that is not evaluated in the batch are left alone. *)
Lemma loop_frame src campaign monitorId monitors :
  forall states0 alarms0 w s result w' s',
    NoDup (map alarm_id (alarms s)) ->
    evaluateAllMonitors_loop src campaign monitors states0 alarms0 w s
    = (Ok result, w', s') ->
    ~ In monitorId (map monitor_id (filter enabled monitors)) ->
    forall a,
      alarm_monitorId a = monitorId -> In a (alarms s') -> In a (alarms s).
Proof.
  induction monitors as [|monitor rest IH];
    intros states0 alarms0 w s result w' s' Hnd Hrun Hnot a Hmon.
  - injection Hrun as _ _ <-. tauto.
  - destruct (enabled monitor) eqn:Een.
    + rewrite (loop_enabled _ _ _ _ _ _ _ _ Een) in Hrun.
      destruct (evaluateMonitor src monitor campaign w s)
        as [[[res|e] w1] s1] eqn:Ev; [|discriminate Hrun].
      destruct (turn_spec _ _ _ _ _ _ _ _ Hnd Ev)
        as [w2 [s2 [Hauto [Hnd2 [_ [_ [_ Hback]]]]]]].
      rewrite Hauto in Hrun.
      simpl in Hnot. rewrite Een in Hnot. simpl in Hnot.
      assert (Hne : alarm_monitorId a <> monitor_id monitor)
        by (rewrite Hmon; intros Heq; apply Hnot; now left).
      intros Ha. apply (Hback a Hne).
      exact (IH _ _ _ _ _ _ _ Hnd2 Hrun (fun H => Hnot (or_intror H)) a Hmon Ha).
    + rewrite (loop_disabled _ _ _ _ _ _ _ _ Een) in Hrun.
      simpl in Hnot. rewrite Een in Hnot.
      exact (IH _ _ _ _ _ _ _ Hnd Hrun Hnot a Hmon).
Qed.

(** An alarm that is no longer Active stays as it is, unless an alarm
    created by the batch is given its id. *)
Lemma loop_keeps_settled src campaign monitors :
  forall states0 alarms0 w s result w' s' b,
    NoDup (map alarm_id (alarms s)) ->
    evaluateAllMonitors_loop src campaign monitors states0 alarms0 w s
    = (Ok result, w', s') ->
    In b (alarms s) ->
    alarm_state b <> ACTIVE ->
    (forall new, In new (newAlarms result) -> alarm_id new <> alarm_id b) ->
    In b (alarms s').
Proof.
  induction monitors as [|monitor rest IH];
    intros states0 alarms0 w s result w' s' b Hnd Hrun Hb Hst Hfresh.
  - injection Hrun as _ _ <-. exact Hb.
  - destruct (enabled monitor) eqn:Een.
    + rewrite (loop_enabled _ _ _ _ _ _ _ _ Een) in Hrun.
      destruct (evaluateMonitor src monitor campaign w s)
        as [[[res|e] w1] s1] eqn:Ev; [|discriminate Hrun].
      destruct (turn_spec _ _ _ _ _ _ _ _ Hnd Ev)
        as [w2 [s2 [Hauto [Hnd2 [_ [_ [Hkeep _]]]]]]].
      rewrite Hauto in Hrun.
      apply (IH _ _ _ _ _ _ _ b Hnd2 Hrun); [|exact Hst|exact Hfresh].
      apply Hkeep; [exact Hb| |].
      * left. unfold isActiveFor.
        destruct (AlarmState_eqb (alarm_state b) ACTIVE) eqn:E;
          [apply AlarmState_eqb_eq in E; contradiction|].
        apply andb_false_r.
      * intros new Hnew. apply Hfresh. rewrite Hnew in Hrun.
        exact (loop_newAlarms _ _ _ _ _ _ _ _ _ _ _ Hrun).
    + rewrite (loop_disabled _ _ _ _ _ _ _ _ Een) in Hrun.
      exact (IH _ _ _ _ _ _ _ b Hnd Hrun Hb Hst Hfresh).
Qed.

(** An alarm that is Active for a monitor when the batch starts is resolved
    by the first turn that finds the monitor OK. *)
Lemma loop_resolves src campaign monitorId monitors :
  forall states0 alarms0 w s result w' s' sts st a,
    NoDup (map alarm_id (alarms s)) ->
    evaluateAllMonitors_loop src campaign monitors states0 alarms0 w s
    = (Ok result, w', s') ->
    states result = (states0 ++ sts)%list ->
    In st sts -> ms_monitorId st = monitorId -> ms_state st = OK ->
    In a (alarms s) -> isActiveFor monitorId a = true ->
    (forall new, In new (newAlarms result) -> alarm_id new <> alarm_id a) ->
    exists t, In (set_resolution a RESOLVED t AUTO_RESOLVED) (alarms s').
Proof.
  induction monitors as [|monitor rest IH];
    intros states0 alarms0 w s result w' s' sts st a Hnd Hrun Hsts Hst
      Hid Hok Ha Hact Hfresh.
  - injection Hrun as <- _ _. simpl in Hsts.
    rewrite <- (app_nil_r states0) in Hsts at 1.
    apply app_inv_head in Hsts. subst sts. destruct Hst.
  - destruct (enabled monitor) eqn:Een.
    + rewrite (loop_enabled _ _ _ _ _ _ _ _ Een) in Hrun.
      destruct (evaluateMonitor src monitor campaign w s)
        as [[[res|e] w1] s1] eqn:Ev; [|discriminate Hrun].
      destruct (turn_spec _ _ _ _ _ _ _ _ Hnd Ev)
        as [w2 [s2 [Hauto [Hnd2 [Hmid [Hself [Hkeep _]]]]]]].
      rewrite Hauto in Hrun.
      destruct (loop_results _ _ _ _ _ _ _ _ _ _ Hrun)
        as [sts' [created [Hs' [Hcreated Hids]]]].
      unfold push in Hs'. rewrite <- app_assoc in Hs'. rewrite Hs' in Hsts.
      apply app_inv_head in Hsts. subst sts. simpl in Hst.
      assert (Hincl : forall new, er_alarm res = Some new ->
                                  In new (newAlarms result)).
      { intros new Hnew. rewrite Hnew in Hrun.
        exact (loop_newAlarms _ _ _ _ _ _ _ _ _ _ _ Hrun). }
      destruct (String.eqb_spec (monitor_id monitor) monitorId) as [Heq|Hne].
      * destruct (ms_state (er_state res)) eqn:Eres.
        -- (* this turn finds the monitor OK and resolves the alarm *)
           destruct (Hself eq_refl) as [f [Hf Hres]].
           rewrite <- Heq in Hact.
           destruct (proj1 (Hres a Ha) Hact) as [t Ht].
           exists t.
           apply (loop_keeps_settled _ _ _ _ _ _ _ _ _ _ _ Hnd2 Hrun).
           ++ rewrite Hf, <- Ht. now apply in_map.
           ++ simpl. discriminate.
           ++ simpl. exact Hfresh.
        -- (* the monitor is IN_ALARM at this turn: a later turn finds it OK *)
           destruct Hst as [<-|Hst]; [congruence|].
           apply (IH _ _ _ _ _ _ _ sts' st a Hnd2 Hrun
                    ltac:(unfold push; now rewrite <- app_assoc)
                    Hst Hid Hok); [|exact Hact|exact Hfresh].
           apply Hkeep; [exact Ha | now right |].
           intros new Hnew. apply Hfresh, Hincl, Hnew.
      * (* this turn is about another monitor *)
        destruct Hst as [<-|Hst]; [congruence|].
        apply (IH _ _ _ _ _ _ _ sts' st a Hnd2 Hrun
                 ltac:(unfold push; now rewrite <- app_assoc)
                 Hst Hid Hok); [|exact Hact|exact Hfresh].
        apply Hkeep; [exact Ha| |].
        -- left. apply isActiveFor_true in Hact. destruct Hact as [Hm _].
           unfold isActiveFor.
           assert (Hx : (alarm_monitorId a =? monitor_id monitor) = false)
             by (apply String.eqb_neq; congruence).
           now rewrite Hx.
        -- intros new Hnew. apply Hfresh, Hincl, Hnew.
    + rewrite (loop_disabled _ _ _ _ _ _ _ _ Een) in Hrun.
      exact (IH _ _ _ _ _ _ _ sts st a Hnd Hrun Hsts Hst Hid Hok Ha Hact
               Hfresh).
Qed.

(** After the last turn of a monitor, if that turn found it OK, none of its
    alarms is Active. *)
Lemma loop_none_active src campaign monitorId monitors :
  forall states0 alarms0 w s result w' s' before st after,
    NoDup (map alarm_id (alarms s)) ->
    evaluateAllMonitors_loop src campaign monitors states0 alarms0 w s
    = (Ok result, w', s') ->
    states result = (states0 ++ before ++ st :: after)%list ->
    ms_monitorId st = monitorId -> ms_state st = OK ->
    (forall x, In x after -> ms_monitorId x <> monitorId) ->
    forall a', In a' (alarms s') -> isActiveFor monitorId a' = false.
Proof.
  induction monitors as [|monitor rest IH];
    intros states0 alarms0 w s result w' s' before st after Hnd Hrun Hsts
      Hid Hok Hlast.
  - injection Hrun as <- _ _. simpl in Hsts.
    rewrite <- (app_nil_r states0) in Hsts at 1.
    apply app_inv_head in Hsts. now destruct before.
  - destruct (enabled monitor) eqn:Een.
    + rewrite (loop_enabled _ _ _ _ _ _ _ _ Een) in Hrun.
      destruct (evaluateMonitor src monitor campaign w s)
        as [[[res|e] w1] s1] eqn:Ev; [|discriminate Hrun].
      destruct (turn_spec _ _ _ _ _ _ _ _ Hnd Ev)
        as [w2 [s2 [Hauto [Hnd2 [Hmid [Hself _]]]]]].
      rewrite Hauto in Hrun.
      destruct (loop_results _ _ _ _ _ _ _ _ _ _ Hrun)
        as [sts' [created [Hs' [_ Hids]]]].
      unfold push in Hs'. rewrite <- app_assoc in Hs'. rewrite Hs' in Hsts.
      apply app_inv_head in Hsts.
      destruct before as [|x before'].
      * (* this is the last turn of the monitor *)
        simpl in Hsts. injection Hsts as Hst Hafter. subst st sts'.
        destruct (Hself Hok) as [f [Hf Hres]].
        assert (Hnot : ~ In monitorId (map monitor_id (filter enabled rest))).
        { rewrite <- Hids. intros Hin. apply in_map_iff in Hin.
          destruct Hin as [x [Hx Hxin]]. exact (Hlast x Hxin Hx). }
        intros a' Ha'.
        destruct (String.eqb_spec (alarm_monitorId a') monitorId) as [Heq|Hne].
        -- pose proof (loop_frame _ _ _ _ _ _ _ _ _ _ _ Hnd2 Hrun Hnot a' Heq Ha')
             as Hin2.
           rewrite Hf in Hin2. apply in_map_iff in Hin2.
           destruct Hin2 as [b [<- Hb]].
           rewrite <- Hid, Hmid. eapply autoResolved_self, Hres, Hb.
        -- unfold isActiveFor. apply String.eqb_neq in Hne. now rewrite Hne.
      * (* the monitor has a later turn *)
        simpl in Hsts. injection Hsts as _ Hsts'.
        apply (IH _ _ _ _ _ _ _ before' st after Hnd2 Hrun); try assumption.
        rewrite Hs', Hsts'. unfold push. now rewrite <- app_assoc.
    + rewrite (loop_disabled _ _ _ _ _ _ _ _ Een) in Hrun.
      exact (IH _ _ _ _ _ _ _ before st after Hnd Hrun Hsts Hid Hok Hlast).
Qed.

(** ** Auto-resolution is complete *)

(** C4: take a batch on a store with distinct alarm ids, and a monitor whose
    last state in the batch is OK.  Every alarm of that monitor that was
    Active in the store is, once the batch is done, Resolved with
    [resolutionMethod] AutoResolved and a [resolvedAt] (its other fields
    unchanged), provided no alarm created by the batch took its id; and no
    alarm of that monitor is Active in the store. *)
Theorem auto_resolve_complete :
  forall src campaign monitors w s result w' s' before st after,
    NoDup (map alarm_id (alarms s)) ->
    evaluateAllMonitors src campaign monitors w s = (Ok result, w', s') ->
    states result = (before ++ st :: after)%list ->
    (forall x, In x after -> ms_monitorId x <> ms_monitorId st) ->
    ms_state st = OK ->
    (forall a,
        In a (alarms s) ->
        alarm_monitorId a = ms_monitorId st -> alarm_state a = ACTIVE ->
        (forall new, In new (newAlarms result) -> alarm_id new <> alarm_id a) ->
        exists a' t,
          In a' (alarms s')
          /\ a' = set_resolution a RESOLVED t AUTO_RESOLVED
          /\ alarm_id a' = alarm_id a
          /\ alarm_state a' = RESOLVED
          /\ resolutionMethod a' = Some AUTO_RESOLVED
          /\ resolvedAt a' = Some t)
    /\ countActive (ms_monitorId st) (alarms s') = 0.
Proof.
  intros src campaign monitors w s result w' s' before st after Hnd Hrun
    Hsts Hlast Hok.
  unfold evaluateAllMonitors in Hrun. split.
  - intros a Ha Hmon Hact Hfresh.
    destruct (loop_resolves src campaign (ms_monitorId st) monitors
                [] [] w s result w' s' (states result) st a Hnd Hrun eq_refl)
      as [t Ht]; try assumption; try reflexivity.
    + rewrite Hsts. apply in_elt.
    + apply isActiveFor_true. now split.
    + exists (set_resolution a RESOLVED t AUTO_RESOLVED), t.
      repeat split. exact Ht.
  - unfold countActive. rewrite <- (map_id (alarms s')).
    apply count_map_zero.
    exact (loop_none_active src campaign (ms_monitorId st) monitors
             [] [] w s result w' s' before st after Hnd Hrun Hsts eq_refl
             Hok Hlast).
Qed.

Lemma auto_resolve_complete_witness :
  let s := run Simulation.source (firstn 2 Sample.batchEvaluations) emptyStore in
  let s' := run Simulation.source (firstn 3 Sample.batchEvaluations) emptyStore in
  map (fun a => (alarm_id a, alarm_monitorId a, alarm_state a)) (alarms s)
  = [("alarm-0", "m-ctr", ACTIVE); ("alarm-1", "m-cpa", ACTIVE)]
  /\ countActive "m-ctr" (alarms s') = 0
  /\ exists a' t,
      In a' (alarms s')
      /\ alarm_id a' = "alarm-0"
      /\ alarm_state a' = RESOLVED
      /\ resolutionMethod a' = Some AUTO_RESOLVED
      /\ resolvedAt a' = Some t.
Proof.
  cbv zeta. split; [vm_compute; reflexivity|].
  pose (s := run Simulation.source (firstn 2 Sample.batchEvaluations)
               emptyStore).
  pose (r := evaluateAllMonitors Simulation.source Sample.shoes
               [Sample.ctr; Sample.cpa] (Sample.world 0.9 3 2) s).
  assert (Hnd : NoDup (map alarm_id (alarms s))).
  { vm_compute. repeat constructor; simpl; intuition discriminate. }
  destruct r as [[[result|e] w'] s'] eqn:Er.
  2: { vm_compute in Er. discriminate Er. }
  assert (Hres : map (fun st => (ms_monitorId st, ms_state st)) (states result)
                 = [("m-ctr", OK); ("m-cpa", IN_ALARM)]
                 /\ map alarm_id (newAlarms result) = []
                 /\ s' = run Simulation.source
                           (firstn 3 Sample.batchEvaluations) emptyStore).
  { vm_compute in Er. injection Er as <- _ <-.
    repeat split; vm_compute; reflexivity. }
  destruct Hres as [Hstates [Hnew ->]].
  destruct (states result) as [|st [|st2 rest]] eqn:Est;
    [discriminate Hstates | discriminate Hstates |].
  injection Hstates as Hid Hst Hid2 _ Hrest.
  destruct (auto_resolve_complete Simulation.source Sample.shoes
              [Sample.ctr; Sample.cpa] (Sample.world 0.9 3 2) s result w' _
              [] st (st2 :: rest) Hnd Er Est)
    as [Hall Hcount].
  { intros x [<-|Hx].
    - rewrite Hid, Hid2. discriminate.
    - destruct rest; [destruct Hx | discriminate Hrest]. }
  { exact Hst. }
  rewrite Hid in Hall, Hcount. split; [exact Hcount|].
  destruct (newAlarms result); [|discriminate Hnew].
  destruct (alarms s) as [|a l] eqn:Ea; [vm_compute in Ea; discriminate Ea|].
  assert (Ha : alarm_id a = "alarm-0" /\ alarm_monitorId a = "m-ctr"
               /\ alarm_state a = ACTIVE).
  { vm_compute in Ea. injection Ea as <- _. repeat split. }
  destruct Ha as [Haid [Hamon Hact]].
  destruct (Hall a (or_introl eq_refl) Hamon Hact (fun new H => match H with end))
    as [a' [t [Hin [_ [Hid' [Hst' [Hm' Ht']]]]]]].
  exists a', t. rewrite <- Haid, <- Hid'.
  exact (conj Hin (conj eq_refl (conj Hst' (conj Hm' Ht')))).
Defined.

(** ** Batches over a list in two parts *)

Lemma loop_app src campaign before after :
  forall states0 alarms0 w s,
    evaluateAllMonitors_loop src campaign (before ++ after) states0 alarms0 w s
    = match evaluateAllMonitors_loop src campaign before states0 alarms0 w s
      with
      | (Ok r, w1, s1) =>
          evaluateAllMonitors_loop src campaign after
            (states r) (newAlarms r) w1 s1
      | (Throw e, w1, s1) => (Throw e, w1, s1)
      end.
Proof.
  induction before as [|monitor rest IH]; intros states0 alarms0 w s.
  - reflexivity.
  - rewrite <- app_comm_cons. destruct (enabled monitor) eqn:Een.
    + rewrite !(loop_enabled _ _ _ _ _ _ _ _ Een).
      destruct (evaluateMonitor src monitor campaign w s)
        as [[[res|e] w1] s1]; [|reflexivity].
      destruct (autoResolveAlarms monitor (er_state res) w1 s1)
        as [[[[]|e] w2] s2]; [|reflexivity].
      apply IH.
    + rewrite !(loop_disabled _ _ _ _ _ _ _ _ Een). apply IH.
Qed.

(** ** Determinism up to the readings of the environment *)

Lemma sameReadings_refl w : sameReadings w w.
Proof. repeat split. Qed.

Lemma respectsE_ret {A} (a : A) : respectsE (ret a).
Proof. intros w1 w2 H. split; [reflexivity | exact H]. Qed.

Lemma respectsE_throw {A} e : respectsE (@throw A e).
Proof. intros w1 w2 H. split; [reflexivity | exact H]. Qed.

Lemma respectsE_bind {A B} (c : Ext A) (k : A -> Ext B) :
  respectsE c -> (forall a, respectsE (k a)) -> respectsE (bind c k).
Proof.
  intros Hc Hk w1 w2 H. destruct (Hc w1 w2 H) as [Hr Hw].
  cbn [bind Ext_Monad].
  destruct (c w1) as [[a1|e1] w1'], (c w2) as [[a2|e2] w2'];
    cbn [fst snd] in *; try discriminate Hr.
  - injection Hr as ->. now apply Hk.
  - injection Hr as ->. split; [reflexivity | exact Hw].
Qed.

Lemma respectsE_Math_random : respectsE Math_random.
Proof.
  intros w1 w2 [Hr [Hc [Hu [Hg [Hrs [Hcs [Hus Hgs]]]]]]].
  unfold Math_random. cbn [fst snd]. split.
  - rewrite <- Hr. f_equal. apply Hrs. lia.
  - repeat split; cbn; try assumption; try congruence.
    intros i Hi. apply Hrs. lia.
Qed.

Lemma respectsE_new_Date : respectsE new_Date.
Proof.
  intros w1 w2 [Hr [Hc [Hu [Hg [Hrs [Hcs [Hus Hgs]]]]]]].
  unfold new_Date. cbn [fst snd]. split.
  - rewrite <- Hc. f_equal. apply Hcs. lia.
  - repeat split; cbn; try assumption; try congruence.
    intros i Hi. apply Hcs. lia.
Qed.

Lemma respectsE_uuidv4 : respectsE uuidv4.
Proof.
  intros w1 w2 [Hr [Hc [Hu [Hg [Hrs [Hcs [Hus Hgs]]]]]]].
  unfold uuidv4. cbn [fst snd]. split.
  - rewrite <- Hu. f_equal. apply Hus. lia.
  - repeat split; cbn; try assumption; try congruence.
    intros i Hi. apply Hus. lia.
Qed.

Lemma respectsE_generateAlarmInsights alarm campaign monitor :
  respectsE (generateAlarmInsights alarm campaign monitor).
Proof.
  intros w1 w2 [Hr [Hc [Hu [Hg [Hrs [Hcs [Hus Hgs]]]]]]].
  unfold generateAlarmInsights. cbn [fst snd]. split.
  - rewrite <- Hg, (Hgs (geminiPos w1)) by lia. reflexivity.
  - repeat split; cbn; try assumption; try congruence.
    intros i Hi. apply Hgs. lia.
Qed.

Lemma respectsE_Date_now : respectsE Date_now.
Proof.
  unfold Date_now. apply respectsE_bind; [apply respectsE_new_Date|].
  intros a. apply respectsE_ret.
Qed.

Lemma respects_ret {A} (a : A) : respects (ret a).
Proof. intros w1 w2 s H. split; [|split]; [reflexivity | reflexivity | exact H]. Qed.

Lemma respects_lift {A} (c : Ext A) : respectsE c -> respects (lift c).
Proof.
  intros Hc w1 w2 s H. destruct (Hc w1 w2 H) as [Hr Hw].
  rewrite !lift_run. unfold outcomeOf, storeAfter, worldAfter. cbn [fst snd].
  split; [|split]; [exact Hr | reflexivity | exact Hw].
Qed.

Lemma respects_bind {A B} (c : M A) (k : A -> M B) :
  respects c -> (forall a, respects (k a)) -> respects (bind c k).
Proof.
  intros Hc Hk w1 w2 s H. destruct (Hc w1 w2 s H) as [Hr [Hs Hw]].
  rewrite !bind_run. unfold outcomeOf, storeAfter, worldAfter in *.
  destruct (c w1 s) as [[[a1|e1] w1'] s1], (c w2 s) as [[[a2|e2] w2'] s2];
    cbn [fst snd] in *; try discriminate Hr; subst s2.
  - injection Hr as ->. now apply Hk.
  - injection Hr as ->. split; [|split]; [reflexivity | reflexivity | exact Hw].
Qed.

Lemma respects_tryCatch {A} (c : M A) (h : string -> M A) :
  respects c -> (forall e, respects (h e)) -> respects (tryCatch c h).
Proof.
  intros Hc Hh w1 w2 s H. destruct (Hc w1 w2 s H) as [Hr [Hs Hw]].
  unfold tryCatch, outcomeOf, storeAfter, worldAfter in *.
  destruct (c w1 s) as [[[a1|e1] w1'] s1], (c w2 s) as [[[a2|e2] w2'] s2];
    cbn [fst snd] in *; try discriminate Hr; subst s2.
  - split; [|split]; [exact Hr | reflexivity | exact Hw].
  - injection Hr as ->. now apply Hh.
Qed.

Lemma respects_forEach {A S} (l : list A) (f : A -> S -> M S) :
  (forall x acc, respects (f x acc)) -> forall acc, respects (forEach l f acc).
Proof.
  intros Hf. induction l as [|x t IH]; intros acc; cbn [forEach].
  - apply respects_ret.
  - apply respects_bind; [apply Hf | exact IH].
Qed.

Lemma respects_getCookie {A} (key : Store -> A) : respects (getCookie key).
Proof. intros w1 w2 s H. split; [|split]; [reflexivity | reflexivity | exact H]. Qed.

Lemma respects_saveAlarms l : respects (saveAlarms l).
Proof. intros w1 w2 s H. split; [|split]; [reflexivity | reflexivity | exact H]. Qed.

Lemma respects_saveMonitorStates l : respects (saveMonitorStates l).
Proof. intros w1 w2 s H. split; [|split]; [reflexivity | reflexivity | exact H]. Qed.

Ltac respects_step :=
  first
    [ apply respects_ret
    | apply respects_getCookie
    | apply respects_saveAlarms
    | apply respects_saveMonitorStates
    | apply respects_lift
    | apply respectsE_ret
    | apply respectsE_throw
    | apply respectsE_Math_random
    | apply respectsE_new_Date
    | apply respectsE_Date_now
    | apply respectsE_uuidv4
    | apply respectsE_generateAlarmInsights
    | apply respects_bind; [|intros ?]
    | apply respectsE_bind; [|intros ?]
    | apply respects_tryCatch; [|intros ?]
    | apply respects_forEach; intros ? ?
    | match goal with
      | |- respects (if ?b then _ else _) => destruct b
      | |- respectsE (if ?b then _ else _) => destruct b
      | |- respects (match ?o with Some _ => _ | None => _ end) => destruct o
      end ].

Lemma respectsE_generateExpectedValue campaign metric :
  respectsE (Simulation.generateExpectedValue campaign metric).
Proof. unfold Simulation.generateExpectedValue. repeat respects_step. Qed.

Lemma respectsE_generateCurrentMetricValue campaign metric expected :
  respectsE (Simulation.generateCurrentMetricValue campaign metric expected).
Proof.
  unfold Simulation.generateCurrentMetricValue, Simulation.generateValue,
    Simulation.shouldGenerateAnomaly, Simulation.applyAnomaly.
  repeat respects_step.
Qed.

Lemma Simulation_respects : sourceRespects Simulation.source.
Proof.
  split.
  - intros. apply respectsE_generateCurrentMetricValue.
  - intros. apply respectsE_generateExpectedValue.
Qed.

Lemma respects_saveAlarm a : respects (saveAlarm a).
Proof. unfold saveAlarm, getAlarms. repeat respects_step. Qed.

Lemma respects_saveMonitorState st : respects (saveMonitorState st).
Proof. unfold saveMonitorState, getMonitorStates. repeat respects_step. Qed.

Lemma respects_evaluateCompositeCondition monitor campaign current expected :
  respects (evaluateCompositeCondition monitor campaign current expected).
Proof.
  unfold evaluateCompositeCondition, getMetricValuesByCampaignAndMetric,
    getMetricValues.
  repeat respects_step.
Qed.

Lemma respects_evaluateGranularDimensions src monitor campaign :
  sourceRespects src ->
  respects (evaluateGranularDimensions src monitor campaign).
Proof.
  intros [_ Hexp]. unfold evaluateGranularDimensions.
  repeat first [respects_step | apply Hexp].
Qed.

Lemma respects_createAlarmFromMonitor monitor campaign state :
  respects (createAlarmFromMonitor monitor campaign state).
Proof.
  unfold createAlarmFromMonitor.
  repeat first [respects_step | apply respects_saveAlarm].
Qed.

Lemma respects_evaluateMonitor src monitor campaign :
  sourceRespects src -> respects (evaluateMonitor src monitor campaign).
Proof.
  intros Hsrc. pose proof Hsrc as [Hcur Hexp]. unfold evaluateMonitor.
  apply respects_bind; [apply respects_lift, Hcur | intros current].
  apply respects_bind; [apply respects_lift, Hexp | intros expected].
  apply respects_bind; [repeat respects_step | intros now].
  apply respects_bind;
    [unfold getMonitorState, getMonitorStates; repeat respects_step
    | intros previousState].
  apply respects_bind.
  { destruct (monitorType monitor), (compositeConfig monitor);
      repeat first [respects_step | apply respects_evaluateCompositeCondition]. }
  intros newState. apply respects_bind.
  { destruct (monitorType monitor), (granularDimensions monitor);
      repeat first [ respects_step
                   | apply respects_evaluateGranularDimensions, Hsrc ]. }
  intros newState'.
  apply respects_bind; [apply respects_saveMonitorState | intros saved].
  repeat first [respects_step | apply respects_createAlarmFromMonitor].
Qed.

(** ** Counting the draws *)

Lemma draws_ret {A} (a : A) : draws 0 (ret a).
Proof. intros w s. exists a, w, s. split; [reflexivity | lia]. Qed.

Lemma draws_eq {A} (n m : nat) (c : M A) : n = m -> draws n c -> draws m c.
Proof. now intros ->. Qed.

Lemma draws_lift {A} (n : nat) (c : Ext A) : drawsE n c -> draws n (lift c).
Proof.
  intros Hc w s. destruct (Hc w) as [a [w' [E Hp]]].
  exists a, w', s. split; [now rewrite lift_run, E | exact Hp].
Qed.

Lemma draws_bind {A B} (n m : nat) (c : M A) (k : A -> M B) :
  draws n c -> (forall a, draws m (k a)) -> draws (n + m) (bind c k).
Proof.
  intros Hc Hk w s. destruct (Hc w s) as [a [w1 [s1 [E Hp]]]].
  destruct (Hk a w1 s1) as [b [w2 [s2 [E2 Hp2]]]].
  exists b, w2, s2. split; [now rewrite (bind_ok _ _ _ _ _ _ _ E)|]. lia.
Qed.

Lemma draws_forEach {A S} (g : A -> nat) (l : list A) (f : A -> S -> M S) :
  (forall x acc, draws (g x) (f x acc)) ->
  forall acc, draws (list_sum (map g l)) (forEach l f acc).
Proof.
  intros Hf. unfold list_sum.
  induction l as [|x t IH]; intros acc; cbn [forEach map fold_right].
  - apply draws_ret.
  - apply draws_bind; [apply Hf | exact IH].
Qed.

Lemma list_sum_const {A} (n : nat) (l : list A) :
  list_sum (map (fun _ => n) l) = (n * List.length l)%nat.
Proof.
  unfold list_sum.
  induction l as [|x t IH]; cbn [map fold_right List.length];
    [now rewrite Nat.mul_0_r|].
  rewrite IH, Nat.mul_succ_r. lia.
Qed.

Lemma drawsE_Math_random : drawsE 1 Math_random.
Proof. intros w. eexists _, _. split; [reflexivity|]. cbn. lia. Qed.

Lemma drawsE_new_Date : drawsE 0 new_Date.
Proof. intros w. eexists _, _. split; [reflexivity|]. cbn. lia. Qed.

(** One dimension value: a base value from the generator, then two draws
    of the engine, for the variation and for the flag. *)
Lemma draws_dimension_value src campaign metric e key acc :
  drawsE e (generateExpectedValue src campaign metric) ->
  draws (e + 2)
    (baseValue <- lift (generateExpectedValue src campaign metric) ;;
     r <- lift Math_random ;;
     let value := (baseValue * (0.8 + r * 0.4))%Q in
     r' <- lift Math_random ;;
     ret (assign acc key {| dim_value := value; dim_inAlarm := Qgtb r' 0.7 |})).
Proof.
  intros Hsrc.
  apply draws_bind; [now apply draws_lift | intros baseValue].
  apply (draws_bind 1 1); [apply draws_lift, drawsE_Math_random | intros r].
  apply (draws_bind 1 0); [apply draws_lift, drawsE_Math_random | intros r'].
  apply draws_ret.
Qed.

Lemma draws_evaluateGranularDimensions src monitor campaign e :
  (forall metric, drawsE e (generateExpectedValue src campaign metric)) ->
  draws ((e + 2) * granularValues monitor campaign)
        (evaluateGranularDimensions src monitor campaign).
Proof.
  intros Hsrc. unfold evaluateGranularDimensions, granularValues.
  destruct (granularDimensions monitor) as [dims|];
    [|apply (draws_eq 0); [lia | apply draws_ret]].
  eapply draws_eq;
    [|apply (draws_forEach
               (fun dimension =>
                  Nat.add
                    (Nat.mul (e + 2)
                       (if dimension =? "device"
                        then List.length (devices (targeting campaign))
                        else 0%nat))
                    (Nat.mul (e + 2)
                       (if dimension =? "geo"
                        then List.length (geos (targeting campaign))
                        else 0%nat))))].
  - unfold list_sum.
    induction dims as [|d t IH]; cbn [map fold_right];
      [now rewrite Nat.mul_0_r|].
    rewrite IH. lia.
  - intros dimension acc. apply draws_bind.
    + destruct (dimension =? "device").
      * eapply draws_eq; [apply list_sum_const|].
        apply (draws_forEach (fun _ => (e + 2)%nat)). intros device acc'.
        now apply draws_dimension_value.
      * apply (draws_eq 0); [lia | apply draws_ret].
    + intros acc'. destruct (dimension =? "geo").
      * eapply draws_eq; [apply list_sum_const|].
        apply (draws_forEach (fun _ => (e + 2)%nat)). intros geo acc''.
        now apply draws_dimension_value.
      * apply (draws_eq 0); [lia | apply draws_ret].
Qed.

Lemma draws_createAlarmFromMonitor monitor campaign state :
  draws 0 (createAlarmFromMonitor monitor campaign state).
Proof.
  intros w s.
  destruct (gemini w (geminiPos w)) as [i|] eqn:G;
    eexists _, _, _;
    (split;
     [ unfold createAlarmFromMonitor, tryCatch, generateAlarmInsights, uuidv4,
         lift;
       cbn [bind ret M_Monad gemini geminiPos]; rewrite G;
       cbn [bind ret M_Monad]; rewrite saveAlarm_run; reflexivity
     | cbn; lia ]).
Qed.

(** What follows the two readings of the metric source in [evaluateMonitor]
    takes the draws of the dimensional breakdown and no other. *)
Lemma draws_after_readings src monitor campaign e currentValue expectedValue :
  (forall metric, drawsE e (generateExpectedValue src campaign metric)) ->
  draws ((e + 2) * dimensionValues monitor campaign)
    (let deviation := calculateDeviation currentValue expectedValue in
     let inAlarm :=
       isInAlarm currentValue expectedValue (sensitivity monitor) in
     let score :=
       (Qabs deviation / 100
        / getSensitivityThreshold (sensitivity monitor))%Q in
     now <- lift new_Date ;;
     let timestamp := iso now in
     previousState <- getMonitorState (monitor_id monitor) ;;
     let wasInAlarm :=
       match previousState with
       | Some p => MonitorState_eqb (ms_state p) IN_ALARM
       | None => false
       end in
     let newState :=
       {| ms_monitorId := monitor_id monitor;
          ms_state := if inAlarm then IN_ALARM else OK;
          ms_currentValue := currentValue;
          ms_expectedValue := expectedValue;
          anomalyScore := score;
          enteredStateAt :=
            if inAlarm && negb wasInAlarm then timestamp
            else match previousState with
                 | Some p => if enteredStateAt p =? "" then timestamp
                             else enteredStateAt p
                 | None => timestamp
                 end;
          dataPointsBreached := None;
          dimensions := None;
          updatedAt := timestamp |} in
     newState <-
       (match monitorType monitor, compositeConfig monitor with
        | COMPOSITE, Some _ =>
            r <- evaluateCompositeCondition monitor campaign
                   currentValue expectedValue ;;
            ret (set_composite newState r)
        | _, _ => ret newState
        end) ;;
     newState <-
       (match monitorType monitor, granularDimensions monitor with
        | GRANULAR, Some _ =>
            dimensionalData <- evaluateGranularDimensions src monitor campaign ;;
            ret (set_dimensions newState dimensionalData)
        | _, _ => ret newState
        end) ;;
     newState <- saveMonitorState newState ;;
     alarm <-
       (if MonitorState_eqb (ms_state newState) IN_ALARM && negb wasInAlarm then
          a <- createAlarmFromMonitor monitor campaign newState ;; ret (Some a)
        else ret None) ;;
     ret {| er_state := newState; er_alarm := alarm |}).
Proof.
  intros Hsrc. cbv zeta.
  set (n := ((e + 2) * dimensionValues monitor campaign)%nat).
  apply (draws_bind 0 n); [apply draws_lift, drawsE_new_Date | intros now].
  apply (draws_bind 0 n);
    [intros w s; eexists _, _, _; split; [reflexivity | lia] | intros previous].
  apply (draws_bind 0 n).
  { destruct (monitorType monitor), (compositeConfig monitor);
      try apply draws_ret.
    apply (draws_bind 0 0); [|intros r; apply draws_ret].
    intros w s.
    destruct (evaluateCompositeCondition_pure monitor campaign currentValue
                expectedValue s) as [r Hr].
    exists r, w, s. split; [apply Hr | lia]. }
  intros st1. apply (draws_eq (n + 0)); [lia|]. apply draws_bind.
  { subst n. unfold dimensionValues, granularValues.
    destruct (monitorType monitor) eqn:Ety;
      try (apply (draws_eq 0); [lia|];
           destruct (granularDimensions monitor); apply draws_ret).
    destruct (granularDimensions monitor) as [dims|] eqn:Edims;
      [|apply (draws_eq 0); [lia | apply draws_ret]].
    eapply draws_eq; [|apply draws_bind;
                        [apply (draws_evaluateGranularDimensions
                                  src monitor campaign e Hsrc)
                        | intros d; apply draws_ret]].
    unfold granularValues. rewrite Edims. lia. }
  intros st2. apply (draws_bind 0 0).
  { intros w s. rewrite saveMonitorState_run. eexists _, _, _.
    split; [reflexivity | cbn; lia]. }
  intros st3. apply (draws_bind 0 0); [|intros a; apply draws_ret].
  destruct (_ && _); [|apply draws_ret].
  apply (draws_bind 0 0); [|intros a; apply draws_ret].
  apply draws_createAlarmFromMonitor.
Qed.

(** The simulation draws once for the noise of the current value and once
    more when it applies an anomaly of the first two kinds. *)
Lemma shipped_current_draws campaign metric expected w :
  exists v w' c,
    Simulation.generateCurrentMetricValue campaign metric expected w
    = (Ok v, w')
    /\ (c = 1 \/ c = 2)%nat
    /\ randomPos w' = (randomPos w + c)%nat.
Proof.
  unfold Simulation.generateCurrentMetricValue, Simulation.generateValue,
    Simulation.shouldGenerateAnomaly, Simulation.applyAnomaly, Date_now,
    new_Date, Math_random.
  cbn [bind ret Ext_Monad].
  destruct (Qgtb _ 0.2); cbn [bind ret Ext_Monad].
  - eexists _, _, 1%nat. split; [reflexivity|]. split; [now left | cbn; lia].
  - destruct (Qle_bool _ 12); cbn [bind ret Ext_Monad].
    + destruct (_ =? 0)%Z; cbn [bind ret Ext_Monad];
        [eexists _, _, 2%nat; split; [reflexivity|];
         split; [now right | cbn; lia]|].
      destruct (_ =? 1)%Z; cbn [bind ret Ext_Monad];
        [eexists _, _, 2%nat; split; [reflexivity|];
         split; [now right | cbn; lia]|].
      destruct (_ =? 2)%Z; cbn [bind ret Ext_Monad];
        eexists _, _, 1%nat; (split; [reflexivity|]);
        (split; [now left | cbn; lia]).
    + eexists _, _, 1%nat. split; [reflexivity|].
      split; [now left | cbn; lia].
Qed.

Lemma drawsE_shipped_expected campaign metric :
  drawsE 1 (Simulation.generateExpectedValue campaign metric).
Proof. intros w. eexists _, _. split; [reflexivity|]. cbn. lia. Qed.

(** C6 (as the code has it): [evaluateMonitor] is a function of the monitor,
    the campaign, the store (monitor state and metric history) and the
    readings it takes from the clock, from [Math.random], from the id
    generator and from the insight service: two runs that take the same
    readings return the same state and alarm and leave the same store.
    The draws from [Math.random] are among the readings.  The engine
    itself draws twice for each dimension value of a dimensional breakdown
    (for the variation of the value and for its flag), after the base
    value it asks of the metric source; with the shipped generator an
    evaluation takes one or two draws for the current value, one for the
    expected value, and three for each dimension value of a granular
    monitor. *)
Theorem evaluateMonitor_determined_by_readings :
  forall monitor campaign,
    (forall src e,
        (forall metric, drawsE e (generateExpectedValue src campaign metric)) ->
        draws ((e + 2) * granularValues monitor campaign)
              (evaluateGranularDimensions src monitor campaign))
    /\ (forall w s,
           exists res w' s' c,
             evaluateMonitor Simulation.source monitor campaign w s
             = (Ok res, w', s')
             /\ (c = 1 \/ c = 2)%nat
             /\ randomPos w'
                = (randomPos w
                   + (c + 1 + 3 * dimensionValues monitor campaign))%nat)
    /\ (forall w1 w2 s,
           sameReadings w1 w2 ->
           outcomeOf (evaluateMonitor Simulation.source monitor campaign w1 s)
           = outcomeOf (evaluateMonitor Simulation.source monitor campaign
                          w2 s)
           /\ storeAfter (evaluateMonitor Simulation.source monitor campaign
                            w1 s)
              = storeAfter (evaluateMonitor Simulation.source monitor campaign
                              w2 s)).
Proof.
  intros monitor campaign. split; [|split].
  - intros src e Hsrc. now apply draws_evaluateGranularDimensions.
  - intros w s.
    destruct (shipped_current_draws campaign (metricId monitor) 0 w)
      as [v [w1 [c [Ec [Hc Hp1]]]]].
    destruct (drawsE_shipped_expected campaign (metricId monitor) w1)
      as [x [w2 [Ee Hp2]]].
    destruct (draws_after_readings Simulation.source monitor campaign 1 v x
                (drawsE_shipped_expected campaign) w2 s)
      as [res [w' [s' [E Hp3]]]].
    exists res, w', s', c. split; [|split; [exact Hc | lia]].
    unfold evaluateMonitor. rewrite bind_run, lift_run.
    cbn [generateCurrentMetricValue Simulation.source].
    rewrite Ec. cbn [fst snd]. rewrite bind_run, lift_run.
    cbn [generateExpectedValue Simulation.source].
    rewrite Ee. cbn [fst snd]. exact E.
  - intros w1 w2 s H.
    destruct (respects_evaluateMonitor Simulation.source monitor campaign
                Simulation_respects w1 w2 s H) as [Ho [Hs _]].
    split; assumption.
Qed.

Lemma evaluateMonitor_determined_by_readings_witness :
  let s := saveMetricValues [Sample.ctrSample] emptyStore in
  outcomeOf (evaluateMonitor Simulation.source Sample.impressions Sample.shoes
               (Sample.replayed 0.1) s)
  = outcomeOf (evaluateMonitor Simulation.source Sample.impressions
                 Sample.shoes (Sample.replayed 0.9) s)
  /\ draws 6 (evaluateGranularDimensions Simulation.source Sample.impressions
                Sample.shoes).
Proof.
  cbv zeta.
  destruct (evaluateMonitor_determined_by_readings Sample.impressions
              Sample.shoes) as [Hengine [_ Hsame]].
  split.
  - apply (Hsame (Sample.replayed 0.1) (Sample.replayed 0.9)).
    repeat split. intros i Hi. simpl in Hi.
    destruct i as [|i]; [lia | reflexivity].
  - apply (Hengine Simulation.source 1%nat).
    intros metric. apply drawsE_shipped_expected.
Defined.

(** C6 fails on the code: with the monitor, the campaign, the stored state,
    the history and the clock all the same, two runs that draw different
    random numbers differ in the expected value, in the new state, in the
    decision to create an alarm and in the per-device results. *)
Lemma same_inputs_different_draws :
  let s := saveMetricValues [Sample.ctrSample] emptyStore in
  let w1 := Sample.world 0 0 0 in
  let w2 := Sample.world 0.9 0 0 in
  let view expected r :=
    match outcomeOf r with
    | Ok res => Some (ms_state (er_state res),
                      Qeq_bool (ms_expectedValue (er_state res)) expected,
                      match er_alarm res with Some _ => true | None => false end,
                      match dimensions (er_state res) with
                      | Some d => map (fun kv => (fst kv, dim_inAlarm (snd kv))) d
                      | None => []
                      end)
    | Throw _ => None
    end in
  clock w1 = clock w2 /\ clockPos w1 = clockPos w2
  /\ view 2.25%Q
       (evaluateMonitor Simulation.source Sample.ctr Sample.shoes w1 s)
     = Some (IN_ALARM, true, true, [])
  /\ view 2.7%Q
       (evaluateMonitor Simulation.source Sample.ctr Sample.shoes w2 s)
     = Some (OK, true, false, [])
  /\ view 90000%Q
       (evaluateMonitor Simulation.source Sample.impressions Sample.shoes w1 s)
     = Some (IN_ALARM, true, true,
             [("device_Desktop", false); ("device_Mobile", false)])
  /\ view 108000%Q
       (evaluateMonitor Simulation.source Sample.impressions Sample.shoes w2 s)
     = Some (IN_ALARM, true, true,
             [("device_Desktop", true); ("device_Mobile", true)])
  /\ outcomeOf (evaluateMonitor Simulation.source Sample.ctr Sample.shoes w1 s)
     <> outcomeOf (evaluateMonitor Simulation.source Sample.ctr Sample.shoes
                     w2 s).
Proof.
  cbv zeta.
  split; [reflexivity|]. split; [reflexivity|].
  split; [vm_compute; reflexivity|]. split; [vm_compute; reflexivity|].
  split; [vm_compute; reflexivity|]. split; [vm_compute; reflexivity|].
  intros H. vm_compute in H. discriminate H.
Qed.

(** * Further properties of the engine *)

(** ** Thresholds *)

Lemma threshold_positive s : (0 < getSensitivityThreshold s)%Q.
Proof. destruct s; reflexivity. Qed.

Lemma isInAlarm_true current expected s :
  isInAlarm current expected s = true
  <-> (getSensitivityThreshold s
       < Qabs (calculateDeviation current expected) / 100)%Q.
Proof. unfold isInAlarm. cbv zeta. apply Qgtb_true. Qed.

Lemma isInAlarm_false current expected s :
  isInAlarm current expected s = false
  <-> (Qabs (calculateDeviation current expected) / 100
       <= getSensitivityThreshold s)%Q.
Proof. unfold isInAlarm. cbv zeta. apply Qgtb_false. Qed.

(** X1: a breach under a looser sensitivity is a breach under every
    stricter one. *)
Theorem stricter_sensitivity_alarms_more :
  forall current expected,
    (isInAlarm current expected Loose = true ->
     isInAlarm current expected Balanced = true)
    /\ (isInAlarm current expected Balanced = true ->
        isInAlarm current expected Strict = true).
Proof.
  intros current expected. split; intros H; apply isInAlarm_true in H;
    apply isInAlarm_true; (eapply Qlt_trans; [|exact H]); reflexivity.
Qed.

Lemma stricter_sensitivity_alarms_more_witness :
  isInAlarm 150 100 Balanced = true /\ isInAlarm 150 100 Strict = true.
Proof.
  destruct (stricter_sensitivity_alarms_more 150 100) as [H1 H2].
  assert (H : isInAlarm 150 100 Balanced = true) by (apply H1; reflexivity).
  split; [exact H | exact (H2 H)].
Defined.

(** X2: without a baseline, or without a difference, nothing breaches: when
    the expected value is zero or equals the current value the deviation is
    zero, no sensitivity alarms and the severity is Low. *)
Theorem no_baseline_or_no_difference_never_breaches :
  forall current expected s,
    (expected == 0)%Q \/ (current == expected)%Q ->
    (calculateDeviation current expected == 0)%Q
    /\ isInAlarm current expected s = false
    /\ calculateSeverity (calculateDeviation current expected) = LOW.
Proof.
  intros current expected s H.
  assert (Hd : (calculateDeviation current expected == 0)%Q).
  { destruct (Qeq_dec expected 0) as [E|E].
    - now rewrite (calculateDeviation_zero _ _ E).
    - rewrite (calculateDeviation_nonzero _ _ E).
      destruct H as [H|H]; [contradiction|].
      rewrite H. field. exact E. }
  split; [exact Hd|]. split.
  - apply isInAlarm_false. rewrite Hd.
    setoid_replace (Qabs 0 / 100)%Q with 0%Q by reflexivity.
    apply Qlt_le_weak. apply threshold_positive.
  - unfold calculateSeverity. cbv zeta.
    assert (Ha : (Qabs (calculateDeviation current expected) == 0)%Q)
      by (rewrite Hd; reflexivity).
    assert (H60 : Qgeb (Qabs (calculateDeviation current expected)) 60 = false)
      by (apply Qgeb_false; rewrite Ha; reflexivity).
    assert (H40 : Qgeb (Qabs (calculateDeviation current expected)) 40 = false)
      by (apply Qgeb_false; rewrite Ha; reflexivity).
    assert (H25 : Qgeb (Qabs (calculateDeviation current expected)) 25 = false)
      by (apply Qgeb_false; rewrite Ha; reflexivity).
    now rewrite H60, H40, H25.
Qed.

Lemma no_baseline_or_no_difference_never_breaches_witness :
  isInAlarm 5000 0 Strict = false /\ isInAlarm 42 42 Strict = false.
Proof.
  split.
  - apply (no_baseline_or_no_difference_never_breaches 5000 0 Strict).
    left. reflexivity.
  - apply (no_baseline_or_no_difference_never_breaches 42 42 Strict).
    right. reflexivity.
Defined.

(** ** Severity *)

(** X3: severity depends on the size of the deviation only, and never goes
    down when the deviation grows. *)
Theorem severity_grows_with_deviation :
  forall d1 d2,
    calculateSeverity (- d1) = calculateSeverity d1
    /\ ((Qabs d1 <= Qabs d2)%Q ->
        severityRank (calculateSeverity d1)
        <= severityRank (calculateSeverity d2)).
Proof.
  intros d1 d2. split.
  - unfold calculateSeverity. cbv zeta.
    assert (H : forall k, Qgeb (Qabs (- d1)) k = Qgeb (Qabs d1) k).
    { intros k. unfold Qgeb. apply Qleb_comp; [reflexivity | apply Qabs_opp]. }
    now rewrite !H.
  - intros Hle. unfold calculateSeverity. cbv zeta.
    assert (Hmono : forall k, Qgeb (Qabs d1) k = true ->
                              Qgeb (Qabs d2) k = true).
    { intros k H. apply Qgeb_true. apply Qgeb_true in H.
      eapply Qle_trans; eassumption. }
    destruct (Qgeb (Qabs d1) 60) eqn:E1.
    { rewrite (Hmono _ E1). simpl. lia. }
    destruct (Qgeb (Qabs d1) 40) eqn:E2.
    { rewrite (Hmono _ E2). destruct (Qgeb (Qabs d2) 60); simpl; lia. }
    destruct (Qgeb (Qabs d1) 25) eqn:E3.
    { rewrite (Hmono _ E3).
      destruct (Qgeb (Qabs d2) 60), (Qgeb (Qabs d2) 40); simpl; lia. }
    simpl. lia.
Qed.

Lemma severity_grows_with_deviation_witness :
  severityRank (calculateSeverity 30) <= severityRank (calculateSeverity (-45)).
Proof.
  apply (severity_grows_with_deviation 30 (-45)). discriminate.
Defined.

(** ** The state and the score of one evaluation *)

Lemma simple_rule_applies monitor campaign s res s' :
  monitorType monitor <> COMPOSITE \/ compositeConfig monitor = None ->
  Evaluated monitor campaign s res s' ->
  dataPointsBreached (er_state res) = None
  /\ ms_state (er_state res)
     = (if isInAlarm (ms_currentValue (er_state res))
             (ms_expectedValue (er_state res)) (sensitivity monitor)
        then IN_ALARM else OK).
Proof.
  intros Hsimple [_ [_ [_ [Hrule _]]]].
  destruct (monitorType monitor), (compositeConfig monitor);
    try exact Hrule.
  destruct Hsimple as [H|H]; [now destruct H | discriminate H].
Qed.

(** X4: the anomaly score is above 1 exactly when the current value
    breaches the tolerance of the monitor; for a monitor that is not
    composite this is exactly when its new state is IN_ALARM.  (The score of
    a composite monitor still follows the current sample alone.) *)
Theorem score_above_one_iff_breach :
  forall src monitor campaign w s res w' s',
    evaluateMonitor src monitor campaign w s = (Ok res, w', s') ->
    let st := er_state res in
    ((1 < anomalyScore st)%Q
     <-> isInAlarm (ms_currentValue st) (ms_expectedValue st)
           (sensitivity monitor) = true)
    /\ (monitorType monitor <> COMPOSITE \/ compositeConfig monitor = None ->
        ((1 < anomalyScore st)%Q <-> ms_state st = IN_ALARM)).
Proof.
  intros src monitor campaign w s res w' s' Hev st.
  apply evaluateMonitor_ok in Hev.
  pose proof Hev as [_ [Hscore _]]. fold st in Hscore.
  pose proof (threshold_positive (sensitivity monitor)) as Hpos.
  assert (Hnz : ~ (getSensitivityThreshold (sensitivity monitor) == 0)%Q).
  { intros E. rewrite E in Hpos. discriminate Hpos. }
  assert (Hiff : (1 < anomalyScore st)%Q
                 <-> isInAlarm (ms_currentValue st) (ms_expectedValue st)
                       (sensitivity monitor) = true).
  { rewrite isInAlarm_true, Hscore. split; intros H.
    - apply (Qmult_lt_compat_r _ _ _ Hpos) in H.
      rewrite Qmult_1_l in H.
      rewrite Qmult_comm, Qmult_div_r in H by exact Hnz. exact H.
    - apply Qlt_shift_div_l; [exact Hpos|]. now rewrite Qmult_1_l. }
  split; [exact Hiff|].
  intros Hsimple.
  destruct (simple_rule_applies _ _ _ _ _ Hsimple Hev) as [_ Hst].
  fold st in Hst. rewrite Hiff, Hst.
  destruct (isInAlarm _ _ _); split; congruence.
Qed.

Lemma score_above_one_iff_breach_witness :
  exists res,
    outcomeOf (evaluateMonitor Simulation.source Sample.cpa Sample.shoes
                 (Sample.world 0 0 0) emptyStore) = Ok res
    /\ ((1 < anomalyScore (er_state res))%Q
        <-> ms_state (er_state res) = IN_ALARM).
Proof.
  eexists. split; [vm_compute; reflexivity|].
  refine (proj2 (score_above_one_iff_breach Simulation.source Sample.cpa
                   Sample.shoes (Sample.world 0 0 0) emptyStore _ _ _ _) _).
  - vm_compute. reflexivity.
  - left. discriminate.
Defined.

(** X5: an alarm raised by a monitor that is not composite is never milder
    than the tolerance it crossed: under Balanced its severity is at least
    Medium, under Loose at least High. *)
Theorem alarm_severity_floor :
  forall src monitor campaign w s res w' s' a,
    evaluateMonitor src monitor campaign w s = (Ok res, w', s') ->
    er_alarm res = Some a ->
    monitorType monitor <> COMPOSITE \/ compositeConfig monitor = None ->
    (sensitivity monitor = Balanced -> 1 <= severityRank (severity a))
    /\ (sensitivity monitor = Loose -> 2 <= severityRank (severity a)).
Proof.
  intros src monitor campaign w s res w' s' a Hev Ha Hsimple.
  apply evaluateMonitor_ok in Hev.
  destruct (simple_rule_applies _ _ _ _ _ Hsimple Hev) as [_ Hst].
  destruct Hev as [_ [_ [_ [_ Halarm]]]]. rewrite Ha in Halarm.
  destruct Halarm as [Hin [_ [_ [_ [_ [Hsev _]]]]]].
  rewrite Hin in Hst.
  destruct (isInAlarm _ _ _) eqn:Hbreach; [|discriminate Hst].
  apply isInAlarm_true in Hbreach.
  set (d := calculateDeviation (ms_currentValue (er_state res))
              (ms_expectedValue (er_state res))) in *.
  assert (Habove : (getSensitivityThreshold (sensitivity monitor) * 100
                    < Qabs d)%Q).
  { apply (Qmult_lt_compat_r _ _ 100) in Hbreach; [|reflexivity].
    unfold Qdiv in Hbreach. rewrite <- Qmult_assoc in Hbreach.
    setoid_replace (/ 100 * 100)%Q with 1%Q in Hbreach by reflexivity.
    now rewrite Qmult_1_r in Hbreach. }
  rewrite Hsev. unfold calculateSeverity. cbv zeta. split; intros Hs;
    rewrite Hs in Habove.
  - assert (H25 : Qgeb (Qabs d) 25 = true).
    { apply Qgeb_true, Qlt_le_weak.
      eapply Qle_lt_trans; [|exact Habove]. discriminate. }
    rewrite H25.
    destruct (Qgeb (Qabs d) 60), (Qgeb (Qabs d) 40); simpl; lia.
  - assert (H40 : Qgeb (Qabs d) 40 = true).
    { apply Qgeb_true, Qlt_le_weak.
      eapply Qle_lt_trans; [|exact Habove]. discriminate. }
    rewrite H40. destruct (Qgeb (Qabs d) 60); simpl; lia.
Qed.

Lemma alarm_severity_floor_witness :
  exists res a,
    outcomeOf (evaluateMonitor Simulation.source Sample.cpa Sample.shoes
                 (Sample.world 0 0 0) emptyStore) = Ok res
    /\ er_alarm res = Some a
    /\ 1 <= severityRank (severity a).
Proof.
  eexists. eexists. split; [vm_compute; reflexivity|].
  split; [reflexivity|].
  refine (proj1 (alarm_severity_floor Simulation.source Sample.cpa
                   Sample.shoes (Sample.world 0 0 0) emptyStore _ _ _ _
                   _ _ _) eq_refl).
  - vm_compute. reflexivity.
  - reflexivity.
  - left. discriminate.
Defined.

(** ** The dashboard summary *)

Lemma severity_partition (l : list Alarm) :
  (List.length (filter (fun a => AlarmSeverity_eqb (severity a) CRITICAL) l)
   + List.length (filter (fun a => AlarmSeverity_eqb (severity a) HIGH) l)
   + List.length (filter (fun a => AlarmSeverity_eqb (severity a) MEDIUM) l)
   + List.length (filter (fun a => AlarmSeverity_eqb (severity a) LOW) l))%nat
  = List.length l.
Proof.
  induction l as [|a t IH]; [reflexivity|].
  simpl. destruct (severity a); simpl; lia.
Qed.

(** X6: the five counts of the summary add up to the number of alarms:
    every Active alarm is counted under its severity and nowhere else, and
    [healthy] is the number of alarms that are not Active (Resolved or
    Dismissed); no count is negative. *)
Theorem getAlarmSummary_partition :
  forall l,
    let sm := getAlarmSummary l in
    (critical sm + high sm + medium sm + low sm
     = Z.of_nat (List.length
                   (filter (fun a => AlarmState_eqb (alarm_state a) ACTIVE) l)))%Z
    /\ (healthy sm
        = Z.of_nat (List.length
                      (filter (fun a => negb (AlarmState_eqb (alarm_state a)
                                                ACTIVE)) l)))%Z
    /\ (critical sm + high sm + medium sm + low sm + healthy sm
        = Z.of_nat (List.length l))%Z
    /\ (0 <= critical sm /\ 0 <= high sm /\ 0 <= medium sm /\ 0 <= low sm
        /\ 0 <= healthy sm)%Z.
Proof.
  intros l. cbv zeta. unfold getAlarmSummary. cbn [critical high medium low healthy].
  set (act := filter (fun a => AlarmState_eqb (alarm_state a) ACTIVE) l).
  pose proof (severity_partition act) as Hp.
  assert (Hsplit : (List.length act
                    + List.length
                        (filter (fun a => negb (AlarmState_eqb (alarm_state a)
                                                  ACTIVE)) l))%nat
                   = List.length l).
  { unfold act. clear. induction l as [|a t IH]; [reflexivity|].
    simpl. destruct (AlarmState_eqb (alarm_state a) ACTIVE); simpl; lia. }
  repeat split; lia.
Qed.

(** ** Saving and finding alarms *)

Lemma getAlarm_run id w s :
  getAlarm id w s = (Ok (find (fun a => alarm_id a =? id) (alarms s)), w, s).
Proof. reflexivity. Qed.

Lemma upsert_length {A} (key : A -> string) x l :
  List.length (upsert key x l)
  = if existsb (fun y => key y =? key x) l then List.length l
    else S (List.length l).
Proof.
  induction l as [|y t IH]; [reflexivity|].
  simpl. destruct (key y =? key x); simpl; [reflexivity|].
  rewrite IH. now destruct (existsb _ t).
Qed.

Lemma upsert_twice {A} (key : A -> string) x l :
  upsert key x (upsert key x l) = upsert key x l.
Proof.
  induction l as [|y t IH]; simpl.
  - now rewrite String.eqb_refl.
  - destruct (key y =? key x) eqn:E; simpl.
    + now rewrite String.eqb_refl.
    + now rewrite E, IH.
Qed.

(** X7: [saveAlarm] is an upsert by id.  After it [getAlarm] finds the saved
    alarm under its id and finds under every other id what it found before;
    the array grows by one if the id was new and keeps its length otherwise;
    saving the same alarm again changes nothing. *)
Theorem saveAlarm_then_getAlarm :
  forall a w s,
    let s' := storeAfter (saveAlarm a w s) in
    outcomeOf (getAlarm (alarm_id a) w s') = Ok (Some a)
    /\ (forall id, id <> alarm_id a ->
                   outcomeOf (getAlarm id w s') = outcomeOf (getAlarm id w s))
    /\ List.length (alarms s')
       = (if existsb (fun b => alarm_id b =? alarm_id a) (alarms s)
          then List.length (alarms s) else S (List.length (alarms s)))
    /\ storeAfter (saveAlarm a w s') = s'.
Proof.
  intros a w s. cbv zeta. rewrite saveAlarm_run.
  unfold storeAfter, outcomeOf. cbn [fst snd].
  rewrite !getAlarm_run. cbn [fst snd alarms withAlarms].
  split; [now rewrite (find_upsert_same alarm_id a)|].
  split.
  { intros id Hid. rewrite !getAlarm_run. cbn [fst snd alarms withAlarms].
    rewrite (find_upsert_other alarm_id a); [reflexivity|]. congruence. }
  split; [apply upsert_length|].
  rewrite saveAlarm_run. cbn [snd alarms withAlarms].
  unfold withAlarms. cbn [monitorStates metricValues alarms].
  now rewrite upsert_twice.
Qed.

Lemma saveAlarm_then_getAlarm_witness :
  let s := run Simulation.source Sample.batchEvaluations emptyStore in
  let w := Sample.world 0 0 0 in
  outcomeOf (getAlarm "alarm-0" w (storeAfter (saveAlarm More.alarm w s)))
  = outcomeOf (getAlarm "alarm-0" w s).
Proof.
  cbv zeta.
  apply (saveAlarm_then_getAlarm More.alarm (Sample.world 0 0 0)).
  discriminate.
Defined.

(** ** What the engine writes *)

Lemma alarmsOnly_ret {A} (a : A) : alarmsOnly (ret a).
Proof. intros w s. split; reflexivity. Qed.

Lemma alarmsOnly_bind {A B} (c : M A) (k : A -> M B) :
  alarmsOnly c -> (forall a, alarmsOnly (k a)) -> alarmsOnly (bind c k).
Proof.
  intros Hc Hk w s. rewrite bind_run. specialize (Hc w s).
  unfold storeAfter in *.
  destruct (c w s) as [[[a|e] w1] s1]; cbn [snd] in *; [|exact Hc].
  destruct (Hk a w1 s1) as [H1 H2]. destruct Hc as [H3 H4].
  unfold storeAfter in H1, H2. split; congruence.
Qed.

Lemma alarmsOnly_forEach {A S} (l : list A) (f : A -> S -> M S) :
  (forall x acc, alarmsOnly (f x acc)) ->
  forall acc, alarmsOnly (forEach l f acc).
Proof.
  intros Hf. induction l as [|x t IH]; intros acc; cbn [forEach].
  - apply alarmsOnly_ret.
  - apply alarmsOnly_bind; [apply Hf | exact IH].
Qed.

Lemma alarmsOnly_resolveAlarm alarmId method :
  alarmsOnly (resolveAlarm alarmId method).
Proof.
  intros w s. rewrite resolveAlarm_run.
  destruct (find _ (alarms s)) as [a|]; [|split; reflexivity].
  destruct (AlarmState_eqb (alarm_state a) ACTIVE); split; reflexivity.
Qed.

Lemma alarmsOnly_dismissAlarm alarmId : alarmsOnly (dismissAlarm alarmId).
Proof.
  intros w s. rewrite dismissAlarm_run.
  destruct (find _ (alarms s)) as [a|]; [|split; reflexivity].
  destruct (AlarmState_eqb (alarm_state a) ACTIVE); split; reflexivity.
Qed.

Lemma alarmsOnly_autoResolveAlarms monitor state :
  alarmsOnly (autoResolveAlarms monitor state).
Proof.
  unfold autoResolveAlarms.
  destruct (MonitorState_eqb (ms_state state) OK); [|apply alarmsOnly_ret].
  apply alarmsOnly_bind; [intros w s; split; reflexivity|].
  intros l. apply alarmsOnly_forEach. intros x acc.
  apply alarmsOnly_resolveAlarm.
Qed.

Lemma autoResolveAlarms_ids monitor state w s :
  NoDup (map alarm_id (alarms s)) ->
  map alarm_id (alarms (storeAfter (autoResolveAlarms monitor state w s)))
  = map alarm_id (alarms s).
Proof.
  intros Hnd. destruct (ms_state state) eqn:Est.
  - destruct (autoResolveAlarms_OK monitor state w s Hnd Est)
      as [w' [f [-> Hf]]].
    unfold storeAfter. cbn [snd alarms withAlarms].
    rewrite map_map. apply map_ext_in. intros a Ha.
    eapply autoResolved_id, Hf, Ha.
  - now rewrite (autoResolveAlarms_IN_ALARM monitor state w s Est).
Qed.

(** The two other arrays after one evaluation, whatever its outcome. *)
Lemma evaluateMonitor_writes src monitor campaign w s :
  let r := evaluateMonitor src monitor campaign w s in
  metricValues (storeAfter r) = metricValues s
  /\ match outcomeOf r with
     | Ok res =>
         monitorStates (storeAfter r)
         = upsert ms_monitorId (er_state res) (monitorStates s)
         /\ ms_monitorId (er_state res) = monitor_id monitor
         /\ alarms (storeAfter r)
            = match er_alarm res with
              | Some a => upsert alarm_id a (alarms s)
              | None => alarms s
              end
     | Throw _ => storeAfter r = s
     end.
Proof.
  cbv zeta. pose proof (evaluateMonitor_cases src monitor campaign w s) as H.
  destruct (evaluateMonitor src monitor campaign w s) as [[[res|e] w'] s'].
  - unfold storeAfter, outcomeOf. cbn [fst snd].
    destruct H as [Hid [_ [_ [_ Halarm]]]].
    destruct (er_alarm res) as [a|].
    + destruct Halarm as [_ [_ [_ [_ [_ [_ ->]]]]]].
      repeat split; try reflexivity. exact Hid.
    + destruct Halarm as [_ ->]. repeat split; try reflexivity. exact Hid.
  - unfold storeAfter, outcomeOf. cbn [fst snd]. subst s'. split; reflexivity.
Qed.

Lemma WellKeyed_evaluateMonitor src monitor campaign w s :
  WellKeyed s ->
  WellKeyed (storeAfter (evaluateMonitor src monitor campaign w s)).
Proof.
  intros [Hst Hal].
  destruct (evaluateMonitor_writes src monitor campaign w s) as [_ H].
  destruct (outcomeOf (evaluateMonitor src monitor campaign w s)) as [res|e].
  - destruct H as [Hs [_ Ha]]. split.
    + rewrite Hs. apply upsert_NoDup, Hst.
    + rewrite Ha. destruct (er_alarm res); [apply upsert_NoDup|]; exact Hal.
  - rewrite H. split; assumption.
Qed.

Lemma WellKeyed_autoResolveAlarms monitor state w s :
  WellKeyed s -> WellKeyed (storeAfter (autoResolveAlarms monitor state w s)).
Proof.
  intros [Hst Hal]. split.
  - now rewrite (proj1 (alarmsOnly_autoResolveAlarms monitor state w s)).
  - now rewrite autoResolveAlarms_ids.
Qed.

Lemma WellKeyed_loop src campaign monitors :
  forall states0 alarms0 w s,
    WellKeyed s ->
    WellKeyed (storeAfter (evaluateAllMonitors_loop src campaign monitors
                             states0 alarms0 w s)).
Proof.
  induction monitors as [|monitor rest IH]; intros states0 alarms0 w s Hk.
  - exact Hk.
  - destruct (enabled monitor) eqn:Een.
    + rewrite (loop_enabled _ _ _ _ _ _ _ _ Een).
      pose proof (WellKeyed_evaluateMonitor src monitor campaign w s Hk) as H1.
      destruct (evaluateMonitor src monitor campaign w s)
        as [[[res|e] w1] s1]; unfold storeAfter in H1; cbn [snd] in H1;
        [|exact H1].
      pose proof (WellKeyed_autoResolveAlarms monitor (er_state res) w1 s1 H1)
        as H2.
      destruct (autoResolveAlarms monitor (er_state res) w1 s1)
        as [[[[]|e] w2] s2]; unfold storeAfter in H2; cbn [snd] in H2;
        [apply IH, H2 | exact H2].
    + rewrite (loop_disabled _ _ _ _ _ _ _ _ Een). apply IH, Hk.
Qed.

Lemma WellKeyed_settle s (w' : World) l :
  WellKeyed s ->
  map alarm_id l = map alarm_id (alarms s) ->
  WellKeyed (storeAfter (Ok tt, w', withAlarms s l)).
Proof.
  intros [Hst Hal] Hids. split; [exact Hst|].
  unfold storeAfter. cbn [snd alarms withAlarms]. now rewrite Hids.
Qed.

(** X8: along any sequence of engine calls from the empty store (direct
    evaluations included), the store never holds two state records for one
    monitor, nor two alarms with one id. *)
Theorem records_stay_keyed :
  forall src ops,
    let s := run src ops emptyStore in
    NoDup (map ms_monitorId (monitorStates s))
    /\ NoDup (map alarm_id (alarms s)).
Proof.
  intros src ops. cbv zeta.
  assert (H : forall s, WellKeyed s -> WellKeyed (run src ops s)).
  { induction ops as [|op rest IH]; intros s Hk; [exact Hk|].
    unfold run. simpl. apply IH. destruct op; simpl.
    - apply WellKeyed_evaluateMonitor, Hk.
    - apply WellKeyed_loop, Hk.
    - destruct (resolveAlarm_spec alarmId method w s (proj2 Hk)) as [w' ->].
      apply (WellKeyed_settle s w' _ Hk), settle_ids.
    - destruct (dismissAlarm_spec alarmId w s (proj2 Hk)) as [w' ->].
      apply (WellKeyed_settle s w' _ Hk), settle_ids.
    - exact Hk. }
  apply H. split; constructor.
Qed.

Lemma getMonitorState_run id w s :
  getMonitorState id w s
  = (Ok (find (fun st => ms_monitorId st =? id) (monitorStates s)), w, s).
Proof. reflexivity. Qed.

(** X9: what an evaluation returns is what it stored: afterwards
    [getMonitorState] yields the returned state for the monitor and what it
    yielded before for every other monitor, [getAlarm] yields the returned
    alarm under its id, and the metric history is as it was. *)
Theorem evaluation_is_stored :
  forall src monitor campaign w s res w' s',
    evaluateMonitor src monitor campaign w s = (Ok res, w', s') ->
    outcomeOf (getMonitorState (monitor_id monitor) w' s')
    = Ok (Some (er_state res))
    /\ (forall id, id <> monitor_id monitor ->
                   outcomeOf (getMonitorState id w' s')
                   = outcomeOf (getMonitorState id w' s))
    /\ (forall a, er_alarm res = Some a ->
                  outcomeOf (getAlarm (alarm_id a) w' s') = Ok (Some a))
    /\ metricValues s' = metricValues s.
Proof.
  intros src monitor campaign w s res w' s' Hev.
  destruct (evaluateMonitor_writes src monitor campaign w s) as [Hm H].
  rewrite Hev in Hm, H. unfold storeAfter, outcomeOf in Hm, H.
  cbn [fst snd] in Hm, H. destruct H as [Hs [Hid Ha]].
  unfold outcomeOf. rewrite !getMonitorState_run. cbn [fst snd].
  split; [|split; [|split]].
  - rewrite Hs, <- Hid. now rewrite (find_upsert_same ms_monitorId).
  - intros id Hne. rewrite !getMonitorState_run. cbn [fst snd].
    rewrite Hs. rewrite (find_upsert_other ms_monitorId); [reflexivity|].
    congruence.
  - intros a Hsome. rewrite getAlarm_run. cbn [fst snd].
    rewrite Ha, Hsome. now rewrite (find_upsert_same alarm_id).
  - exact Hm.
Qed.

Lemma evaluation_is_stored_witness :
  let r := evaluateMonitor Simulation.source Sample.cpa Sample.shoes
             (Sample.world 0 0 0) emptyStore in
  exists res,
    outcomeOf r = Ok res
    /\ outcomeOf (getMonitorState "m-cpa" (worldAfter r) (storeAfter r))
       = Ok (Some (er_state res)).
Proof.
  cbv zeta. eexists. split; [vm_compute; reflexivity|].
  refine (proj1 (evaluation_is_stored Simulation.source Sample.cpa
                   Sample.shoes (Sample.world 0 0 0) emptyStore _ _ _ _)).
  vm_compute. reflexivity.
Defined.

Lemma loop_writes src campaign monitorId monitors :
  forall states0 alarms0 w s,
    let s' := storeAfter (evaluateAllMonitors_loop src campaign monitors
                            states0 alarms0 w s) in
    metricValues s' = metricValues s
    /\ (~ In monitorId (map monitor_id (filter enabled monitors)) ->
        find (fun st => ms_monitorId st =? monitorId) (monitorStates s')
        = find (fun st => ms_monitorId st =? monitorId) (monitorStates s)).
Proof.
  induction monitors as [|monitor rest IH]; intros states0 alarms0 w s;
    cbv zeta.
  - split; reflexivity.
  - destruct (enabled monitor) eqn:Een.
    + rewrite (loop_enabled _ _ _ _ _ _ _ _ Een).
      destruct (evaluateMonitor_writes src monitor campaign w s) as [Hm H].
      destruct (evaluateMonitor src monitor campaign w s)
        as [[[res|e] w1] s1]; unfold storeAfter, outcomeOf in *;
        cbn [fst snd] in *.
      * destruct H as [Hs [Hid _]].
        destruct (alarmsOnly_autoResolveAlarms monitor (er_state res) w1 s1)
          as [Hs2 Hm2].
        unfold storeAfter in Hs2, Hm2.
        destruct (autoResolveAlarms monitor (er_state res) w1 s1)
          as [[[[]|e] w2] s2]; cbn [snd] in *.
        -- destruct (IH (push states0 (er_state res))
                       (match er_alarm res with
                        | Some a => push alarms0 a
                        | None => alarms0
                        end) w2 s2) as [IHm IHs].
           unfold storeAfter in IHm, IHs.
           split; [congruence|].
           intros Hnot. simpl in Hnot. rewrite Een in Hnot. simpl in Hnot.
           rewrite IHs by tauto. rewrite Hs2, Hs.
           apply find_upsert_other. rewrite Hid. tauto.
        -- split; [congruence|].
           intros Hnot. simpl in Hnot. rewrite Een in Hnot. simpl in Hnot.
           rewrite Hs2, Hs. apply find_upsert_other. rewrite Hid. tauto.
      * subst s1. split; reflexivity.
    + rewrite (loop_disabled _ _ _ _ _ _ _ _ Een).
      destruct (IH states0 alarms0 w s) as [IHm IHs].
      split; [exact IHm|]. intros Hnot. simpl in Hnot. rewrite Een in Hnot.
      exact (IHs Hnot).
Qed.

(** X10: no engine call writes the metric history: after any sequence of
    evaluations, batches, resolutions and dismissals the stored samples are
    the ones the sequence started with. *)
Theorem engine_never_writes_history :
  forall src ops s,
    forallb engineCall ops = true ->
    metricValues (run src ops s) = metricValues s.
Proof.
  intros src ops. induction ops as [|op rest IH]; intros s Hops;
    [reflexivity|].
  simpl in Hops. apply andb_true_iff in Hops. destruct Hops as [Hop Hrest].
  unfold run. simpl. fold (run src rest (applyOperation src s op)).
  rewrite (IH _ Hrest). destruct op; simpl; try discriminate Hop.
  - apply (evaluateMonitor_writes src monitor campaign w s).
  - apply (loop_writes src campaign "" monitors [] [] w s).
  - apply (alarmsOnly_resolveAlarm alarmId method w s).
  - apply (alarmsOnly_dismissAlarm alarmId w s).
Qed.

Lemma engine_never_writes_history_witness :
  metricValues
    (run Simulation.source (tl Sample.batchEvaluations)
       (saveMetricValues [Sample.ctrSample] emptyStore))
  = [Sample.ctrSample].
Proof.
  apply (engine_never_writes_history Simulation.source
           (tl Sample.batchEvaluations)
           (saveMetricValues [Sample.ctrSample] emptyStore)).
  reflexivity.
Defined.

Lemma loop_frame_any src campaign monitorId monitors :
  forall states0 alarms0 w s a,
    NoDup (map alarm_id (alarms s)) ->
    ~ In monitorId (map monitor_id (filter enabled monitors)) ->
    alarm_monitorId a = monitorId ->
    In a (alarms (storeAfter (evaluateAllMonitors_loop src campaign monitors
                                states0 alarms0 w s))) ->
    In a (alarms s).
Proof.
  induction monitors as [|monitor rest IH];
    intros states0 alarms0 w s a Hnd Hnot Hmon.
  - intros H. exact H.
  - destruct (enabled monitor) eqn:Een.
    + rewrite (loop_enabled _ _ _ _ _ _ _ _ Een).
      simpl in Hnot. rewrite Een in Hnot. simpl in Hnot.
      destruct (evaluateMonitor src monitor campaign w s)
        as [[[res|e] w1] s1] eqn:Ev.
      * destruct (turn_spec _ _ _ _ _ _ _ _ Hnd Ev)
          as [w2 [s2 [Hauto [Hnd2 [_ [_ [_ Hback]]]]]]].
        rewrite Hauto. intros Ha. apply Hback.
        -- rewrite Hmon. intros Heq. apply Hnot. left. congruence.
        -- exact (IH _ _ _ _ a Hnd2 (fun H => Hnot (or_intror H)) Hmon Ha).
      * apply evaluateMonitor_throw in Ev. subst s1. intros H. exact H.
    + rewrite (loop_disabled _ _ _ _ _ _ _ _ Een).
      simpl in Hnot. rewrite Een in Hnot. now apply IH.
Qed.

(** X11: a batch leaves alone the monitors it does not evaluate.  For a
    monitor that is disabled or not in the list, the stored state after the
    batch is the one before it, and (on a store with distinct alarm ids)
    every alarm of that monitor found afterwards was there before, as it is:
    none is created and none is resolved.  This holds also when the batch
    fails part-way. *)
Theorem batch_leaves_other_monitors_alone :
  forall src campaign monitors w s monitorId,
    ~ In monitorId (map monitor_id (filter enabled monitors)) ->
    let s' := storeAfter (evaluateAllMonitors src campaign monitors w s) in
    find (fun st => ms_monitorId st =? monitorId) (monitorStates s')
    = find (fun st => ms_monitorId st =? monitorId) (monitorStates s)
    /\ (NoDup (map alarm_id (alarms s)) ->
        forall a, alarm_monitorId a = monitorId ->
                  In a (alarms s') -> In a (alarms s)).
Proof.
  intros src campaign monitors w s monitorId Hnot. cbv zeta.
  unfold evaluateAllMonitors. split.
  - exact (proj2 (loop_writes src campaign monitorId monitors [] [] w s) Hnot).
  - intros Hnd a Hmon. now apply (loop_frame_any src campaign monitorId).
Qed.

Lemma batch_leaves_other_monitors_alone_witness :
  let s := run Simulation.source (firstn 2 Sample.batchEvaluations) emptyStore in
  let s' := storeAfter (evaluateAllMonitors Simulation.source Sample.shoes
                          [Sample.ctr; More.pausedCpa]
                          (Sample.world 0.9 3 2) s) in
  find (fun st => ms_monitorId st =? "m-cpa") (monitorStates s')
  = find (fun st => ms_monitorId st =? "m-cpa") (monitorStates s).
Proof.
  cbv zeta.
  apply (batch_leaves_other_monitors_alone Simulation.source Sample.shoes
           [Sample.ctr; More.pausedCpa] (Sample.world 0.9 3 2)).
  simpl. intros [H|[]]. discriminate H.
Defined.

(** ** Resolving and dismissing *)

Lemma upsert_In_keep {A} (key : A -> string) x l b :
  In b l ->
  (forall y, find (fun z => key z =? key x) l = Some y -> y <> b) ->
  In b (upsert key x l).
Proof.
  induction l as [|z t IH]; simpl; [tauto|].
  destruct (key z =? key x) eqn:E.
  - intros [->|Hin] Hf; [now destruct (Hf b eq_refl)|]. now right.
  - intros [->|Hin] Hf; [now left|]. right. now apply IH.
Qed.

(** X12: resolving or dismissing an Active alarm settles that alarm and
    nothing else.  Afterwards the store holds, under the same id, the same
    record with its state set to Resolved (or Dismissed), [resolvedAt] set
    to the time of the call and the resolution method recorded; severity,
    trigger time, values, impact and insights are the ones it had; alarms
    with another id are all still there, and the array keeps its length. *)
Theorem settling_an_active_alarm :
  forall alarmId method w s a,
    find (fun b => alarm_id b =? alarmId) (alarms s) = Some a ->
    alarm_state a = ACTIVE ->
    let now := iso (clock w (clockPos w)) in
    let sr := storeAfter (resolveAlarm alarmId method w s) in
    let sd := storeAfter (dismissAlarm alarmId w s) in
    (exists a',
        find (fun b => alarm_id b =? alarmId) (alarms sr) = Some a'
        /\ alarm_state a' = RESOLVED /\ resolvedAt a' = Some now
        /\ resolutionMethod a' = Some method
        /\ a' = set_resolution a RESOLVED now method
        /\ severity a' = severity a /\ triggeredAt a' = triggeredAt a
        /\ deviationPercent a' = deviationPercent a
        /\ estimatedImpactUSD a' = estimatedImpactUSD a
        /\ insights a' = insights a)
    /\ (exists a',
           find (fun b => alarm_id b =? alarmId) (alarms sd) = Some a'
           /\ alarm_state a' = DISMISSED /\ resolvedAt a' = Some now
           /\ resolutionMethod a' = Some BY_DISMISSAL
           /\ a' = set_resolution a DISMISSED now BY_DISMISSAL)
    /\ (forall b, In b (alarms s) -> alarm_id b <> alarmId ->
                  In b (alarms sr) /\ In b (alarms sd))
    /\ List.length (alarms sr) = List.length (alarms s)
    /\ List.length (alarms sd) = List.length (alarms s).
Proof.
  intros alarmId method w s a Hfind Hact. cbv zeta.
  rewrite resolveAlarm_run, dismissAlarm_run, Hfind, Hact.
  change (AlarmState_eqb ACTIVE ACTIVE) with true. cbv iota.
  unfold storeAfter. cbn [snd alarms withAlarms].
  pose proof (find_some _ _ Hfind) as [Hin Hid].
  apply String.eqb_eq in Hid. subst alarmId.
  assert (Hex : existsb (fun y => alarm_id y =? alarm_id a) (alarms s) = true).
  { apply existsb_exists. exists a. split; [exact Hin|].
    now apply String.eqb_eq. }
  split; [|split; [|split; [|split]]].
  - eexists. split.
    + exact (find_upsert_same alarm_id
               (set_resolution a RESOLVED _ method) (alarms s)).
    + repeat split.
  - eexists. split.
    + exact (find_upsert_same alarm_id
               (set_resolution a DISMISSED _ BY_DISMISSAL) (alarms s)).
    + repeat split.
  - intros b Hb Hne. split; apply upsert_In_other; try exact Hb;
      simpl; congruence.
  - rewrite upsert_length. simpl alarm_id. now rewrite Hex.
  - rewrite upsert_length. simpl alarm_id. now rewrite Hex.
Qed.

Lemma settling_an_active_alarm_witness :
  let s := run Simulation.source Sample.batchEvaluations emptyStore in
  let w := Sample.world 0 9 3 in
  exists a',
    find (fun b => alarm_id b =? "alarm-2")
         (alarms (storeAfter (resolveAlarm "alarm-2" USER_ACTION w s)))
    = Some a'
    /\ alarm_state a' = RESOLVED
    /\ resolvedAt a' = Some "2024-03-09".
Proof.
  cbv zeta.
  destruct (find (fun b => alarm_id b =? "alarm-2")
              (alarms (run Simulation.source Sample.batchEvaluations
                         emptyStore))) as [a|] eqn:Ha.
  2: { vm_compute in Ha. discriminate Ha. }
  assert (Hact : alarm_state a = ACTIVE).
  { vm_compute in Ha. injection Ha as <-. reflexivity. }
  destruct (settling_an_active_alarm "alarm-2" USER_ACTION
              (Sample.world 0 9 3) _ a Ha Hact)
    as [[a' [Hf [Hst [Hat _]]]] _].
  exists a'. split; [exact Hf|]. split; [exact Hst|]. exact Hat.
Defined.

(** X13: a settled alarm is final.  An alarm that is Resolved or Dismissed
    is left as it is by every later [resolveAlarm] and [dismissAlarm],
    whatever id they are given, and by every batch (on a store with
    distinct ids), unless an alarm created by that batch is given its id. *)
Theorem settled_alarms_are_final :
  forall b s,
    In b (alarms s) ->
    alarm_state b <> ACTIVE ->
    (forall alarmId method w,
        In b (alarms (storeAfter (resolveAlarm alarmId method w s))))
    /\ (forall alarmId w,
           In b (alarms (storeAfter (dismissAlarm alarmId w s))))
    /\ (forall src campaign monitors w result w' s',
           NoDup (map alarm_id (alarms s)) ->
           evaluateAllMonitors src campaign monitors w s = (Ok result, w', s') ->
           (forall new, In new (newAlarms result) ->
                        alarm_id new <> alarm_id b) ->
           In b (alarms s')).
Proof.
  intros b s Hb Hst.
  assert (Hkeep : forall alarmId x,
             (forall y, find (fun a => alarm_id a =? alarmId) (alarms s)
                        = Some y -> alarm_state y = ACTIVE
                        -> alarm_id x = alarmId) ->
             match find (fun a => alarm_id a =? alarmId) (alarms s) with
             | Some y => alarm_state y = ACTIVE -> In b (upsert alarm_id x (alarms s))
             | None => True
             end).
  { intros alarmId x Hx.
    destruct (find (fun a => alarm_id a =? alarmId) (alarms s)) as [y|] eqn:E;
      [|exact I].
    intros Hy. apply upsert_In_keep; [exact Hb|].
    intros z Hz. rewrite (Hx y eq_refl Hy) in Hz.
    rewrite E in Hz. injection Hz as <-. congruence. }
  split; [|split].
  - intros alarmId method w. rewrite resolveAlarm_run.
    pose proof (Hkeep alarmId) as Hk.
    destruct (find (fun a => alarm_id a =? alarmId) (alarms s)) as [y|] eqn:E;
      [|exact Hb].
    destruct (AlarmState_eqb (alarm_state y) ACTIVE) eqn:Ey; [|exact Hb].
    apply AlarmState_eqb_eq in Ey. unfold storeAfter. cbn [snd alarms withAlarms].
    apply Hk; [|exact Ey]. intros y' Hy' _. injection Hy' as <-.
    apply find_some in E. destruct E as [_ E]. now apply String.eqb_eq in E.
  - intros alarmId w. rewrite dismissAlarm_run.
    pose proof (Hkeep alarmId) as Hk.
    destruct (find (fun a => alarm_id a =? alarmId) (alarms s)) as [y|] eqn:E;
      [|exact Hb].
    destruct (AlarmState_eqb (alarm_state y) ACTIVE) eqn:Ey; [|exact Hb].
    apply AlarmState_eqb_eq in Ey. unfold storeAfter. cbn [snd alarms withAlarms].
    apply Hk; [|exact Ey]. intros y' Hy' _. injection Hy' as <-.
    apply find_some in E. destruct E as [_ E]. now apply String.eqb_eq in E.
  - intros src campaign monitors w result w' s' Hnd Hrun Hfresh.
    unfold evaluateAllMonitors in Hrun.
    exact (loop_keeps_settled _ _ _ _ _ _ _ _ _ _ _ Hnd Hrun Hb Hst Hfresh).
Qed.

Lemma settled_alarms_are_final_witness :
  let s := storeAfter (saveAlarm More.settled (Sample.world 0 0 0) emptyStore) in
  In More.settled
     (alarms (storeAfter (dismissAlarm "alarm-8" (Sample.world 0 1 0) s))).
Proof.
  cbv zeta.
  apply (settled_alarms_are_final More.settled).
  - left. reflexivity.
  - discriminate.
Defined.

(** ** Reading the metric history *)

Lemma insert_by_perm {A} (key : A -> Z) x l :
  Permutation (insert_by key x l) (x :: l).
Proof.
  induction l as [|y t IH]; simpl; [reflexivity|].
  destruct (key x <=? key y)%Z; [reflexivity|].
  rewrite IH. apply perm_swap.
Qed.

Lemma sort_by_perm {A} (key : A -> Z) l : Permutation (sort_by key l) l.
Proof.
  induction l as [|x t IH]; simpl; [reflexivity|].
  rewrite insert_by_perm. now constructor.
Qed.

Lemma insert_by_sorted {A} (key : A -> Z) x l :
  StronglySorted (fun a b => (key a <= key b)%Z) l ->
  StronglySorted (fun a b => (key a <= key b)%Z) (insert_by key x l).
Proof.
  induction l as [|y t IH]; simpl; intros Hs.
  - constructor; constructor.
  - apply StronglySorted_inv in Hs. destruct Hs as [Ht Hy].
    destruct (key x <=? key y)%Z eqn:E.
    + apply Z.leb_le in E. constructor.
      * now constructor.
      * constructor; [exact E|].
        rewrite Forall_forall in *. intros z Hz. specialize (Hy z Hz). lia.
    + apply Z.leb_gt in E. constructor; [now apply IH|].
      rewrite Forall_forall in *. intros z Hz.
      apply (Permutation_in _ (insert_by_perm key x t)) in Hz.
      destruct Hz as [<-|Hz]; [lia | now apply Hy].
Qed.

Lemma sort_by_sorted {A} (key : A -> Z) l :
  StronglySorted (fun a b => (key a <= key b)%Z) (sort_by key l).
Proof.
  induction l as [|x t IH]; simpl; [constructor|].
  now apply insert_by_sorted.
Qed.

Lemma insert_by_stable {A} (key : A -> Z) x l k :
  filter (fun a => (key a =? k)%Z) (insert_by key x l)
  = filter (fun a => (key a =? k)%Z) (x :: l).
Proof.
  induction l as [|y t IH]; [reflexivity|].
  cbn [insert_by]. destruct (key x <=? key y)%Z eqn:E; [reflexivity|].
  apply Z.leb_gt in E. cbn [filter] in *.
  rewrite IH.
  destruct (key x =? k)%Z eqn:Ex, (key y =? k)%Z eqn:Ey; try reflexivity.
  apply Z.eqb_eq in Ex, Ey. lia.
Qed.

Lemma sort_by_stable {A} (key : A -> Z) l k :
  filter (fun a => (key a =? k)%Z) (sort_by key l)
  = filter (fun a => (key a =? k)%Z) l.
Proof.
  induction l as [|x t IH]; [reflexivity|].
  cbn [sort_by]. rewrite insert_by_stable. cbn [filter]. now rewrite IH.
Qed.

(** X14: [getMetricValuesByCampaignAndMetric] returns exactly the stored
    samples of that campaign and metric, each as often as it is stored,
    oldest first, samples with the same timestamp in the order they were
    stored; it never fails and leaves the store as it was. *)
Theorem metric_history_sorted_and_complete :
  forall campaignId metric w s,
    let r := getMetricValuesByCampaignAndMetric campaignId metric w s in
    let stored :=
      filter (fun v => (mv_campaignId v =? campaignId)
                       && (mv_metricId v =? metric)) (metricValues s) in
    storeAfter r = s
    /\ exists l,
         outcomeOf r = Ok l
         /\ StronglySorted
              (fun a b => (mv_timestamp a <= mv_timestamp b)%Z) l
         /\ Permutation l stored
         /\ (forall v, In v l <->
                       In v (metricValues s) /\ mv_campaignId v = campaignId
                       /\ mv_metricId v = metric)
         /\ (forall t,
                filter (fun v => (mv_timestamp v =? t)%Z) l
                = filter (fun v => (mv_timestamp v =? t)%Z) stored).
Proof.
  intros campaignId metric w s. cbv zeta.
  split; [reflexivity|].
  eexists. split; [reflexivity|].
  split; [apply sort_by_sorted|].
  split; [apply sort_by_perm|].
  split; [|intros t; apply sort_by_stable].
  intros v. split.
  - intros Hv. apply (Permutation_in _ (sort_by_perm _ _)) in Hv.
    apply filter_In in Hv. destruct Hv as [Hin Hb].
    apply andb_true_iff in Hb. destruct Hb as [H1 H2].
    apply String.eqb_eq in H1, H2. tauto.
  - intros [Hin [H1 H2]].
    apply (Permutation_in _ (Permutation_sym (sort_by_perm _ _))).
    apply filter_In. split; [exact Hin|].
    apply andb_true_iff. split; now apply String.eqb_eq.
Qed.

(** ** Computations that never throw *)

Lemma succeeds_ret {A} (a : A) : succeeds (ret a).
Proof. intros w s. now exists a, w, s. Qed.

Lemma succeeds_lift {A} (c : Ext A) : succeedsE c -> succeeds (lift c).
Proof.
  intros Hc w s. destruct (Hc w) as [a [w' E]].
  exists a, w', s. now rewrite lift_run, E.
Qed.

Lemma succeeds_bind {A B} (c : M A) (k : A -> M B) :
  succeeds c -> (forall a, succeeds (k a)) -> succeeds (bind c k).
Proof.
  intros Hc Hk w s. destruct (Hc w s) as [a [w' [s' E]]].
  rewrite (bind_ok _ _ _ _ _ _ _ E). apply Hk.
Qed.

Lemma succeeds_forEach {A S} (l : list A) (f : A -> S -> M S) :
  (forall x acc, succeeds (f x acc)) -> forall acc, succeeds (forEach l f acc).
Proof.
  intros Hf. induction l as [|x t IH]; intros acc; cbn [forEach].
  - apply succeeds_ret.
  - apply succeeds_bind; [apply Hf | exact IH].
Qed.

Lemma succeeds_if {A} (b : bool) (c1 c2 : M A) :
  succeeds c1 -> succeeds c2 -> succeeds (if b then c1 else c2).
Proof. now destruct b. Qed.

Lemma succeedsE_Math_random : succeedsE Math_random.
Proof. intros w. eexists _, _. reflexivity. Qed.

Lemma succeedsE_new_Date : succeedsE new_Date.
Proof. intros w. eexists _, _. reflexivity. Qed.

Lemma succeeds_resolveAlarm alarmId method :
  succeeds (resolveAlarm alarmId method).
Proof.
  intros w s. rewrite resolveAlarm_run.
  destruct (find _ (alarms s)) as [a|]; [|now eexists _, _, _].
  destruct (AlarmState_eqb _ _); now eexists _, _, _.
Qed.

Lemma succeeds_autoResolveAlarms monitor state :
  succeeds (autoResolveAlarms monitor state).
Proof.
  unfold autoResolveAlarms. apply succeeds_if; [|apply succeeds_ret].
  apply succeeds_bind; [intros w s; now eexists _, _, _|].
  intros l. apply succeeds_forEach. intros a acc. destruct acc.
  apply succeeds_resolveAlarm.
Qed.

Lemma succeeds_evaluateGranularDimensions src monitor campaign :
  (forall metric, succeedsE (generateExpectedValue src campaign metric)) ->
  succeeds (evaluateGranularDimensions src monitor campaign).
Proof.
  intros Hsrc. unfold evaluateGranularDimensions.
  destruct (granularDimensions monitor) as [dims|]; [|apply succeeds_ret].
  apply succeeds_forEach. intros dimension acc.
  apply succeeds_bind.
  - apply succeeds_if; [|apply succeeds_ret].
    apply succeeds_forEach. intros device acc'.
    apply succeeds_bind; [apply succeeds_lift, Hsrc | intros ?].
    apply succeeds_bind; [apply succeeds_lift, succeedsE_Math_random | intros ?].
    apply succeeds_bind; [apply succeeds_lift, succeedsE_Math_random | intros ?].
    apply succeeds_ret.
  - intros acc'. apply succeeds_if; [|apply succeeds_ret].
    apply succeeds_forEach. intros geo acc''.
    apply succeeds_bind; [apply succeeds_lift, Hsrc | intros ?].
    apply succeeds_bind; [apply succeeds_lift, succeedsE_Math_random | intros ?].
    apply succeeds_bind; [apply succeeds_lift, succeedsE_Math_random | intros ?].
    apply succeeds_ret.
Qed.

Lemma succeeds_evaluateMonitor src monitor campaign :
  (forall metric expected,
      succeedsE (generateCurrentMetricValue src campaign metric expected)) ->
  (forall metric, succeedsE (generateExpectedValue src campaign metric)) ->
  succeeds (evaluateMonitor src monitor campaign).
Proof.
  intros Hcur Hexp. unfold evaluateMonitor.
  apply succeeds_bind; [apply succeeds_lift, Hcur | intros current].
  apply succeeds_bind; [apply succeeds_lift, Hexp | intros expected].
  apply succeeds_bind; [apply succeeds_lift, succeedsE_new_Date | intros now].
  apply succeeds_bind; [intros w s; now eexists _, _, _ | intros previous].
  apply succeeds_bind.
  { destruct (monitorType monitor), (compositeConfig monitor);
      try apply succeeds_ret.
    apply succeeds_bind; [|intros r; apply succeeds_ret].
    intros w s.
    destruct (evaluateCompositeCondition_pure monitor campaign current
                expected s) as [r Hr].
    exists r, w, s. apply Hr. }
  intros st1. apply succeeds_bind.
  { destruct (monitorType monitor), (granularDimensions monitor);
      try apply succeeds_ret.
    apply succeeds_bind; [|intros d; apply succeeds_ret].
    now apply succeeds_evaluateGranularDimensions. }
  intros st2. apply succeeds_bind.
  { intros w s. rewrite saveMonitorState_run. now eexists _, _, _. }
  intros st3. apply succeeds_bind; [|intros a; apply succeeds_ret].
  apply succeeds_if; [|apply succeeds_ret].
  apply succeeds_bind; [|intros a; apply succeeds_ret].
  intros w s.
  destruct (createAlarmFromMonitor_run monitor campaign st3 w s)
    as [a [w' [E _]]].
  eexists _, _, _. exact E.
Qed.

Lemma succeeds_loop src campaign :
  (forall metric expected,
      succeedsE (generateCurrentMetricValue src campaign metric expected)) ->
  (forall metric, succeedsE (generateExpectedValue src campaign metric)) ->
  forall monitors states0 alarms0,
    succeeds (evaluateAllMonitors_loop src campaign monitors states0 alarms0).
Proof.
  intros Hcur Hexp monitors.
  induction monitors as [|monitor rest IH]; intros states0 alarms0;
    cbn [evaluateAllMonitors_loop].
  - apply succeeds_ret.
  - destruct (negb (enabled monitor)); [apply IH|].
    apply succeeds_bind; [now apply succeeds_evaluateMonitor | intros res].
    apply succeeds_bind; [apply succeeds_autoResolveAlarms | intros _].
    apply IH.
Qed.

Lemma succeedsE_shipped_current campaign metric expected :
  succeedsE (Simulation.generateCurrentMetricValue campaign metric expected).
Proof.
  intros w.
  unfold Simulation.generateCurrentMetricValue, Simulation.generateValue,
    Simulation.shouldGenerateAnomaly, Simulation.applyAnomaly, Date_now,
    new_Date, Math_random.
  cbn [bind ret Ext_Monad].
  destruct (Qgtb _ 0.2); cbn [bind ret Ext_Monad]; [now eexists _, _|].
  destruct (Qle_bool _ 12); cbn [bind ret Ext_Monad]; [|now eexists _, _].
  destruct (_ =? 0)%Z; cbn [bind ret Ext_Monad]; [now eexists _, _|].
  destruct (_ =? 1)%Z; cbn [bind ret Ext_Monad]; [now eexists _, _|].
  destruct (_ =? 2)%Z; cbn [bind ret Ext_Monad]; now eexists _, _.
Qed.

Lemma succeedsE_shipped_expected campaign metric :
  succeedsE (Simulation.generateExpectedValue campaign metric).
Proof. intros w. now eexists _, _. Qed.

(** X15: the engine fails only when the metric source does.  Over a source
    whose two functions never throw (the shipped simulation is one),
    [evaluateMonitor] and [evaluateAllMonitors] always return, whatever the
    store, the clock, the draws and the insight service do -- a rejected
    insight request included -- and the batch returns one state for each
    enabled monitor, in the order of the list. *)
Theorem engine_fails_only_with_the_source :
  forall src campaign,
    (forall metric expected,
        succeedsE (generateCurrentMetricValue src campaign metric expected)) ->
    (forall metric, succeedsE (generateExpectedValue src campaign metric)) ->
    (forall monitor, succeeds (evaluateMonitor src monitor campaign))
    /\ (forall monitors w s,
           exists result w' s',
             evaluateAllMonitors src campaign monitors w s
             = (Ok result, w', s')
             /\ map ms_monitorId (states result)
                = map monitor_id (filter enabled monitors)).
Proof.
  intros src campaign Hcur Hexp. split.
  - intros monitor. now apply succeeds_evaluateMonitor.
  - intros monitors w s.
    destruct (succeeds_loop src campaign Hcur Hexp monitors [] [] w s)
      as [result [w' [s' E]]].
    exists result, w', s'. split; [exact E|].
    destruct (loop_results _ _ _ _ _ _ _ _ _ _ E) as [sts [created [H1 [_ H3]]]].
    rewrite H1. exact H3.
Qed.

Lemma engine_fails_only_with_the_source_witness :
  exists result w' s',
    evaluateAllMonitors Simulation.source Sample.shoes
      [Sample.ctr; More.pausedCpa; Sample.impressions]
      (Sample.world 0.5 0 0) emptyStore
    = (Ok result, w', s')
    /\ map ms_monitorId (states result) = ["m-ctr"; "m-imp"].
Proof.
  apply (engine_fails_only_with_the_source Simulation.source Sample.shoes).
  - intros metric expected. apply succeedsE_shipped_current.
  - intros metric. apply succeedsE_shipped_expected.
Defined.

(** ** The values an evaluation stores *)

(** The current and the expected value of the stored state are the two
    readings of the metric source, taken in that order, the first with an
    expected value of [0]. *)
Lemma evaluateMonitor_readings src monitor campaign w s res w' s' :
  evaluateMonitor src monitor campaign w s = (Ok res, w', s') ->
  exists w1 w2,
    generateCurrentMetricValue src campaign (metricId monitor) 0 w
    = (Ok (ms_currentValue (er_state res)), w1)
    /\ generateExpectedValue src campaign (metricId monitor) w1
       = (Ok (ms_expectedValue (er_state res)), w2).
Proof.
  unfold evaluateMonitor.
  rewrite bind_run, lift_run.
  destruct (generateCurrentMetricValue src campaign (metricId monitor) 0 w)
    as [[current|e] w1]; cbn [fst snd]; [|intros H; discriminate H].
  rewrite bind_run, lift_run.
  destruct (generateExpectedValue src campaign (metricId monitor) w1)
    as [[expected|e] w2] eqn:Ee; cbn [fst snd]; [|intros H; discriminate H].
  rewrite bind_run, lift_run. unfold new_Date. cbn [fst snd].
  unfold getMonitorState, getMonitorStates, getCookie.
  rewrite !bind_run. cbn [ret M_Monad].
  set (w3 := Build_World _ _ _ _ _ _ _ _).
  destruct (evaluateCompositeCondition_pure monitor campaign current expected s)
    as [r Hr].
  destruct (evaluateGranularDimensions src monitor campaign w3 s)
    as [[[d|e] w4] s4] eqn:Eg.
  all: destruct (monitorType monitor) eqn:Ety;
    destruct (compositeConfig monitor) as [cfg|] eqn:Ecfg;
    destruct (granularDimensions monitor) as [dims|] eqn:Edims;
    rewrite ?bind_run, ?Hr, ?Eg; cbn [ret M_Monad];
    rewrite ?bind_run, ?saveMonitorState_run;
    try (intros H; discriminate H);
    cbn [ms_state set_updatedAt set_composite set_dimensions];
    match goal with
    | |- context [if ?b then bind _ _ else _] => destruct b
    end;
    rewrite ?bind_run;
    try match goal with
      | |- context [createAlarmFromMonitor ?m ?c ?st ?w ?s] =>
          destruct (createAlarmFromMonitor_run m c st w s)
            as [a [wa [Ea _]]];
          rewrite Ea
      end;
    cbn [ret M_Monad];
    intros H; injection H as <- _ _; exists w1, w2;
    (split; [reflexivity | exact Ee]).
Qed.

Lemma baseline_positive v o metric x :
  Simulation.lookup metric (Simulation.BASELINE_VALUES v o) = Some x ->
  (0 < x)%Q.
Proof.
  destruct v, o; cbn [Simulation.BASELINE_VALUES Simulation.lookup];
    repeat match goal with
      | |- (if ?b then _ else _) = _ -> _ =>
          destruct b; [intros H; injection H as <-; reflexivity|]
      end;
    intros H; discriminate H.
Qed.

(** The baseline [generateExpectedValue] scales for a metric that is not
    named like a member of [Object.prototype]: the table entry, [100] for a
    metric the table has no entry for. *)
Lemma shipped_expected_run campaign metric w :
  Simulation.inherited metric = false ->
  exists base,
    Simulation.generateExpectedValue campaign metric w
    = (Ok (base * (0.9 + random w (randomPos w) * 0.2))%Q,
       snd (Math_random w))
    /\ (0 < base)%Q
    /\ base
       = match Simulation.lookup metric
                 (Simulation.BASELINE_VALUES (vertical campaign)
                    (objective campaign)) with
         | Some x => x
         | None => 100%Q
         end.
Proof.
  intros Hown.
  unfold Simulation.generateExpectedValue, Simulation.getProperty.
  destruct (Simulation.lookup metric _) as [x|] eqn:E.
  - apply baseline_positive in E. cbn [Simulation.orElse].
    destruct (Qeq_bool x 0) eqn:E0.
    + apply Qeq_bool_eq in E0. rewrite E0 in E. now apply Qlt_irrefl in E.
    + exists x. split; [reflexivity|]. split; [exact E | reflexivity].
  - rewrite Hown. exists 100%Q. split; [reflexivity|]. split; reflexivity.
Qed.

Lemma shipped_current_run campaign metric w :
  exists v w',
    Simulation.generateCurrentMetricValue campaign metric 0 w = (Ok v, w')
    /\ (v == 0)%Q /\ random w' = random w.
Proof.
  unfold Simulation.generateCurrentMetricValue, Simulation.generateValue,
    Simulation.shouldGenerateAnomaly, Simulation.applyAnomaly, Date_now,
    new_Date, Math_random.
  cbn [bind ret Ext_Monad].
  destruct (Qgtb _ 0.2); cbn [bind ret Ext_Monad].
  - eexists _, _. split; [reflexivity|].
    split; [apply Math_max_zero; ring | reflexivity].
  - destruct (Qle_bool _ 12); cbn [bind ret Ext_Monad].
    + destruct (_ =? 0)%Z; cbn [bind ret Ext_Monad];
        [eexists _, _; split; [reflexivity|];
         split; [apply Math_max_zero; ring | reflexivity]|].
      destruct (_ =? 1)%Z; cbn [bind ret Ext_Monad];
        [eexists _, _; split; [reflexivity|];
         split; [apply Math_max_zero; ring | reflexivity]|].
      destruct (_ =? 2)%Z; cbn [bind ret Ext_Monad];
        eexists _, _; (split; [reflexivity|]);
        (split; [apply Math_max_zero; ring | reflexivity]).
    + eexists _, _. split; [reflexivity|].
      split; [apply Math_max_zero; ring | reflexivity].
Qed.

Lemma deviation_of_zero current expected :
  (current == 0)%Q -> (0 < expected)%Q ->
  (calculateDeviation current expected == - (100))%Q.
Proof.
  intros Hc He.
  rewrite calculateDeviation_nonzero.
  - rewrite Hc. field. intros H. rewrite H in He. now apply Qlt_irrefl in He.
  - intros H. rewrite H in He. now apply Qlt_irrefl in He.
Qed.

Lemma calculateSeverity_critical d :
  (60 <= Qabs d)%Q -> calculateSeverity d = CRITICAL.
Proof.
  intros H. unfold calculateSeverity.
  apply Qgeb_true in H. now rewrite H.
Qed.

Lemma adjustment_lower (r : Q) : (0 <= r)%Q -> (0.9 <= 0.9 + r * 0.2)%Q.
Proof.
  intros Hr. rewrite <- (Qplus_0_r 0.9) at 1. apply Qplus_le_r.
  apply Qmult_le_0_compat; [exact Hr | discriminate].
Qed.

Lemma shipped_expected_positive campaign metric w v w' :
  Simulation.inherited metric = false ->
  (0 <= random w (randomPos w))%Q ->
  Simulation.generateExpectedValue campaign metric w = (Ok v, w') ->
  (0 < v)%Q.
Proof.
  intros Hown Hr E.
  destruct (shipped_expected_run campaign metric w Hown) as [base [E' [Hb _]]].
  rewrite E' in E. injection E as <- _.
  apply Qmult_lt_0_compat; [exact Hb|].
  apply Qlt_le_trans with 0.9%Q; [reflexivity | now apply adjustment_lower].
Qed.

(** ** The draws to come *)

Lemma keepsDraws_ret {A} (a : A) : keepsDraws (ret a).
Proof. intros w s. reflexivity. Qed.

Lemma keepsDraws_lift {A} (c : Ext A) : keepsDrawsE c -> keepsDraws (lift c).
Proof. intros Hc w s. rewrite lift_run. apply Hc. Qed.

Lemma keepsDraws_bind {A B} (c : M A) (k : A -> M B) :
  keepsDraws c -> (forall a, keepsDraws (k a)) -> keepsDraws (bind c k).
Proof.
  intros Hc Hk w s. rewrite bind_run. specialize (Hc w s).
  destruct (c w s) as [[[a|e] w'] s']; unfold worldAfter in *; simpl in *.
  - rewrite <- Hc. apply (Hk a w' s').
  - exact Hc.
Qed.

Lemma keepsDraws_forEach {A S} (l : list A) (f : A -> S -> M S) :
  (forall x acc, keepsDraws (f x acc)) ->
  forall acc, keepsDraws (forEach l f acc).
Proof.
  intros Hf. induction l as [|x t IH]; intros acc; cbn [forEach].
  - apply keepsDraws_ret.
  - apply keepsDraws_bind; [apply Hf | exact IH].
Qed.

Lemma keepsDraws_if {A} (b : bool) (c1 c2 : M A) :
  keepsDraws c1 -> keepsDraws c2 -> keepsDraws (if b then c1 else c2).
Proof. now destruct b. Qed.

Lemma keepsDraws_tryCatch {A} (c : M A) (h : string -> M A) :
  keepsDraws c -> (forall e, keepsDraws (h e)) -> keepsDraws (tryCatch c h).
Proof.
  intros Hc Hh w s. unfold tryCatch. specialize (Hc w s).
  destruct (c w s) as [[[a|e] w'] s']; unfold worldAfter in *; simpl in *.
  - exact Hc.
  - rewrite <- Hc. apply (Hh e w' s').
Qed.

Lemma keepsDraws_resolveAlarm alarmId method :
  keepsDraws (resolveAlarm alarmId method).
Proof.
  intros w s. rewrite resolveAlarm_run.
  destruct (find _ (alarms s)) as [a|]; [|reflexivity].
  destruct (AlarmState_eqb _ _); reflexivity.
Qed.

Lemma keepsDraws_autoResolveAlarms monitor state :
  keepsDraws (autoResolveAlarms monitor state).
Proof.
  unfold autoResolveAlarms. apply keepsDraws_if; [|apply keepsDraws_ret].
  apply keepsDraws_bind; [intros w s; reflexivity|].
  intros l. apply keepsDraws_forEach. intros a acc.
  apply keepsDraws_resolveAlarm.
Qed.

Lemma keepsDraws_createAlarmFromMonitor monitor campaign state :
  keepsDraws (createAlarmFromMonitor monitor campaign state).
Proof.
  unfold createAlarmFromMonitor.
  apply keepsDraws_bind; [apply keepsDraws_lift; intros w; reflexivity|].
  intros id. apply keepsDraws_bind.
  - apply keepsDraws_tryCatch; [|intros e; apply keepsDraws_ret].
    apply keepsDraws_bind; [|intros i; apply keepsDraws_ret].
    apply keepsDraws_lift. intros w. reflexivity.
  - intros a. apply keepsDraws_bind; [|intros u; apply keepsDraws_ret].
    intros w s. reflexivity.
Qed.

Lemma keepsDraws_evaluateGranularDimensions src monitor campaign :
  (forall metric, keepsDrawsE (generateExpectedValue src campaign metric)) ->
  keepsDraws (evaluateGranularDimensions src monitor campaign).
Proof.
  intros Hsrc. unfold evaluateGranularDimensions.
  destruct (granularDimensions monitor) as [dims|]; [|apply keepsDraws_ret].
  apply keepsDraws_forEach. intros dimension acc.
  apply keepsDraws_bind.
  - apply keepsDraws_if; [|apply keepsDraws_ret].
    apply keepsDraws_forEach. intros device acc'.
    apply keepsDraws_bind; [apply keepsDraws_lift, Hsrc | intros ?].
    apply keepsDraws_bind;
      [apply keepsDraws_lift; intros w; reflexivity | intros ?].
    apply keepsDraws_bind;
      [apply keepsDraws_lift; intros w; reflexivity | intros ?].
    apply keepsDraws_ret.
  - intros acc'. apply keepsDraws_if; [|apply keepsDraws_ret].
    apply keepsDraws_forEach. intros geo acc''.
    apply keepsDraws_bind; [apply keepsDraws_lift, Hsrc | intros ?].
    apply keepsDraws_bind;
      [apply keepsDraws_lift; intros w; reflexivity | intros ?].
    apply keepsDraws_bind;
      [apply keepsDraws_lift; intros w; reflexivity | intros ?].
    apply keepsDraws_ret.
Qed.

Lemma keepsDraws_evaluateMonitor src monitor campaign :
  keepsDrawsE (generateCurrentMetricValue src campaign (metricId monitor) 0) ->
  (forall metric, keepsDrawsE (generateExpectedValue src campaign metric)) ->
  keepsDraws (evaluateMonitor src monitor campaign).
Proof.
  intros Hcur Hexp. unfold evaluateMonitor.
  apply keepsDraws_bind; [apply keepsDraws_lift, Hcur | intros current].
  apply keepsDraws_bind; [apply keepsDraws_lift, Hexp | intros expected].
  apply keepsDraws_bind;
    [apply keepsDraws_lift; intros w; reflexivity | intros now].
  apply keepsDraws_bind; [intros w s; reflexivity | intros previous].
  apply keepsDraws_bind.
  { destruct (monitorType monitor), (compositeConfig monitor);
      try apply keepsDraws_ret.
    apply keepsDraws_bind; [|intros r; apply keepsDraws_ret].
    intros w s.
    destruct (evaluateCompositeCondition_pure monitor campaign current
                expected s) as [r Hr].
    now rewrite Hr. }
  intros st1. apply keepsDraws_bind.
  { destruct (monitorType monitor), (granularDimensions monitor);
      try apply keepsDraws_ret.
    apply keepsDraws_bind; [|intros d; apply keepsDraws_ret].
    now apply keepsDraws_evaluateGranularDimensions. }
  intros st2. apply keepsDraws_bind.
  { intros w s. now rewrite saveMonitorState_run. }
  intros st3. apply keepsDraws_bind; [|intros a; apply keepsDraws_ret].
  apply keepsDraws_if; [|apply keepsDraws_ret].
  apply keepsDraws_bind; [|intros a; apply keepsDraws_ret].
  apply keepsDraws_createAlarmFromMonitor.
Qed.

Lemma keepsDrawsE_shipped_current campaign metric :
  keepsDrawsE (Simulation.generateCurrentMetricValue campaign metric 0).
Proof.
  intros w.
  destruct (shipped_current_run campaign metric w) as [v [w' [E [_ H]]]].
  now rewrite E.
Qed.

Lemma keepsDrawsE_shipped_expected campaign metric :
  keepsDrawsE (Simulation.generateExpectedValue campaign metric).
Proof. intros w. reflexivity. Qed.

Lemma shipped_simple_evaluation monitor campaign w s :
  Simulation.inherited (metricId monitor) = false ->
  (forall i, 0 <= random w i)%Q ->
  monitorType monitor <> COMPOSITE \/ compositeConfig monitor = None ->
  exists res w' s',
    evaluateMonitor Simulation.source monitor campaign w s = (Ok res, w', s')
    /\ random w' = random w
    /\ (ms_currentValue (er_state res) == 0)%Q
    /\ (0 < ms_expectedValue (er_state res))%Q
    /\ ms_state (er_state res) = IN_ALARM
    /\ (1 < anomalyScore (er_state res))%Q
    /\ match er_alarm res with
       | Some a => wasInAlarm (monitor_id monitor) s = false
                   /\ severity a = CRITICAL
                   /\ alarm_state a = ACTIVE
                   /\ alarm_monitorId a = monitor_id monitor
       | None => wasInAlarm (monitor_id monitor) s = true
       end.
Proof.
  intros Hown Hdraw Hsimple.
  destruct (succeeds_evaluateMonitor Simulation.source monitor campaign
              (succeedsE_shipped_current campaign)
              (succeedsE_shipped_expected campaign) w s)
    as [res [w' [s' E]]].
  exists res, w', s'. split; [exact E|].
  split.
  { pose proof (keepsDraws_evaluateMonitor Simulation.source monitor campaign
                  (keepsDrawsE_shipped_current campaign (metricId monitor))
                  (keepsDrawsE_shipped_expected campaign) w s) as Hk.
    rewrite E in Hk. exact Hk. }
  destruct (evaluateMonitor_readings _ _ _ _ _ _ _ _ E) as [w1 [w2 [Ec Ee]]].
  pose proof (evaluateMonitor_ok _ _ _ _ _ _ _ _ E) as Hev.
  clear E.
  cbn [generateCurrentMetricValue generateExpectedValue Simulation.source]
    in Ec, Ee.
  destruct (shipped_current_run campaign (metricId monitor) w)
    as [v [w1' [Ec' [Hzero Hrand]]]].
  rewrite Ec in Ec'. injection Ec' as <- <-.
  assert (Hpos : (0 < ms_expectedValue (er_state res))%Q).
  { apply (shipped_expected_positive _ _ _ _ _ Hown
             (eq_ind_r (fun f => (0 <= f (randomPos w1))%Q) (Hdraw _) Hrand)
             Ee). }
  pose proof (deviation_of_zero _ _ Hzero Hpos) as Hdev.
  destruct (simple_rule_applies _ _ _ _ _ Hsimple Hev) as [_ Hstate].
  assert (Hin : isInAlarm (ms_currentValue (er_state res))
                  (ms_expectedValue (er_state res)) (sensitivity monitor)
                = true).
  { apply isInAlarm_true. rewrite Hdev. now destruct (sensitivity monitor). }
  rewrite Hin in Hstate.
  destruct Hev as [_ [Hscore [_ [_ Halarm]]]].
  split; [exact Hzero|]. split; [exact Hpos|]. split; [exact Hstate|].
  split.
  { rewrite Hscore, Hdev. now destruct (sensitivity monitor). }
  destruct (er_alarm res) as [a|].
  - destruct Halarm as [_ [Hwas [Hact [Hmon [_ [Hsev _]]]]]].
    split; [exact Hwas|]. split; [|split; [exact Hact | exact Hmon]].
    rewrite Hsev.
    apply calculateSeverity_critical. rewrite Hdev. discriminate.
  - destruct Halarm as [[Hok|Hwas] _]; [congruence | exact Hwas].
Qed.

(** X16: with the shipped simulation a monitor that is not composite is in
    alarm at every evaluation, for every metric id that is not the name of
    a member of [Object.prototype].  [evaluateMonitor] asks the simulation
    for the current value with an expected value of [0], which the
    simulation scales, so the current value is always [0] against a
    positive expected value: the state is IN_ALARM with a score above 1, a
    first evaluation (or one after an OK state) raises an alarm of severity
    CRITICAL, and an evaluation that finds the monitor in alarm raises
    none. *)
Theorem shipped_simple_monitor_always_in_alarm :
  forall monitor campaign w s,
    Simulation.inherited (metricId monitor) = false ->
    (forall i, 0 <= random w i)%Q ->
    monitorType monitor <> COMPOSITE \/ compositeConfig monitor = None ->
    exists res w' s',
      evaluateMonitor Simulation.source monitor campaign w s
      = (Ok res, w', s')
      /\ (ms_currentValue (er_state res) == 0)%Q
      /\ (0 < ms_expectedValue (er_state res))%Q
      /\ ms_state (er_state res) = IN_ALARM
      /\ (1 < anomalyScore (er_state res))%Q
      /\ match er_alarm res with
         | Some a => wasInAlarm (monitor_id monitor) s = false
                     /\ severity a = CRITICAL
         | None => wasInAlarm (monitor_id monitor) s = true
         end.
Proof.
  intros monitor campaign w s Hown Hdraw Hsimple.
  destruct (shipped_simple_evaluation monitor campaign w s Hown Hdraw Hsimple)
    as [res [w' [s' [E [_ [Hzero [Hpos [Hstate [Hscore Halarm]]]]]]]]].
  exists res, w', s'. split; [exact E|].
  split; [exact Hzero|]. split; [exact Hpos|]. split; [exact Hstate|].
  split; [exact Hscore|].
  destruct (er_alarm res) as [a|]; [|exact Halarm].
  destruct Halarm as [Hwas [Hsev _]]. now split.
Qed.

Lemma shipped_simple_monitor_always_in_alarm_witness :
  exists res w' s',
    evaluateMonitor Simulation.source Sample.cpa Sample.shoes
      (Sample.world 0.5 0 0) emptyStore
    = (Ok res, w', s')
    /\ ms_state (er_state res) = IN_ALARM
    /\ exists a, er_alarm res = Some a /\ severity a = CRITICAL.
Proof.
  destruct (shipped_simple_monitor_always_in_alarm Sample.cpa Sample.shoes
              (Sample.world 0.5 0 0) emptyStore)
    as [res [w' [s' [E [_ [_ [Hst [_ Ha]]]]]]]].
  - reflexivity.
  - intros i. discriminate.
  - left. discriminate.
  - exists res, w', s'. split; [exact E|]. split; [exact Hst|].
    destruct (er_alarm res) as [a|].
    + exists a. split; [reflexivity | apply Ha].
    + discriminate Ha.
Defined.

(** X17: the expected value the simulation produces for a metric that is
    not named like a member of [Object.prototype] is the baseline of the
    campaign's vertical and objective for that metric ([100] for a metric
    the table has no entry for) scaled by a factor between 0.9 and 1.1: for
    a draw in [0, 1) it lies within ten percent of a positive baseline, so
    it is positive, and it uses exactly one draw and no clock reading. *)
Theorem shipped_expected_value_range :
  forall campaign metric w,
    Simulation.inherited metric = false ->
    (0 <= random w (randomPos w) < 1)%Q ->
    exists v w' base,
      Simulation.generateExpectedValue campaign metric w = (Ok v, w')
      /\ base
         = match Simulation.lookup metric
                   (Simulation.BASELINE_VALUES (vertical campaign)
                      (objective campaign)) with
           | Some x => x
           | None => 100%Q
           end
      /\ (0 < base)%Q
      /\ (0.9 * base <= v)%Q /\ (v <= 1.1 * base)%Q /\ (0 < v)%Q
      /\ randomPos w' = S (randomPos w)
      /\ clockPos w' = clockPos w.
Proof.
  intros campaign metric w Hown [Hlo Hhi].
  destruct (shipped_expected_run campaign metric w Hown)
    as [base [E [Hpos Hb]]].
  set (r := random w (randomPos w)) in *.
  eexists _, _, base. split; [exact E|].
  split; [exact Hb|]. split; [exact Hpos|].
  pose proof (adjustment_lower r Hlo) as H1.
  assert (H2 : (0.9 + r * 0.2 <= 1.1)%Q).
  { setoid_replace 1.1%Q with (0.9 + 1 * 0.2)%Q by reflexivity.
    apply Qplus_le_r. apply Qmult_le_compat_r; [|discriminate].
    now apply Qlt_le_weak. }
  split; [|split; [|split; [|split; reflexivity]]].
  - rewrite (Qmult_comm 0.9 base). apply Qmult_le_l; [exact Hpos | exact H1].
  - rewrite (Qmult_comm 1.1 base). apply Qmult_le_l; [exact Hpos | exact H2].
  - apply Qmult_lt_0_compat; [exact Hpos|].
    apply Qlt_le_trans with 0.9%Q; [reflexivity | exact H1].
Qed.

Lemma shipped_expected_value_range_witness :
  exists v w' base,
    Simulation.generateExpectedValue Sample.shoes "ctr"
      (Sample.world 0.5 0 0) = (Ok v, w')
    /\ base = 2.5%Q
    /\ (0.9 * base <= v)%Q /\ (v <= 1.1 * base)%Q.
Proof.
  destruct (shipped_expected_value_range Sample.shoes "ctr"
              (Sample.world 0.5 0 0))
    as [v [w' [base [E [Hb [_ [H1 [H2 _]]]]]]]].
  - reflexivity.
  - split; [discriminate | reflexivity].
  - exists v, w', base. split; [exact E|]. split; [exact Hb|].
    split; [exact H1 | exact H2].
Defined.

(** ** Bounds of the composite rule *)

Lemma lastn_length_le {A} (k : nat) (l : list A) :
  (List.length (lastn k l) <= List.length l)%nat.
Proof. unfold lastn. rewrite length_skipn. lia. Qed.

Lemma breaches_app values current expected sens :
  breaches (values ++ [current]) expected sens
  = (breaches values expected sens
     + (if isInAlarm current expected sens then 1 else 0))%Z.
Proof.
  unfold breaches. rewrite filter_app, length_app. cbn [filter].
  destruct (isInAlarm current expected sens); cbn [List.length]; lia.
Qed.

Lemma breaches_bounds values expected sens :
  (0 <= breaches values expected sens <= Z.of_nat (List.length values))%Z.
Proof.
  unfold breaches. pose proof (filter_length_le
    (fun v => isInAlarm v expected sens) values). lia.
Qed.

(** X18: bounds of the breach count of a composite monitor with a window of
    [m >= 1].  The count lies between 0 and [m], and is at most the number
    of stored samples plus one; it counts the current reading, so it is at
    least 1 when the current value breaches.  Hence a configuration with
    [n > m] never alarms, one with [n <= 0] always does, with [m = 1] only
    the current reading counts, and without stored history a monitor that
    asks for two or more breaches stays OK. *)
Theorem composite_count_bounds :
  forall monitor campaign cfg currentValue expectedValue w s,
    compositeConfig monitor = Some cfg ->
    (1 <= cfg_m cfg)%Z ->
    exists r,
      evaluateCompositeCondition monitor campaign currentValue expectedValue
        w s = (Ok r, w, s)
      /\ (0 <= count r <= cfg_m cfg)%Z
      /\ (count r
          <= Z.of_nat (List.length (history campaign monitor s)) + 1)%Z
      /\ (isInAlarm currentValue expectedValue (sensitivity monitor) = true
          -> (1 <= count r)%Z)
      /\ (cfg_m cfg < cfg_n cfg -> breached r = false)%Z
      /\ (cfg_n cfg <= 0 -> breached r = true)%Z
      /\ (cfg_m cfg = 1%Z ->
          count r
          = if isInAlarm currentValue expectedValue (sensitivity monitor)
            then 1%Z else 0%Z)
      /\ (history campaign monitor s = [] -> (2 <= cfg_n cfg)%Z ->
          breached r = false).
Proof.
  intros monitor campaign cfg currentValue expectedValue w s Hcfg Hm.
  eexists. split.
  { exact (evaluateCompositeCondition_run monitor campaign cfg currentValue
             expectedValue w s Hcfg Hm). }
  cbn [count breached].
  set (h := history campaign monitor s).
  set (past := lastn (Z.to_nat (cfg_m cfg - 1)) h).
  rewrite breaches_app.
  pose proof (breaches_bounds past expectedValue (sensitivity monitor)) as Hb.
  pose proof (lastn_length (Z.to_nat (cfg_m cfg - 1)) h) as Hl1.
  pose proof (lastn_length_le (Z.to_nat (cfg_m cfg - 1)) h) as Hl2.
  fold past in Hl1, Hl2.
  set (c := breaches past expectedValue (sensitivity monitor)) in *.
  set (b := isInAlarm currentValue expectedValue (sensitivity monitor)).
  assert (Hc : (0 <= (if b then 1 else 0) <= 1)%Z) by (destruct b; lia).
  split; [lia|]. split; [lia|].
  split; [intros Hb1; rewrite Hb1; lia|].
  split; [intros Hn; rewrite Z.geb_leb; apply Z.leb_gt; lia|].
  split; [intros Hn; rewrite Z.geb_leb; apply Z.leb_le; lia|].
  split.
  - intros H1. assert (List.length past = 0%nat) as H0.
    { rewrite H1 in Hl1. simpl in Hl1. lia. }
    lia.
  - intros Hh Hn. subst h. rewrite Hh in Hl2. simpl in Hl2.
    rewrite Z.geb_leb. apply Z.leb_gt. lia.
Qed.

Lemma composite_count_bounds_witness :
  exists r,
    evaluateCompositeCondition Sample.ctr Sample.shoes 1 2.5
      (Sample.world 0 0 0) emptyStore
    = (Ok r, Sample.world 0 0 0, emptyStore)
    /\ (0 <= count r <= 3)%Z
    /\ breached r = false.
Proof.
  destruct (composite_count_bounds Sample.ctr Sample.shoes
              {| cfg_n := 2; cfg_m := 3 |} 1%Q 2.5%Q (Sample.world 0 0 0)
              emptyStore eq_refl)
    as [r [E [Hc [_ [_ [_ [_ [_ Hempty]]]]]]]].
  - simpl. lia.
  - exists r. split; [exact E|]. split; [exact Hc|].
    apply Hempty; [reflexivity | simpl; lia].
Defined.

(** ** The monitors of a campaign *)

(** X19: [createDefaultMonitors] never fails and returns eight monitors,
    nine for a campaign that targets more than one device: a simple monitor
    for each of impressions, clicks, conversions, ctr, cvr, cpa and spend,
    in that order, then the composite monitor on ctr (2 of 3), then, for
    more than one device, the granular monitor on impressions by device.
    The other nine metrics of the catalogue get no monitor.  Every monitor
    is enabled, belongs to the campaign, has the campaign's sensitivity and
    the time of the call as creation time; the ids are the next ids of the
    generator, in order, and the clock is read once. *)
Theorem default_monitors_of_a_campaign :
  forall campaign w,
    exists l w',
      createDefaultMonitors campaign w = (Ok l, w')
      /\ map (fun m => (metricId (sm_monitor m), monitorType (sm_monitor m))) l
         = ([("impressions", SIMPLE); ("clicks", SIMPLE);
             ("conversions", SIMPLE); ("ctr", SIMPLE); ("cvr", SIMPLE);
             ("cpa", SIMPLE); ("spend", SIMPLE); ("ctr", COMPOSITE)]
            ++ (if (2 <=? List.length (devices (targeting campaign)))%nat
                then [("impressions", GRANULAR)] else []))%list
      /\ map (fun m => monitor_id (sm_monitor m)) l
         = map (fun k => uuids w (k + uuidPos w)%nat)
               (seq 0 (List.length l))
      /\ (forall m, In m l ->
            enabled (sm_monitor m) = true
            /\ monitor_campaignId (sm_monitor m) = campaign_id campaign
            /\ sensitivity (sm_monitor m) = campaign_sensitivity campaign
            /\ sm_createdAt m = iso (clock w (clockPos w))
            /\ compositeConfig (sm_monitor m)
               = match monitorType (sm_monitor m) with
                 | COMPOSITE => Some {| cfg_n := 2; cfg_m := 3 |}
                 | _ => None
                 end
            /\ granularDimensions (sm_monitor m)
               = match monitorType (sm_monitor m) with
                 | GRANULAR => Some ["device"]
                 | _ => None
                 end)
      /\ uuidPos w' = (List.length l + uuidPos w)%nat
      /\ clockPos w' = S (clockPos w)
      /\ randomPos w' = randomPos w.
Proof.
  intros campaign w.
  assert (Hdev : (Z.of_nat (List.length (devices (targeting campaign))) >? 1)%Z
                 = (2 <=? List.length (devices (targeting campaign)))%nat).
  { destruct (2 <=? _)%nat eqn:E.
    - apply Nat.leb_le in E. apply Z.gtb_lt. lia.
    - apply Nat.leb_gt in E. rewrite Z.gtb_ltb. apply Z.ltb_ge. lia. }
  unfold createDefaultMonitors. rewrite Hdev. clear Hdev.
  destruct (2 <=? List.length (devices (targeting campaign)))%nat.
  all: eexists _, _; (split; [lazy; reflexivity|]).
  all: (split; [reflexivity|]); (split; [reflexivity|]).
  all: (split; [|split; [reflexivity | split; reflexivity]]).
  all: intros m Hm; lazy [In] in Hm.
  all: repeat (destruct Hm as [<-|Hm]; [repeat split|]).
  all: destruct Hm.
Qed.

Lemma upsert_fresh {A} (key : A -> string) x l :
  (forall y, In y l -> key y <> key x) -> upsert key x l = (l ++ [x])%list.
Proof.
  induction l as [|y t IH]; intros Hf; [reflexivity|].
  cbn [upsert app]. destruct (key y =? key x) eqn:E.
  - apply String.eqb_eq in E. now destruct (Hf y (or_introl eq_refl)).
  - f_equal. apply IH. intros z Hz. apply Hf. now right.
Qed.

Lemma upsert_all_fresh {A} (key : A -> string) (new : list A) :
  forall stored,
    NoDup (map key new) ->
    (forall x y, In x new -> In y stored -> key y <> key x) ->
    fold_left (fun l x => upsert key x l) new stored = (stored ++ new)%list.
Proof.
  induction new as [|x t IH]; intros stored Hnd Hf; cbn [fold_left].
  - now rewrite app_nil_r.
  - cbn [map] in Hnd. apply NoDup_cons_iff in Hnd. destruct Hnd as [Hx Hnd].
    rewrite upsert_fresh by (intros y Hy; apply (Hf x y); [now left | exact Hy]).
    rewrite IH; [now rewrite <- app_assoc | exact Hnd |].
    intros x' y Hx' Hy. apply in_app_or in Hy. destruct Hy as [Hy|[<-|[]]].
    + apply (Hf x' y); [now right | exact Hy].
    + intros Heq. apply Hx. rewrite Heq. now apply in_map.
Qed.

Lemma saveMonitor_upsert m l :
  saveMonitor m l = upsert (fun x => monitor_id (sm_monitor x)) m l.
Proof.
  unfold saveMonitor.
  exact (save_is_upsert (fun x => monitor_id (sm_monitor x)) m l).
Qed.

Lemma find_fresh_app {A} (p : A -> bool) (l1 l2 : list A) :
  (forall y, In y l1 -> p y = false) -> find p (l1 ++ l2) = find p l2.
Proof.
  induction l1 as [|y t IH]; intros Hf; [reflexivity|].
  cbn [app find]. rewrite (Hf y (or_introl eq_refl)).
  apply IH. intros z Hz. apply Hf. now right.
Qed.

Lemma find_NoDup_key {A} (key : A -> string) (l : list A) x :
  NoDup (map key l) -> In x l ->
  find (fun y => key y =? key x) l = Some x.
Proof.
  induction l as [|y t IH]; intros Hnd Hin; [destruct Hin|].
  cbn [map] in Hnd. apply NoDup_cons_iff in Hnd. destruct Hnd as [Hy Hnd].
  cbn [find]. destruct Hin as [->|Hin].
  - now rewrite String.eqb_refl.
  - destruct (key y =? key x) eqn:E.
    + apply String.eqb_eq in E. destruct Hy. rewrite E. now apply in_map.
    + now apply IH.
Qed.

(** X20: saving newly created monitors.  Saving, one after the other,
    monitors whose ids are distinct and not yet stored appends them to the
    stored array in order.  Afterwards [getMonitorsByCampaign] lists what it
    listed before followed by the new monitors of that campaign -- so
    setting a campaign up again adds a second set of monitors beside the
    first -- [getMonitor] finds each new monitor under its id, and finds
    what it found before under every other id. *)
Theorem saved_monitors_are_appended :
  forall campaignId stored created,
    NoDup (map (fun m => monitor_id (sm_monitor m)) created) ->
    (forall m old, In m created -> In old stored ->
                   monitor_id (sm_monitor old) <> monitor_id (sm_monitor m)) ->
    let after :=
      fold_left (fun monitors m => saveMonitor m monitors) created stored in
    after = (stored ++ created)%list
    /\ getMonitorsByCampaign campaignId after
       = (getMonitorsByCampaign campaignId stored
          ++ getMonitorsByCampaign campaignId created)%list
    /\ (forall m, In m created ->
                  getMonitor (monitor_id (sm_monitor m)) after = Some m)
    /\ (forall id, (forall m, In m created -> monitor_id (sm_monitor m) <> id) ->
                   getMonitor id after = getMonitor id stored).
Proof.
  intros campaignId stored created Hnd Hfresh. cbv zeta.
  assert (E : fold_left (fun monitors m => saveMonitor m monitors)
                created stored = (stored ++ created)%list).
  { rewrite <- (upsert_all_fresh (fun m => monitor_id (sm_monitor m))
                  created stored Hnd Hfresh).
    clear. revert stored.
    induction created as [|m t IH]; intros stored; [reflexivity|].
    cbn [fold_left]. now rewrite saveMonitor_upsert, IH. }
  rewrite E. split; [reflexivity|]. split; [|split].
  - unfold getMonitorsByCampaign. apply filter_app.
  - intros m Hm. unfold getMonitor. rewrite find_fresh_app.
    + exact (find_NoDup_key (fun x => monitor_id (sm_monitor x)) created m
               Hnd Hm).
    + intros y Hy. apply String.eqb_neq. now apply (Hfresh m y).
  - intros id Hid. unfold getMonitor.
    induction stored as [|y t IH]; cbn [app find].
    + destruct (find _ created) as [m|] eqn:Ef; [|reflexivity].
      apply find_some in Ef. destruct Ef as [Hin Heq].
      apply String.eqb_eq in Heq. now destruct (Hid m Hin).
    + destruct (_ =? id); [reflexivity|]. apply IH.
      * intros m old Hm Hold. apply Hfresh; [exact Hm | now right].
      * rewrite <- (upsert_all_fresh (fun m => monitor_id (sm_monitor m))
                      created t Hnd).
        -- clear. revert t.
           induction created as [|m c IH]; intros t; [reflexivity|].
           cbn [fold_left]. now rewrite saveMonitor_upsert, IH.
        -- intros m old Hm Hold. apply Hfresh; [exact Hm | now right].
Qed.

Lemma saved_monitors_are_appended_witness :
  fold_left (fun monitors m => saveMonitor m monitors) More.defaultMonitors []
  = ([] ++ More.defaultMonitors)%list
  /\ getMonitorsByCampaign "c1"
       (fold_left (fun monitors m => saveMonitor m monitors)
          More.defaultMonitors [])
     = (getMonitorsByCampaign "c1" []
        ++ getMonitorsByCampaign "c1" More.defaultMonitors)%list.
Proof.
  assert (Hnd : NoDup (map (fun m => monitor_id (sm_monitor m))
                         More.defaultMonitors)).
  { vm_compute.
    repeat (constructor;
            [cbn [In]; intros H;
             repeat (destruct H as [H|H]; [discriminate H|]); exact H|]).
    constructor. }
  pose proof (saved_monitors_are_appended "c1" [] More.defaultMonitors Hnd
                (fun m old _ (H : In old []) => match H with end)) as H.
  cbv zeta in H. destruct H as [H1 [H2 _]].
  split; [exact H1 | exact H2].
Defined.

(** ** The first batch *)

Lemma wasInAlarm_states monitorId s s' :
  monitorStates s' = monitorStates s ->
  wasInAlarm monitorId s' = wasInAlarm monitorId s.
Proof. intros H. unfold wasInAlarm, storedState. now rewrite H. Qed.

Lemma shipped_loop campaign monitors :
  (forall m, In m monitors -> Simulation.inherited (metricId m) = false) ->
  forall states0 alarms0 w s,
    (forall i, 0 <= random w i)%Q ->
    NoDup (map monitor_id monitors) ->
    (forall m, In m monitors -> wasInAlarm (monitor_id m) s = false) ->
    exists result w' s',
      evaluateAllMonitors_loop Simulation.source campaign monitors
        states0 alarms0 w s = (Ok result, w', s')
      /\ forall m,
           In m monitors -> enabled m = true ->
           monitorType m <> COMPOSITE \/ compositeConfig m = None ->
           storedState (monitor_id m) s' = Some IN_ALARM
           /\ exists a,
                In a (newAlarms result)
                /\ alarm_monitorId a = monitor_id m
                /\ severity a = CRITICAL
                /\ alarm_state a = ACTIVE.
Proof.
  induction monitors as [|monitor rest IH];
    intros Hown states0 alarms0 w s Hdraw Hnd Hwas.
  - eexists _, _, _. split; [reflexivity|]. intros m [].
  - cbn [map] in Hnd. apply NoDup_cons_iff in Hnd. destruct Hnd as [Hfresh Hnd].
    destruct (enabled monitor) eqn:Hen.
    + destruct (succeeds_evaluateMonitor Simulation.source monitor campaign
                  (succeedsE_shipped_current campaign)
                  (succeedsE_shipped_expected campaign) w s)
        as [res [w1 [s1 E1]]].
      destruct (succeeds_autoResolveAlarms monitor (er_state res) w1 s1)
        as [u [w2 [s2 E2]]].
      pose proof (keepsDraws_evaluateMonitor Simulation.source monitor campaign
                    (keepsDrawsE_shipped_current campaign (metricId monitor))
                    (keepsDrawsE_shipped_expected campaign) w s) as Hk1.
      pose proof (keepsDraws_autoResolveAlarms monitor (er_state res) w1 s1)
        as Hk2.
      pose proof (evaluateMonitor_writes Simulation.source monitor campaign
                    w s) as Hw1.
      pose proof (alarmsOnly_autoResolveAlarms monitor (er_state res) w1 s1)
        as Hw2.
      rewrite E1 in Hk1, Hw1. rewrite E2 in Hk2, Hw2.
      unfold worldAfter, storeAfter, outcomeOf in Hk1, Hk2, Hw1, Hw2.
      cbn [fst snd] in Hk1, Hk2, Hw1, Hw2.
      destruct Hw1 as [_ [Hst1 [Hid1 _]]]. destruct Hw2 as [Hst2 _].
      assert (Hfind : find (fun st => ms_monitorId st =? monitor_id monitor)
                        (monitorStates s2) = Some (er_state res)).
      { rewrite Hst2, Hst1, <- Hid1. apply find_upsert_same. }
      assert (Hwas2 : forall m, In m rest ->
                                wasInAlarm (monitor_id m) s2 = false).
      { intros m Hm.
        rewrite (wasInAlarm_states (monitor_id m)
                   (withMonitorStates s
                      (upsert ms_monitorId (er_state res) (monitorStates s)))
                   s2)
          by (rewrite Hst2, Hst1; reflexivity).
        rewrite wasInAlarm_upsert_other; [apply Hwas; now right|].
        rewrite Hid1. intros Heq. apply Hfresh. rewrite Heq.
        now apply in_map. }
      assert (Hdraw2 : (forall i, 0 <= random w2 i)%Q).
      { intros i. rewrite Hk2, Hk1. apply Hdraw. }
      destruct (IH (fun m Hm => Hown m (or_intror Hm))
                  (push states0 (er_state res))
                  (match er_alarm res with
                   | Some a => push alarms0 a
                   | None => alarms0
                   end) w2 s2 Hdraw2 Hnd Hwas2)
        as [result [w' [s' [E Hrest]]]].
      exists result, w', s'. split.
      { rewrite (loop_enabled _ _ _ _ _ _ _ _ Hen), E1, E2. exact E. }
      intros m [<-|Hm] Hen' Hsimple; [|now apply Hrest].
      destruct (shipped_simple_evaluation monitor campaign w s
                  (Hown monitor (or_introl eq_refl)) Hdraw Hsimple)
        as [res' [w1' [s1' [E1' [_ [_ [_ [Hstate [_ Halarm]]]]]]]]].
      rewrite E1 in E1'. injection E1' as <- <- <-.
      split.
      * pose proof (loop_writes Simulation.source campaign (monitor_id monitor)
                      rest (push states0 (er_state res))
                      (match er_alarm res with
                       | Some a => push alarms0 a
                       | None => alarms0
                       end) w2 s2) as Hlw.
        rewrite E in Hlw. unfold storeAfter in Hlw. cbn [snd] in Hlw.
        destruct Hlw as [_ Hlw].
        unfold storedState. rewrite Hlw, Hfind; [now rewrite <- Hstate|].
        intros Hin. apply Hfresh.
        apply in_map_iff in Hin. destruct Hin as [x [Hx Hin]].
        apply filter_In in Hin. rewrite <- Hx. apply in_map. apply Hin.
      * destruct (er_alarm res) as [a|] eqn:Ea.
        -- destruct Halarm as [_ [Hsev [Hact Hmon]]].
           exists a. split; [|split; [exact Hmon | split; [exact Hsev | exact Hact]]].
           exact (loop_newAlarms _ _ _ _ _ _ _ _ _ _ _ E).
        -- rewrite (Hwas monitor (or_introl eq_refl)) in Halarm.
           discriminate Halarm.
    + destruct (IH (fun m Hm => Hown m (or_intror Hm))
                  states0 alarms0 w s Hdraw Hnd
                  (fun m Hm => Hwas m (or_intror Hm)))
        as [result [w' [s' [E Hrest]]]].
      exists result, w', s'. split.
      { rewrite loop_disabled by exact Hen. exact E. }
      intros m [<-|Hm] Hen' Hsimple; [congruence | now apply Hrest].
Qed.

Lemma usesCompositeRule_false m :
  usesCompositeRule m = false ->
  monitorType m <> COMPOSITE \/ compositeConfig m = None.
Proof.
  unfold usesCompositeRule.
  destruct (monitorType m), (compositeConfig m); intros H;
    try discriminate H; try (now right); left; discriminate.
Qed.

(** X21: the first batch under the shipped simulation.  When no metric id
    of the list is the name of a member of [Object.prototype], no monitor
    of the list is recorded as in alarm (as on an empty store) and the
    monitor ids are distinct, [evaluateAllMonitors] returns, and every enabled
    monitor that is not composite ends IN_ALARM with a new Active alarm of
    severity CRITICAL among the returned alarms: the batch raises at least
    as many alarms as the list has enabled simple and granular monitors. *)
Theorem first_batch_alarms_every_simple_monitor :
  forall campaign monitors w s,
    forallb (fun m => negb (Simulation.inherited (metricId m))) monitors
    = true ->
    (forall i, 0 <= random w i)%Q ->
    NoDup (map monitor_id monitors) ->
    (forall m, In m monitors -> wasInAlarm (monitor_id m) s = false) ->
    exists result w' s',
      evaluateAllMonitors Simulation.source campaign monitors w s
      = (Ok result, w', s')
      /\ (forall m,
            In m monitors -> enabled m = true ->
            usesCompositeRule m = false ->
            storedState (monitor_id m) s' = Some IN_ALARM
            /\ exists a,
                 In a (newAlarms result)
                 /\ alarm_monitorId a = monitor_id m
                 /\ severity a = CRITICAL
                 /\ alarm_state a = ACTIVE)
      /\ (List.length
            (filter (fun m => enabled m && negb (usesCompositeRule m))
                    monitors)
          <= List.length (newAlarms result))%nat.
Proof.
  intros campaign monitors w s Hown Hdraw Hnd Hwas.
  assert (Hown' : forall m, In m monitors ->
                            Simulation.inherited (metricId m) = false).
  { intros m Hm. rewrite forallb_forall in Hown.
    now apply negb_true_iff, Hown. }
  destruct (shipped_loop campaign monitors Hown' [] [] w s Hdraw Hnd Hwas)
    as [result [w' [s' [E Hall]]]].
  exists result, w', s'. split; [exact E|].
  assert (Hall' : forall m,
             In m monitors -> enabled m = true ->
             usesCompositeRule m = false ->
             storedState (monitor_id m) s' = Some IN_ALARM
             /\ exists a,
                  In a (newAlarms result)
                  /\ alarm_monitorId a = monitor_id m
                  /\ severity a = CRITICAL
                  /\ alarm_state a = ACTIVE).
  { intros m Hm Hen Hs. apply Hall; [exact Hm | exact Hen|].
    now apply usesCompositeRule_false. }
  split; [exact Hall'|].
  set (simple := filter (fun m => enabled m && negb (usesCompositeRule m))
                        monitors).
  rewrite <- (length_map monitor_id simple).
  rewrite <- (length_map alarm_monitorId (newAlarms result)).
  apply NoDup_incl_length.
  - subst simple. clear -Hnd.
    induction monitors as [|m t IH]; [constructor|].
    cbn [map] in Hnd. apply NoDup_cons_iff in Hnd. destruct Hnd as [Hm Hnd].
    cbn [filter]. destruct (enabled m && negb (usesCompositeRule m));
      [|now apply IH].
    cbn [map]. constructor; [|now apply IH].
    intros Hin. apply Hm. apply in_map_iff in Hin.
    destruct Hin as [x [Hx Hin]]. apply filter_In in Hin.
    rewrite <- Hx. apply in_map. apply Hin.
  - intros id Hid. apply in_map_iff in Hid. destruct Hid as [m [<- Hm]].
    subst simple. apply filter_In in Hm. destruct Hm as [Hm Hb].
    apply andb_true_iff in Hb. destruct Hb as [Hen Hs].
    apply negb_true_iff in Hs.
    destruct (Hall' m Hm Hen Hs) as [_ [a [Ha [Hmon _]]]].
    rewrite <- Hmon. now apply in_map.
Qed.

Lemma first_batch_alarms_every_simple_monitor_witness :
  exists result w' s',
    evaluateAllMonitors Simulation.source Sample.shoes
      (map sm_monitor More.defaultMonitors) (Sample.world 0.5 1 9) emptyStore
    = (Ok result, w', s')
    /\ (8 <= List.length (newAlarms result))%nat.
Proof.
  destruct (first_batch_alarms_every_simple_monitor Sample.shoes
              (map sm_monitor More.defaultMonitors) (Sample.world 0.5 1 9)
              emptyStore)
    as [result [w' [s' [E [_ Hlen]]]]].
  - reflexivity.
  - intros i. discriminate.
  - vm_compute.
    repeat (constructor;
            [cbn [In]; intros H;
             repeat (destruct H as [H|H]; [discriminate H|]); exact H|]).
    constructor.
  - intros m _. reflexivity.
  - exists result, w', s'. split; [exact E|]. exact Hlen.
Defined.

(** ** Raising alarms *)

(** X22: an alarm is stored with or without its insights.
    [createAlarmFromMonitor] never fails: it asks the insight service once,
    and when the request is rejected the alarm is stored and returned
    without insights.  In both cases the alarm is Active under the next id
    of the generator, carries the values, the breakdown and the
    [enteredStateAt] of the state it is raised for, and [getAlarm] finds it
    afterwards. *)
Theorem alarm_is_stored_with_or_without_insights :
  forall monitor campaign state w s,
    exists a w' s',
      createAlarmFromMonitor monitor campaign state w s = (Ok a, w', s')
      /\ insights a = gemini w (geminiPos w)
      /\ geminiPos w' = S (geminiPos w)
      /\ alarm_id a = uuids w (uuidPos w)
      /\ alarm_state a = ACTIVE
      /\ alarm_currentValue a = ms_currentValue state
      /\ alarm_expectedValue a = ms_expectedValue state
      /\ dimensionalBreakdown a = dimensions state
      /\ triggeredAt a = enteredStateAt state
      /\ outcomeOf (getAlarm (alarm_id a) w' s') = Ok (Some a)
      /\ monitorStates s' = monitorStates s
      /\ metricValues s' = metricValues s.
Proof.
  intros monitor campaign state w s.
  destruct (gemini w (geminiPos w)) as [i|] eqn:G;
    eexists _, _, _;
    (split;
     [ unfold createAlarmFromMonitor, tryCatch, generateAlarmInsights, uuidv4,
         lift;
       cbn [bind ret M_Monad gemini geminiPos]; rewrite G;
       cbn [bind ret M_Monad]; rewrite saveAlarm_run; reflexivity |]);
    cbn [insights set_insights geminiPos alarm_id alarm_state
           alarm_currentValue alarm_expectedValue dimensionalBreakdown
           triggeredAt];
    repeat (split; [reflexivity|]);
    (split; [|split; reflexivity]);
    rewrite getAlarm_run; unfold outcomeOf; cbn [fst]; f_equal;
    match goal with
    | |- find _ (alarms (withAlarms _ (upsert _ ?a _))) = _ =>
        exact (find_upsert_same alarm_id a (alarms s))
    end.
Qed.

(** X23: an alarm the user settled is not raised again while the monitor
    stays in alarm.  Resolving or dismissing leaves the recorded monitor
    state as it is, and an evaluation that finds the monitor recorded as
    IN_ALARM raises no alarm and leaves the alarm array untouched, whatever
    the new reading is: the monitor has to be evaluated as OK once before
    it can alarm again. *)
Theorem settled_alarm_is_not_raised_again :
  forall src monitor campaign alarmId method w0 w s0 s,
    storedState (monitor_id monitor) s0 = Some IN_ALARM ->
    s = storeAfter (dismissAlarm alarmId w0 s0)
    \/ s = storeAfter (resolveAlarm alarmId method w0 s0) ->
    storedState (monitor_id monitor) s = Some IN_ALARM
    /\ forall res w' s',
         evaluateMonitor src monitor campaign w s = (Ok res, w', s') ->
         er_alarm res = None /\ alarms s' = alarms s.
Proof.
  intros src monitor campaign alarmId method w0 w s0 s Hst Hs.
  assert (Hsame : monitorStates s = monitorStates s0).
  { destruct Hs as [-> | ->].
    - apply (alarmsOnly_dismissAlarm alarmId w0 s0).
    - apply (alarmsOnly_resolveAlarm alarmId method w0 s0). }
  assert (Hst' : storedState (monitor_id monitor) s = Some IN_ALARM).
  { unfold storedState. rewrite Hsame. exact Hst. }
  split; [exact Hst'|].
  intros res w' s' E.
  pose proof (evaluateMonitor_ok _ _ _ _ _ _ _ _ E) as Hev.
  destruct Hev as [_ [_ [_ [_ Halarm]]]].
  assert (Hwas : wasInAlarm (monitor_id monitor) s = true).
  { unfold wasInAlarm. now rewrite Hst'. }
  destruct (er_alarm res) as [a|].
  - destruct Halarm as [_ [Hf _]]. rewrite Hwas in Hf. discriminate Hf.
  - destruct Halarm as [_ ->]. split; reflexivity.
Qed.

Lemma settled_alarm_is_not_raised_again_witness :
  let s0 := storeAfter (evaluateMonitor Simulation.source Sample.cpa
                          Sample.shoes (Sample.world 0.5 0 0) emptyStore) in
  let s := storeAfter (dismissAlarm "alarm-0" (Sample.world 0.5 4 1) s0) in
  storedState "m-cpa" s = Some IN_ALARM
  /\ countActive "m-cpa" (alarms s) = 0%nat.
Proof.
  cbv zeta. split; [|vm_compute; reflexivity].
  apply (settled_alarm_is_not_raised_again Simulation.source Sample.cpa
           Sample.shoes "alarm-0" USER_ACTION (Sample.world 0.5 4 1)
           (Sample.world 0.5 5 1)
           (storeAfter (evaluateMonitor Simulation.source Sample.cpa
                          Sample.shoes (Sample.world 0.5 0 0) emptyStore))).
  - vm_compute. reflexivity.
  - left. reflexivity.
Defined.

(** ** Text helpers *)

Lemma substring_0_length (n : nat) (s : string) :
  String.length (substring 0 n s) = Nat.min n (String.length s).
Proof.
  revert n. induction s as [|c t IH]; intros n.
  - destruct n; reflexivity.
  - destruct n; [reflexivity|]. cbn [substring String.length Nat.min].
    now rewrite IH.
Qed.

Lemma append_length (a b : string) :
  String.length (a ++ b) = (String.length a + String.length b)%nat.
Proof. induction a as [|c t IH]; cbn; [reflexivity | now rewrite IH]. Qed.

Lemma substring_0_append (n : nat) (a b : string) :
  (n <= String.length a)%nat ->
  substring 0 n (a ++ b) = substring 0 n a.
Proof.
  revert n. induction a as [|c t IH]; intros n Hn.
  - cbn in Hn. assert (n = 0%nat) as -> by lia. now destruct b.
  - destruct n; [reflexivity|]. cbn [append substring]. f_equal.
    apply IH. cbn in Hn. lia.
Qed.

(** X24: [truncate] returns a text that fits unchanged; a longer text is
    cut to its first [length] characters followed by three dots, so the
    result has [length + 3] characters -- three more than asked for, and
    more than the text itself had when the text was one or two characters
    too long. *)
Theorem truncate_adds_three_characters :
  forall text length,
    (0 <= length)%Z ->
    let n := Z.of_nat (String.length text) in
    ((n <= length)%Z -> truncate text length = text)
    /\ ((length < n)%Z ->
        truncate text length = substring 0 (Z.to_nat length) text ++ "..."
        /\ Z.of_nat (String.length (truncate text length)) = (length + 3)%Z
        /\ substring 0 (Z.to_nat length) (truncate text length)
           = substring 0 (Z.to_nat length) text
        /\ ((n < length + 3)%Z ->
            (String.length text
             < String.length (truncate text length))%nat)).
Proof.
  intros text length Hlen. cbv zeta. unfold truncate, slice_to. split.
  - intros Hfit. apply Z.leb_le in Hfit. now rewrite Hfit.
  - intros Hlong.
    assert (E1 : (Z.of_nat (String.length text) <=? length)%Z = false)
      by (apply Z.leb_gt; lia).
    assert (E2 : (length <? 0)%Z = false) by (apply Z.ltb_ge; lia).
    rewrite E1, E2.
    rewrite (Z.min_l length) by lia.
    assert (Hl : String.length (substring 0 (Z.to_nat length) text)
                 = Z.to_nat length).
    { rewrite substring_0_length. lia. }
    split; [reflexivity|]. split; [|split].
    + rewrite append_length, Hl. cbn [String.length]. lia.
    + rewrite substring_0_append by lia.
      generalize (Z.to_nat length). clear. intros k. revert k.
      induction text as [|c t IH]; intros k; [now destruct k|].
      destruct k; [reflexivity|]. cbn [substring]. f_equal. apply IH.
    + intros Hshort. rewrite append_length, Hl. cbn [String.length]. lia.
Qed.

Lemma truncate_adds_three_characters_witness :
  truncate "campaign" 7 = "campaig..."
  /\ Z.of_nat (String.length (truncate "campaign" 7)) = 10%Z.
Proof.
  destruct (truncate_adds_three_characters "campaign" 7) as [_ H].
  - lia.
  - destruct H as [H1 [H2 _]]; [simpl; lia|]. split; [exact H1 | exact H2].
Defined.

(** ** Onboarding *)

Lemma updateOnboardingState_run :
  forall updates current w,
    flagsOnly updates = true ->
    exists updated w',
      updateOnboardingState updates current w = (Ok updated, w')
      /\ hasSeenWelcome updated
         = spread (hasSeenWelcome current) (upd_hasSeenWelcome updates)
      /\ hasCreatedFirstCampaign updated
         = spread (hasCreatedFirstCampaign current)
                  (upd_hasCreatedFirstCampaign updates)
      /\ hasEnabledMonitoring updated
         = spread (hasEnabledMonitoring current)
                  (upd_hasEnabledMonitoring updates)
      /\ hasViewedFirstAlarm updated
         = spread (hasViewedFirstAlarm current)
                  (upd_hasViewedFirstAlarm updates)
      /\ hasAppliedRecommendation updated
         = spread (hasAppliedRecommendation current)
                  (upd_hasAppliedRecommendation updates)
      /\ (isCompleted current = true ->
          completedAt updated = completedAt current /\ w' = w)
      /\ (isCompleted current = false ->
          if allStepsDone updated
          then completedAt updated = Some (iso (clock w (clockPos w)))
               /\ clockPos w' = S (clockPos w)
          else completedAt updated = completedAt current /\ w' = w).
Proof.
  intros updates current w Hflags.
  unfold flagsOnly in Hflags.
  unfold updateOnboardingState, isCompleted, allStepsDone.
  destruct (upd_completedAt updates) as [t|]; [discriminate Hflags|].
  cbn [hasSeenWelcome hasCreatedFirstCampaign hasEnabledMonitoring
         hasViewedFirstAlarm hasAppliedRecommendation completedAt].
  set (all := spread (hasSeenWelcome current) (upd_hasSeenWelcome updates)
              && spread (hasCreatedFirstCampaign current)
                        (upd_hasCreatedFirstCampaign updates)
              && spread (hasEnabledMonitoring current)
                        (upd_hasEnabledMonitoring updates)
              && spread (hasViewedFirstAlarm current)
                        (upd_hasViewedFirstAlarm updates)
              && spread (hasAppliedRecommendation current)
                        (upd_hasAppliedRecommendation updates)).
  set (done := match completedAt current with
               | Some t => negb (t =? "")
               | None => false
               end).
  destruct all eqn:Eall, done eqn:Edone; cbn [andb negb];
    eexists _, _; (split; [reflexivity|]);
    cbn [hasSeenWelcome hasCreatedFirstCampaign hasEnabledMonitoring
           hasViewedFirstAlarm hasAppliedRecommendation completedAt];
    repeat (split; [reflexivity|]);
    split; intros H; try discriminate H;
    try (fold all; rewrite Eall; cbv iota);
    split; reflexivity.
Qed.

(** X25: the completion of the onboarding is stamped once.  Over any
    sequence of flag updates: a completion time that is set stays as it is,
    also when a later update sets a flag back to false; and after an update
    that leaves all five steps done, a completion time is set. *)
Theorem onboarding_completion_is_stamped_once :
  forall l current,
    Forall (fun uw => flagsOnly (fst uw) = true
                      /\ iso (clock (snd uw) (clockPos (snd uw))) <> "") l ->
    (isCompleted current = true ->
     completedAt (onboardingAfter l current) = completedAt current)
    /\ (l <> [] ->
        allStepsDone (onboardingAfter l current) = true ->
        isCompleted (onboardingAfter l current) = true).
Proof.
  intros l current Hl.
  assert (Hstep : forall u w o,
             flagsOnly u = true -> iso (clock w (clockPos w)) <> "" ->
             let o' := match updateOnboardingState u o w with
                       | (Ok o', _) => o'
                       | (Throw _, _) => o
                       end in
             (isCompleted o = true -> completedAt o' = completedAt o)
             /\ (allStepsDone o' = true -> isCompleted o' = true)).
  { intros u w o Hu Hiso. cbv zeta.
    destruct (updateOnboardingState_run u o w Hu)
      as [o' [w' [E [_ [_ [_ [_ [_ [Hdone Hnot]]]]]]]]].
    rewrite E. split; [intros H; now apply Hdone|].
    intros Hall. destruct (isCompleted o) eqn:Ec.
    - destruct (Hdone eq_refl) as [Hc _].
      unfold isCompleted in *. now rewrite Hc.
    - specialize (Hnot eq_refl). rewrite Hall in Hnot.
      destruct Hnot as [Hc _]. unfold isCompleted. rewrite Hc.
      apply negb_true_iff. now apply String.eqb_neq. }
  revert current. induction Hl as [|[u w] t [Hu Hiso] Ht IH]; intros current.
  - split; [reflexivity | intros H; now destruct H].
  - cbn [fst snd] in Hu, Hiso.
    destruct (Hstep u w current Hu Hiso) as [H1 H2]. cbv zeta in H1, H2.
    unfold onboardingAfter. cbn [fold_left fst snd].
    fold (onboardingAfter t
            match updateOnboardingState u current w with
            | (Ok o', _) => o'
            | (Throw _, _) => current
            end).
    set (o1 := match updateOnboardingState u current w with
               | (Ok o', _) => o'
               | (Throw _, _) => current
               end) in *.
    destruct (IH o1) as [IH1 IH2]. split.
    + intros Hc. rewrite IH1; [now apply H1|].
      unfold isCompleted in *. now rewrite (H1 Hc).
    + intros _ Hall. destruct t as [|uw t'].
      * cbn [onboardingAfter fold_left] in *. now apply H2.
      * apply IH2; [discriminate | exact Hall].
Qed.

Lemma onboarding_completion_is_stamped_once_witness :
  let updates :=
    {| upd_hasSeenWelcome := None; upd_hasCreatedFirstCampaign := None;
       upd_hasEnabledMonitoring := None; upd_hasViewedFirstAlarm := None;
       upd_hasAppliedRecommendation := Some true;
       upd_completedAt := None |} in
  let current :=
    {| hasSeenWelcome := true; hasCreatedFirstCampaign := true;
       hasEnabledMonitoring := true; hasViewedFirstAlarm := true;
       hasAppliedRecommendation := false; completedAt := None |} in
  isCompleted (onboardingAfter [(updates, Sample.world 0 5 0)] current)
  = true.
Proof.
  cbv zeta.
  refine (proj2 (onboarding_completion_is_stamped_once
                   [(_, Sample.world 0 5 0)] _ _) _ _).
  - constructor; [|constructor]. split; [reflexivity | discriminate].
  - discriminate.
  - reflexivity.
Defined.


(** ** The dimensional breakdown *)

Lemma assign_keys o key v :
  (NoDup (map fst o) -> NoDup (map fst (assign o key v)))
  /\ forall k, In k (map fst (assign o key v)) <-> In k (map fst o) \/ k = key.
Proof.
  induction o as [|[k0 v0] t [IH1 IH2]]; cbn [assign map fst].
  - split; [intros _; constructor; [intros [] | constructor]|].
    intros k. cbn [In]. intuition congruence.
  - destruct (k0 =? key) eqn:E; cbn [map fst].
    + apply String.eqb_eq in E. subst k0. split; [exact (fun H => H)|].
      intros k. cbn [In]. intuition congruence.
    + apply String.eqb_neq in E. split.
      * intros Hnd. apply NoDup_cons_iff in Hnd. destruct Hnd as [Hk Hnd].
        constructor; [|now apply IH1].
        intros Hin. apply IH2 in Hin. destruct Hin as [Hin|Heq];
          [now apply Hk | now apply E].
      * intros k. cbn [In]. rewrite IH2. tauto.
Qed.

Lemma forEach_union {A} (l : list A) (f : A -> Dimensions -> M Dimensions)
  (G : A -> list string) :
  (forall x acc w s acc' w' s',
      f x acc w s = (Ok acc', w', s') ->
      (NoDup (map fst acc) -> NoDup (map fst acc'))
      /\ forall k, In k (map fst acc') <-> In k (map fst acc) \/ In k (G x)) ->
  forall acc w s r w' s',
    forEach l f acc w s = (Ok r, w', s') ->
    (NoDup (map fst acc) -> NoDup (map fst r))
    /\ forall k, In k (map fst r)
                 <-> In k (map fst acc) \/ exists x, In x l /\ In k (G x).
Proof.
  intros Hf. induction l as [|x t IH]; intros acc w s r w' s' E;
    cbn [forEach] in E.
  - injection E as <- _ _. split; [exact (fun H => H)|].
    intros k. split; [now left|]. intros [H|[x [[] _]]]. exact H.
  - rewrite bind_run in E.
    destruct (f x acc w s) as [[[acc1|e] w1] s1] eqn:E1;
      [|discriminate E].
    destruct (Hf _ _ _ _ _ _ _ E1) as [H1 H2].
    destruct (IH _ _ _ _ _ _ E) as [H3 H4].
    split; [intros Hnd; apply H3, H1, Hnd|].
    intros k. rewrite H4, H2. split.
    + intros [[H|H]|[y [Hy H]]].
      * now left.
      * right. exists x. split; [now left | exact H].
      * right. exists y. split; [now right | exact H].
    + intros [H|[y [[<-|Hy] H]]].
      * left. now left.
      * left. now right.
      * right. now exists y.
Qed.

Lemma dimension_step src campaign metric key acc w s acc' w' s' :
  (baseValue <- lift (generateExpectedValue src campaign metric) ;;
   r <- lift Math_random ;;
   let value := (baseValue * (0.8 + r * 0.4))%Q in
   r' <- lift Math_random ;;
   ret (assign acc key {| dim_value := value; dim_inAlarm := Qgtb r' 0.7 |}))
    w s = (Ok acc', w', s') ->
  exists v, acc' = assign acc key v.
Proof.
  rewrite bind_run, lift_run.
  destruct (generateExpectedValue src campaign metric w) as [[b|e] w1];
    cbn [fst snd]; [|intros H; discriminate H].
  intros H. injection H as <- _ _. now eexists.
Qed.

Lemma keyed_loop {A} src campaign metric (key : A -> string) (l : list A)
  acc w s r w' s' :
  forEach l
    (fun x dimensionalData =>
       baseValue <- lift (generateExpectedValue src campaign metric) ;;
       r <- lift Math_random ;;
       let value := (baseValue * (0.8 + r * 0.4))%Q in
       r' <- lift Math_random ;;
       ret (assign dimensionalData (key x)
              {| dim_value := value; dim_inAlarm := Qgtb r' 0.7 |}))
    acc w s = (Ok r, w', s') ->
  (NoDup (map fst acc) -> NoDup (map fst r))
  /\ forall k, In k (map fst r) <-> In k (map fst acc) \/ In k (map key l).
Proof.
  intros E.
  assert (Hstep : forall x acc w s acc' w' s',
             (baseValue <- lift (generateExpectedValue src campaign metric) ;;
              r <- lift Math_random ;;
              let value := (baseValue * (0.8 + r * 0.4))%Q in
              r' <- lift Math_random ;;
              ret (assign acc (key x)
                     {| dim_value := value; dim_inAlarm := Qgtb r' 0.7 |}))
               w s = (Ok acc', w', s') ->
             (NoDup (map fst acc) -> NoDup (map fst acc'))
             /\ forall k, In k (map fst acc')
                          <-> In k (map fst acc) \/ In k [key x]).
  { intros x acc0 w0 s0 acc' w0' s0' H.
    destruct (dimension_step _ _ _ _ _ _ _ _ _ _ H) as [v ->].
    destruct (assign_keys acc0 (key x) v) as [Ha Hb].
    split; [exact Ha|]. intros k. rewrite Hb. cbn [In].
    split; (intros [H1|H1]; [now left | right]);
      [now left | destruct H1 as [H1|[]]; now symmetry]. }
  destruct (forEach_union l _ (fun x => [key x]) Hstep _ _ _ _ _ _ E)
    as [Ha Hb].
  split; [exact Ha|]. intros k. rewrite Hb. split.
  - intros [H|[x [Hx [<-|[]]]]]; [now left|]. right. now apply in_map.
  - intros [H|H]; [now left|]. right.
    apply in_map_iff in H. destruct H as [x [<- Hx]].
    exists x. split; [exact Hx | now left].
Qed.

(** The keys one dimension name contributes. *)
Lemma dimension_turn src monitor campaign x acc w s acc' w' s' :
  (dimensionalData <-
     (if x =? "device" then
        forEach (devices (targeting campaign))
          (fun device dimensionalData =>
             baseValue <- lift (generateExpectedValue src campaign
                                  (metricId monitor)) ;;
             r <- lift Math_random ;;
             let value := (baseValue * (0.8 + r * 0.4))%Q in
             r' <- lift Math_random ;;
             ret (assign dimensionalData
                    ("device_" ++ DeviceType_name device)
                    {| dim_value := value;
                       dim_inAlarm := Qgtb r' 0.7 |}))
          acc
      else ret acc) ;;
   if x =? "geo" then
     forEach (geos (targeting campaign))
       (fun geo dimensionalData =>
          baseValue <- lift (generateExpectedValue src campaign
                               (metricId monitor)) ;;
          r <- lift Math_random ;;
          let value := (baseValue * (0.8 + r * 0.4))%Q in
          r' <- lift Math_random ;;
          ret (assign dimensionalData ("geo_" ++ geo)
                 {| dim_value := value;
                    dim_inAlarm := Qgtb r' 0.7 |}))
       dimensionalData
   else ret dimensionalData) w s = (Ok acc', w', s') ->
  (NoDup (map fst acc) -> NoDup (map fst acc'))
  /\ forall k,
       In k (map fst acc')
       <-> In k (map fst acc)
           \/ In k (app
                      (if x =? "device"
                       then map (fun device =>
                                   "device_" ++ DeviceType_name device)
                                (devices (targeting campaign))
                       else [])
                      (if x =? "geo"
                       then map (fun geo => "geo_" ++ geo)
                                (geos (targeting campaign))
                       else [])).
Proof.
  intros Ex. rewrite bind_run in Ex.
  match type of Ex with
  | match ?c with _ => _ end = _ =>
      destruct c as [[[acc1|e] w1] s1] eqn:E1; [|discriminate Ex]
  end.
  assert (H1 : (NoDup (map fst acc) -> NoDup (map fst acc1))
               /\ forall k, In k (map fst acc1)
                            <-> In k (map fst acc)
                                \/ In k (if x =? "device"
                                         then map (fun device =>
                                                "device_"
                                                ++ DeviceType_name device)
                                                (devices (targeting campaign))
                                         else [])).
  { destruct (x =? "device").
    - exact (keyed_loop src campaign (metricId monitor)
               (fun device => "device_" ++ DeviceType_name device)
               _ _ _ _ _ _ _ E1).
    - injection E1 as <- _ _. split; [exact (fun H => H)|].
      intros k. cbn [In]. tauto. }
  assert (H2 : (NoDup (map fst acc1) -> NoDup (map fst acc'))
               /\ forall k, In k (map fst acc')
                            <-> In k (map fst acc1)
                                \/ In k (if x =? "geo"
                                         then map (fun geo => "geo_" ++ geo)
                                                (geos (targeting campaign))
                                         else [])).
  { destruct (x =? "geo").
    - exact (keyed_loop src campaign (metricId monitor)
               (fun geo => "geo_" ++ geo) _ _ _ _ _ _ _ Ex).
    - injection Ex as <- _ _. split; [exact (fun H => H)|].
      intros k. cbn [In]. tauto. }
  destruct H1 as [H1a H1b]. destruct H2 as [H2a H2b].
  split; [intros Hnd; apply H2a, H1a, Hnd|].
  intros k. rewrite H2b, H1b, in_app_iff. tauto.
Qed.

(** X26: the keys of a dimensional breakdown.  When the breakdown of a
    granular monitor is produced, it has one entry for each targeted device
    (under [device_] followed by the device) if the monitor lists the
    dimension [device], one for each targeted country (under [geo_]
    followed by its code) if it lists [geo], and no other entry: other
    dimension names add nothing, and a device or country listed twice has
    one entry.  The store is left as it was. *)
Theorem breakdown_has_one_entry_per_device_and_country :
  forall src monitor campaign dims w s d w' s',
    granularDimensions monitor = Some dims ->
    evaluateGranularDimensions src monitor campaign w s = (Ok d, w', s') ->
    NoDup (map fst d)
    /\ (forall key,
          In key (map fst d)
          <-> (In "device" dims
               /\ exists device,
                    In device (devices (targeting campaign))
                    /\ key = "device_" ++ DeviceType_name device)
              \/ (In "geo" dims
                  /\ exists geo,
                       In geo (geos (targeting campaign))
                       /\ key = "geo_" ++ geo))
    /\ s' = s.
Proof.
  intros src monitor campaign dims w s d w' s' Hdims E.
  assert (Hs : s' = s).
  { pose proof (evaluateGranularDimensions_readonly src monitor campaign
                  w s) as H.
    rewrite E in H. exact H. }
  unfold evaluateGranularDimensions in E. rewrite Hdims in E.
  destruct (forEach_union dims _ _
              (fun x acc w s acc' w' s' H =>
                 dimension_turn src monitor campaign x acc w s acc' w' s' H)
              _ _ _ _ _ _ E) as [Hnd Hkeys].
  split; [apply Hnd; constructor|]. split; [|exact Hs].
  intros key. rewrite Hkeys. cbn [map In]. split.
  - intros [[]|[x [Hx Hk]]]. apply in_app_or in Hk.
    destruct Hk as [Hk|Hk].
    + destruct (x =? "device") eqn:Ex; [|destruct Hk].
      apply String.eqb_eq in Ex. subst x. left. split; [exact Hx|].
      apply in_map_iff in Hk. destruct Hk as [dv [<- Hdv]]. now exists dv.
    + destruct (x =? "geo") eqn:Ex; [|destruct Hk].
      apply String.eqb_eq in Ex. subst x. right. split; [exact Hx|].
      apply in_map_iff in Hk. destruct Hk as [g [<- Hg]]. now exists g.
  - intros [[Hd [dv [Hdv ->]]]|[Hg [g [Hgeo ->]]]]; right.
    + exists "device". split; [exact Hd|]. apply in_or_app. left.
      cbn. apply in_map_iff. now exists dv.
    + exists "geo". split; [exact Hg|]. apply in_or_app. right.
      cbn. apply in_map_iff. now exists g.
Qed.

Lemma breakdown_has_one_entry_per_device_and_country_witness :
  exists d w' s',
    evaluateGranularDimensions Simulation.source Sample.impressions
      Sample.shoes (Sample.world 0.5 0 0) emptyStore = (Ok d, w', s')
    /\ NoDup (map fst d)
    /\ In "device_Mobile" (map fst d).
Proof.
  destruct (succeeds_evaluateGranularDimensions Simulation.source
              Sample.impressions Sample.shoes
              (succeedsE_shipped_expected Sample.shoes)
              (Sample.world 0.5 0 0) emptyStore) as [d [w' [s' E]]].
  exists d, w', s'. split; [exact E|].
  destruct (breakdown_has_one_entry_per_device_and_country
              Simulation.source Sample.impressions Sample.shoes ["device"]
              (Sample.world 0.5 0 0) emptyStore d w' s' eq_refl E)
    as [Hnd [Hkeys _]].
  split; [exact Hnd|]. apply Hkeys. left. split; [now left|].
  exists Mobile. split; [right; now left | reflexivity].
Defined.

(** ** Batches compose *)

Lemma loop_accumulates src campaign monitors :
  forall states0 alarms0 w s,
    evaluateAllMonitors_loop src campaign monitors states0 alarms0 w s
    = match evaluateAllMonitors_loop src campaign monitors [] [] w s with
      | (Ok r, w', s') =>
          (Ok {| states := (states0 ++ states r)%list;
                 newAlarms := (alarms0 ++ newAlarms r)%list |}, w', s')
      | (Throw e, w', s') => (Throw e, w', s')
      end.
Proof.
  induction monitors as [|monitor rest IH]; intros states0 alarms0 w s.
  - cbn [evaluateAllMonitors_loop ret M_Monad states newAlarms].
    now rewrite !app_nil_r.
  - destruct (enabled monitor) eqn:Een.
    + rewrite !(loop_enabled _ _ _ _ _ _ _ _ Een).
      destruct (evaluateMonitor src monitor campaign w s)
        as [[[res|e] w1] s1]; [|reflexivity].
      destruct (autoResolveAlarms monitor (er_state res) w1 s1)
        as [[[[]|e] w2] s2]; [|reflexivity].
      rewrite (IH (push states0 (er_state res))).
      rewrite (IH (push [] (er_state res))).
      destruct (evaluateAllMonitors_loop src campaign rest [] [] w2 s2)
        as [[[r|e] w3] s3]; [|reflexivity].
      cbn [states newAlarms]. unfold push.
      destruct (er_alarm res) as [a|]; cbn [app];
        now rewrite <- ?app_assoc.
    + rewrite !(loop_disabled _ _ _ _ _ _ _ _ Een). apply IH.
Qed.

Lemma loop_filter_enabled src campaign monitors :
  forall states0 alarms0 w s,
    evaluateAllMonitors_loop src campaign (filter enabled monitors)
      states0 alarms0 w s
    = evaluateAllMonitors_loop src campaign monitors states0 alarms0 w s.
Proof.
  induction monitors as [|monitor rest IH]; intros states0 alarms0 w s;
    [reflexivity|].
  cbn [filter]. destruct (enabled monitor) eqn:Een.
  - rewrite !(loop_enabled _ _ _ _ _ _ _ _ Een).
    destruct (evaluateMonitor src monitor campaign w s)
      as [[[res|e] w1] s1]; [|reflexivity].
    destruct (autoResolveAlarms monitor (er_state res) w1 s1)
      as [[[[]|e] w2] s2]; [|reflexivity].
    apply IH.
  - rewrite (loop_disabled _ _ _ _ _ _ _ _ Een). apply IH.
Qed.

(** X27: batches compose.  A batch over two lists of monitors, one after
    the other, is the batch over the first followed by the batch over the
    second in the world and the store the first one left: it returns the
    states and the new alarms of both, in order, and fails where the first
    failing part fails.  Disabled monitors can be dropped from the list
    without changing anything. *)
Theorem batch_is_sequential :
  forall src campaign before after w s,
    evaluateAllMonitors src campaign (before ++ after) w s
    = match evaluateAllMonitors src campaign before w s with
      | (Ok r1, w1, s1) =>
          match evaluateAllMonitors src campaign after w1 s1 with
          | (Ok r2, w2, s2) =>
              (Ok {| states := (states r1 ++ states r2)%list;
                     newAlarms := (newAlarms r1 ++ newAlarms r2)%list |},
               w2, s2)
          | (Throw e, w2, s2) => (Throw e, w2, s2)
          end
      | (Throw e, w1, s1) => (Throw e, w1, s1)
      end
    /\ evaluateAllMonitors src campaign (filter enabled before) w s
       = evaluateAllMonitors src campaign before w s.
Proof.
  intros src campaign before after w s. unfold evaluateAllMonitors. split.
  - rewrite loop_app.
    destruct (evaluateAllMonitors_loop src campaign before [] [] w s)
      as [[[r1|e] w1] s1]; [|reflexivity].
    apply loop_accumulates.
  - apply loop_filter_enabled.
Qed.

(** ** Metric ids that name members of [Object.prototype] *)



